(** * pprof-to-md: the analysis engine of [src/analyzer.ts]

    A shallow embedding of the analyzer (totals, per-function statistics,
    call tree, hotspots, critical paths, value formatting) and the
    properties of its specification.

    Numeric model.  The source works on [Numeric = number | bigint].  A
    bigint is an integer of [Z].  A JavaScript number is a finite IEEE
    double, modelled by the rational it denotes in lowest terms; every
    arithmetic operation computes the exact result and rounds it to the
    nearest double, ties to even, subnormals included ([toDouble]).  The
    sign of zero is not kept: the analyzer never divides by a zero and
    prints both zeros alike.  NaN and the infinities have no rational:
    [isFinite] tells where a result is still a double of the source, and
    the properties that depend on it ask for it.

    Call stack.  [calculateTreePercentages] and [traverse] recurse once
    per level of the call tree.  The definitions of the analyzer proper
    give the result of a run whose recursion fits the call stack of the
    engine; the module [OnStack] gives the outcome of every run, the
    [RangeError] of a stack that is too deep included. *)

From Stdlib Require Import ZArith QArith Qround Qpower Qabs Lqa Lia.
From Stdlib Require Import List String Ascii Bool DecimalString.
From Stdlib Require Import Permutation Sorted.
Import ListNotations.

Set Warnings "-register-all".

Local Open Scope string_scope.
Local Open Scope list_scope.
Local Open Scope Z_scope.

(** ** Numbers *)

Module Num.

(** [number | bigint] of [types.ts]. *)
Inductive Numeric : Type :=
| JNumber (q : Q)
| JBigInt (z : Z).

(** The literal [0] of the source. *)
Definition zero : Numeric := JNumber 0.

(** [2^e] for an integer exponent. *)
Definition pow2 (e : Z) : Q := Qpower 2 e.

(** The binary exponent of a positive rational: [floor (log2 q)]. *)
Definition ilog2 (q : Q) : Z :=
  let g := Z.log2 (Qnum q) - Z.log2 (Zpos (Qden q)) in
  if Qle_bool (pow2 g) q then g else g - 1.

(** The nearest integer, the even one on a tie. *)
Definition roundHalfEven (q : Q) : Z :=
  let f := Qfloor q in
  match Qcompare (q - inject_Z f) (1 # 2) with
  | Lt => f
  | Gt => f + 1
  | Eq => if Z.even f then f else f + 1
  end.

(** The nearest double of a positive rational: 53 bits of mantissa, the
    exponent of the last bit not below -1074. *)
Definition roundPositive (q : Q) : Q :=
  let e := Z.max (ilog2 q - 52) (-1074) in
  inject_Z (roundHalfEven (q / pow2 e)) * pow2 e.

(** The nearest double of a rational. *)
Definition toDouble (x : Q) : Q :=
  let q := Qred x in
  match Qnum q with
  | Z0 => 0
  | Zpos _ => Qred (roundPositive q)
  | Zneg _ => Qred (- roundPositive (- q))
  end.

(** The largest double, [Number.MAX_VALUE]: (2^53 - 1) * 2^971. *)
Definition maxDouble : Q := inject_Z (2 ^ 53 - 1) * pow2 971.

(** [Number.isFinite] of a rounded result: [toDouble] has no largest
    exponent, and a result beyond [maxDouble] is where the source holds
    [Infinity] or [-Infinity] (and [NaN] after it). *)
Definition isFinite (x : Q) : bool := Qle_bool (Qabs x) maxDouble.

(** [toNum]: [typeof value === 'bigint' ? Number(value) : value]. *)
Definition toNum (value : Numeric) : Q :=
  match value with
  | JBigInt z => toDouble (inject_Z z)
  | JNumber q => q
  end.

(** [a + b], [a - b], [a * b] and [a / b] on numbers. *)
Definition numAdd (a b : Q) : Q := toDouble (a + b).
Definition numSub (a b : Q) : Q := toDouble (a - b).
Definition numMul (a b : Q) : Q := toDouble (a * b).
Definition numDiv (a b : Q) : Q := toDouble (a / b).

(** [addNumeric]: exact on two bigints, on numbers otherwise. *)
Definition addNumeric (a b : Numeric) : Numeric :=
  match a, b with
  | JBigInt x, JBigInt y => JBigInt (x + y)
  | _, _ => JNumber (numAdd (toNum a) (toNum b))
  end.

(** [toNum(value) === 0]. *)
Definition isZero (value : Numeric) : bool := Qeq_bool (toNum value) 0.

(** [(toNum(value) / totalNum) * 100], the percentage of both passes.
    The orchestrator calls them with a total other than zero only. *)
Definition percentOf (value : Numeric) (totalNum : Q) : Q :=
  numMul (numDiv (toNum value) totalNum) 100.

End Num.
Import Num.

(** ** Insertion-ordered maps and sets

    A JS [Map<string, V>] iterates in insertion order and [set] on a present
    key keeps its position; a [Set<string>] likewise. *)

Module OMap.

Definition t (V : Type) : Type := list (string * V).

Definition empty {V : Type} : t V := [].

Fixpoint get {V : Type} (k : string) (m : t V) : option V :=
  match m with
  | [] => None
  | (k', v) :: m' => if String.eqb k k' then Some v else get k m'
  end.

Fixpoint set {V : Type} (k : string) (v : V) (m : t V) : t V :=
  match m with
  | [] => [(k, v)]
  | (k', v') :: m' =>
      if String.eqb k k' then (k', v) :: m' else (k', v') :: set k v m'
  end.

Definition values {V : Type} (m : t V) : list V := map snd m.

Definition keys {V : Type} (m : t V) : list string := map fst m.

Definition size {V : Type} (m : t V) : nat := List.length m.

End OMap.

Module OSet.

Definition t : Type := list string.

Definition empty : t := [].

Definition has (k : string) (s : t) : bool :=
  existsb (String.eqb k) s.

Definition add (k : string) (s : t) : t :=
  if has k s then s else s ++ [k].

End OSet.

(** ** The data model of [types.ts] *)

Record SampleType : Type := mkSampleType {
  st_type : string;
  st_unit : string
}.

Record FunctionInfo : Type := mkFunctionInfo {
  fi_id : Numeric;
  fi_name : string;
  fi_systemName : string;
  fi_filename : string;
  fi_startLine : Z
}.

Record LineInfo : Type := mkLineInfo {
  li_functionId : Numeric;
  li_line : Z;
  li_function : FunctionInfo
}.

Record Location : Type := mkLocation {
  loc_id : Numeric;
  loc_address : Numeric;
  loc_lines : list LineInfo
}.

(** Labels play no part in the analysis and are left out of [Sample]. *)
Record Sample : Type := mkSample {
  s_stack : list Location;
  s_values : list Numeric
}.

(** The fields of [NormalizedProfile] that the analyzer reads. *)
Record NormalizedProfile : Type := mkProfile {
  sampleTypes : list SampleType;
  samples : list Sample;
  durationNanos : Numeric;
  period : Numeric;
  periodType : option SampleType
}.

Record FunctionStats : Type := mkStats {
  fs_key : string;
  fs_name : string;
  fs_filename : string;
  fs_line : Z;
  fs_selfValue : Numeric;
  fs_cumulativeValue : Numeric;
  fs_selfPercent : Q;
  fs_cumulativePercent : Q;
  fs_sampleCount : Z;
  fs_callers : OSet.t;
  fs_callees : OSet.t
}.

Record Hotspot : Type := mkHotspot {
  h_key : string;
  h_name : string;
  h_filename : string;
  h_line : Z;
  h_selfValue : Numeric;
  h_cumulativeValue : Numeric;
  h_selfPercent : Q;
  h_cumulativePercent : Q;
  h_sampleCount : Z;
  h_type : string;
  h_callers : list string;
  h_callees : list string
}.

Inductive CallTreeNode : Type := mkNode {
  ct_key : string;
  ct_name : string;
  ct_filename : string;
  ct_line : Z;
  ct_selfValue : Numeric;
  ct_cumulativeValue : Numeric;
  ct_selfPercent : Q;
  ct_cumulativePercent : Q;
  ct_children : list (string * CallTreeNode)
}.

Record PathNode : Type := mkPathNode {
  pn_name : string;
  pn_selfPercent : Q;
  pn_cumulativePercent : Q
}.

Record CriticalPath : Type := mkCriticalPath {
  cp_path : list PathNode;
  cp_cumulativePercent : Q
}.

Record AnalysisResult : Type := mkResult {
  r_sampleType : SampleType;
  r_totalValue : Numeric;
  r_totalSamples : nat;
  r_functionStats : OMap.t FunctionStats;
  r_callTree : CallTreeNode;
  r_hotspots : list Hotspot;
  r_criticalPaths : list CriticalPath;
  r_durationNanos : Numeric;
  r_period : Numeric;
  r_periodType : option SampleType
}.

(** ** Small JavaScript idioms *)

(** [arr[i]] for an integer index: [undefined] outside the array, also
    for a negative index. *)
Definition jsIndex {A : Type} (arr : list A) (i : Z) : option A :=
  if i <? 0 then None else nth_error arr (Z.to_nat i).

(** [`${n}`] for an integer. *)
Definition intToString (n : Z) : string :=
  NilZero.string_of_int (Z.to_int n).

(** [a || b] on integers: [0] is falsy. *)
Definition orElse (a b : Z) : Z := if a =? 0 then b else a.

(** [Array.prototype.sort(cmp)]: the sort is stable, and [cmp a b > 0]
    puts [a] after [b].  For a comparator that is a difference of keys the
    result is the one of a stable insertion sort. *)
Fixpoint insertBy {A : Type} (cmp : A -> A -> Q) (x : A) (l : list A)
  : list A :=
  match l with
  | [] => [x]
  | y :: l' =>
      if Qle_bool (cmp x y) 0 then x :: y :: l' else y :: insertBy cmp x l'
  end.

Definition sortBy {A : Type} (cmp : A -> A -> Q) (l : list A) : list A :=
  fold_right (insertBy cmp) [] l.

(** ** Statistics aggregator *)

(** [`${fn.name}@${fn.filename}:${line}`]. *)
Definition identityKey (fn : FunctionInfo) (line : Z) : string :=
  (fi_name fn ++ "@" ++ fi_filename fn ++ ":" ++ intToString line)%string.

Definition newStats (key : string) (fn : FunctionInfo) (line : Z)
  : FunctionStats :=
  {| fs_key := key;
     fs_name := fi_name fn;
     fs_filename := fi_filename fn;
     fs_line := orElse line (fi_startLine fn);
     fs_selfValue := zero;
     fs_cumulativeValue := zero;
     fs_selfPercent := 0;
     fs_cumulativePercent := 0;
     fs_sampleCount := 0;
     fs_callers := OSet.empty;
     fs_callees := OSet.empty |}.

(** Field updates of a row; the row object is shared with the map, so
    every update is written back under the row's map key. *)
Definition withSelfValue (v : Numeric) (r : FunctionStats) : FunctionStats :=
  {| fs_key := fs_key r; fs_name := fs_name r; fs_filename := fs_filename r;
     fs_line := fs_line r; fs_selfValue := v;
     fs_cumulativeValue := fs_cumulativeValue r;
     fs_selfPercent := fs_selfPercent r;
     fs_cumulativePercent := fs_cumulativePercent r;
     fs_sampleCount := fs_sampleCount r;
     fs_callers := fs_callers r; fs_callees := fs_callees r |}.

Definition withCumulative (v : Numeric) (n : Z) (r : FunctionStats)
  : FunctionStats :=
  {| fs_key := fs_key r; fs_name := fs_name r; fs_filename := fs_filename r;
     fs_line := fs_line r; fs_selfValue := fs_selfValue r;
     fs_cumulativeValue := v;
     fs_selfPercent := fs_selfPercent r;
     fs_cumulativePercent := fs_cumulativePercent r;
     fs_sampleCount := n;
     fs_callers := fs_callers r; fs_callees := fs_callees r |}.

Definition withCallers (s : OSet.t) (r : FunctionStats) : FunctionStats :=
  {| fs_key := fs_key r; fs_name := fs_name r; fs_filename := fs_filename r;
     fs_line := fs_line r; fs_selfValue := fs_selfValue r;
     fs_cumulativeValue := fs_cumulativeValue r;
     fs_selfPercent := fs_selfPercent r;
     fs_cumulativePercent := fs_cumulativePercent r;
     fs_sampleCount := fs_sampleCount r;
     fs_callers := s; fs_callees := fs_callees r |}.

Definition withCallees (s : OSet.t) (r : FunctionStats) : FunctionStats :=
  {| fs_key := fs_key r; fs_name := fs_name r; fs_filename := fs_filename r;
     fs_line := fs_line r; fs_selfValue := fs_selfValue r;
     fs_cumulativeValue := fs_cumulativeValue r;
     fs_selfPercent := fs_selfPercent r;
     fs_cumulativePercent := fs_cumulativePercent r;
     fs_sampleCount := fs_sampleCount r;
     fs_callers := fs_callers r; fs_callees := s |}.

Definition withPercents (sp cp : Q) (r : FunctionStats) : FunctionStats :=
  {| fs_key := fs_key r; fs_name := fs_name r; fs_filename := fs_filename r;
     fs_line := fs_line r; fs_selfValue := fs_selfValue r;
     fs_cumulativeValue := fs_cumulativeValue r;
     fs_selfPercent := sp;
     fs_cumulativePercent := cp;
     fs_sampleCount := fs_sampleCount r;
     fs_callers := fs_callers r; fs_callees := fs_callees r |}.

(** [getOrCreateStats]: the row under the key, created and appended to
    the map when absent. *)
Definition getOrCreateStats (stats : OMap.t FunctionStats)
    (fn : FunctionInfo) (line : Z)
  : OMap.t FunctionStats * FunctionStats :=
  let key := identityKey fn line in
  match OMap.get key stats with
  | Some existing => (stats, existing)
  | None =>
      let existing := newStats key fn line in
      (OMap.set key existing stats, existing)
  end.

(** [sample.values[sampleTypeIndex] ?? 0]. *)
Definition sampleValue (sample : Sample) (sampleTypeIndex : Z) : Numeric :=
  match jsIndex (s_values sample) sampleTypeIndex with
  | Some v => v
  | None => zero
  end.

(** The names of the functions of a location, in line order. *)
Definition lineNames (loc : option Location) : list string :=
  match loc with
  | Some l => map (fun li => fi_name (li_function li)) (loc_lines l)
  | None => []
  end.

(** The state of the scan of one sample: the map and [seenInStack]. *)
Definition AggState : Type := (OMap.t FunctionStats * OSet.t)%type.

(** The body of [for (const lineInfo of lines)] at stack index [i]. *)
Definition lineStep (value : Numeric) (stack : list Location) (i : nat)
    (st : AggState) (lineInfo : LineInfo) : AggState :=
  let '(stats, seenInStack) := st in
  let fn := li_function lineInfo in
  let '(stats, fnStats) := getOrCreateStats stats fn (li_line lineInfo) in
  let key := fs_key fnStats in
  let fnStats :=
    if Nat.eqb i 0
    then withSelfValue (addNumeric (fs_selfValue fnStats) value) fnStats
    else fnStats in
  let '(fnStats, seenInStack) :=
    if negb (OSet.has key seenInStack)
    then (withCumulative (addNumeric (fs_cumulativeValue fnStats) value)
            (fs_sampleCount fnStats + 1) fnStats,
          OSet.add key seenInStack)
    else (fnStats, seenInStack) in
  let fnStats :=
    if Nat.ltb i (List.length stack - 1)
    then withCallers
           (fold_left (fun s n => OSet.add n s)
              (lineNames (nth_error stack (i + 1))) (fs_callers fnStats))
           fnStats
    else fnStats in
  let fnStats :=
    if Nat.ltb 0 i
    then withCallees
           (fold_left (fun s n => OSet.add n s)
              (lineNames (nth_error stack (i - 1))) (fs_callees fnStats))
           fnStats
    else fnStats in
  (OMap.set (identityKey fn (li_line lineInfo)) fnStats stats, seenInStack).

(** The body of [for (let i = 0; i < sample.stack.length; i++)]. *)
Definition stackStep (value : Numeric) (stack : list Location)
    (st : AggState) (i : nat) : AggState :=
  match nth_error stack i with
  | Some location => fold_left (lineStep value stack i) (loc_lines location) st
  | None => st
  end.

(** The body of [for (const sample of profile.samples)]. *)
Definition aggregateSample (sampleTypeIndex : Z)
    (stats : OMap.t FunctionStats) (sample : Sample)
  : OMap.t FunctionStats :=
  let value := sampleValue sample sampleTypeIndex in
  if isZero value then stats
  else
    fst (fold_left (stackStep value (s_stack sample))
           (seq 0 (List.length (s_stack sample))) (stats, OSet.empty)).

(** The percentage pass over [stats.values()]. *)
Definition statsPercentages (totalNum : Q) (stats : OMap.t FunctionStats)
  : OMap.t FunctionStats :=
  map (fun kv =>
         (fst kv,
          withPercents (percentOf (fs_selfValue (snd kv)) totalNum)
            (percentOf (fs_cumulativeValue (snd kv)) totalNum) (snd kv)))
      stats.

Definition aggregateFunctionStats (profile : NormalizedProfile)
    (sampleTypeIndex : Z) (totalValue : Numeric) : OMap.t FunctionStats :=
  let stats :=
    fold_left (aggregateSample sampleTypeIndex) (samples profile) OMap.empty in
  statsPercentages (toNum totalValue) stats.

(** ** Call tree builder *)

Definition createEmptyNode (name : string) : CallTreeNode :=
  {| ct_key := name; ct_name := name; ct_filename := EmptyString; ct_line := 0;
     ct_selfValue := zero; ct_cumulativeValue := zero;
     ct_selfPercent := 0; ct_cumulativePercent := 0;
     ct_children := OMap.empty |}.

(** The child object created on a miss of [currentNode.children.get(key)]. *)
Definition newChild (key : string) (lineInfo : LineInfo) : CallTreeNode :=
  let fn := li_function lineInfo in
  {| ct_key := key; ct_name := fi_name fn; ct_filename := fi_filename fn;
     ct_line := orElse (li_line lineInfo) (fi_startLine fn);
     ct_selfValue := zero; ct_cumulativeValue := zero;
     ct_selfPercent := 0; ct_cumulativePercent := 0;
     ct_children := OMap.empty |}.

Definition withNodeSelf (v : Numeric) (n : CallTreeNode) : CallTreeNode :=
  {| ct_key := ct_key n; ct_name := ct_name n; ct_filename := ct_filename n;
     ct_line := ct_line n; ct_selfValue := v;
     ct_cumulativeValue := ct_cumulativeValue n;
     ct_selfPercent := ct_selfPercent n;
     ct_cumulativePercent := ct_cumulativePercent n;
     ct_children := ct_children n |}.

Definition withNodeCumulative (v : Numeric) (n : CallTreeNode)
  : CallTreeNode :=
  {| ct_key := ct_key n; ct_name := ct_name n; ct_filename := ct_filename n;
     ct_line := ct_line n; ct_selfValue := ct_selfValue n;
     ct_cumulativeValue := v;
     ct_selfPercent := ct_selfPercent n;
     ct_cumulativePercent := ct_cumulativePercent n;
     ct_children := ct_children n |}.

Definition withNodeChildren (c : OMap.t CallTreeNode) (n : CallTreeNode)
  : CallTreeNode :=
  {| ct_key := ct_key n; ct_name := ct_name n; ct_filename := ct_filename n;
     ct_line := ct_line n; ct_selfValue := ct_selfValue n;
     ct_cumulativeValue := ct_cumulativeValue n;
     ct_selfPercent := ct_selfPercent n;
     ct_cumulativePercent := ct_cumulativePercent n;
     ct_children := c |}.

(** The frames of a stack in the order of the walk: locations from the
    last index down to 0, the lines of each location in order. *)
Definition framesRootToLeaf (stack : list Location) : list LineInfo :=
  flat_map loc_lines (rev stack).

(** The walk of one sample below [currentNode].  The source moves a cursor
    and mutates the node under it; here the updated subtree is rebuilt on
    the way back.  With no frame left the cursor is the leaf, which gets
    the self value. *)
Fixpoint descend (frames : list LineInfo) (value : Numeric)
    (currentNode : CallTreeNode) : CallTreeNode :=
  match frames with
  | [] => withNodeSelf (addNumeric (ct_selfValue currentNode) value) currentNode
  | lineInfo :: rest =>
      let key := identityKey (li_function lineInfo) (li_line lineInfo) in
      let child :=
        match OMap.get key (ct_children currentNode) with
        | Some child => child
        | None => newChild key lineInfo
        end in
      let child :=
        withNodeCumulative (addNumeric (ct_cumulativeValue child) value)
          child in
      withNodeChildren
        (OMap.set key (descend rest value child) (ct_children currentNode))
        currentNode
  end.

Fixpoint calculateTreePercentages (node : CallTreeNode) (totalValue : Numeric)
  : CallTreeNode :=
  let totalNum := toNum totalValue in
  {| ct_key := ct_key node; ct_name := ct_name node;
     ct_filename := ct_filename node; ct_line := ct_line node;
     ct_selfValue := ct_selfValue node;
     ct_cumulativeValue := ct_cumulativeValue node;
     ct_selfPercent := percentOf (ct_selfValue node) totalNum;
     ct_cumulativePercent := percentOf (ct_cumulativeValue node) totalNum;
     ct_children :=
       map (fun kv => (fst kv, calculateTreePercentages (snd kv) totalValue))
         (ct_children node) |}.

(** The body of [for (const sample of profile.samples)] of the builder. *)
Definition treeSample (sampleTypeIndex : Z) (root : CallTreeNode)
    (sample : Sample) : CallTreeNode :=
  let value := sampleValue sample sampleTypeIndex in
  if isZero value then root
  else descend (framesRootToLeaf (s_stack sample)) value root.

(** The root before the samples are merged: [createEmptyNode('(root)')]
    with [cumulativeValue = totalValue] and [cumulativePercent = 100]. *)
Definition seededRoot (totalValue : Numeric) : CallTreeNode :=
  {| ct_key := "(root)"; ct_name := "(root)"; ct_filename := EmptyString;
     ct_line := 0; ct_selfValue := zero; ct_cumulativeValue := totalValue;
     ct_selfPercent := 0; ct_cumulativePercent := 100;
     ct_children := OMap.empty |}.

(** The tree after the sample loop, before the percentage pass. *)
Definition mergedTree (profile : NormalizedProfile) (sampleTypeIndex : Z)
    (totalValue : Numeric) : CallTreeNode :=
  fold_left (treeSample sampleTypeIndex) (samples profile)
    (seededRoot totalValue).

Definition buildCallTree (profile : NormalizedProfile) (sampleTypeIndex : Z)
    (totalValue : Numeric) : CallTreeNode :=
  calculateTreePercentages (mergedTree profile sampleTypeIndex totalValue)
    totalValue.

(** ** Hotspot ranker *)

Definition toHotspot (stats : FunctionStats) : Hotspot :=
  {| h_key := fs_key stats; h_name := fs_name stats;
     h_filename := fs_filename stats; h_line := fs_line stats;
     h_selfValue := fs_selfValue stats;
     h_cumulativeValue := fs_cumulativeValue stats;
     h_selfPercent := fs_selfPercent stats;
     h_cumulativePercent := fs_cumulativePercent stats;
     h_sampleCount := fs_sampleCount stats;
     h_type := "self";
     h_callers := fs_callers stats;
     h_callees := fs_callees stats |}.

(** [stats.selfPercent >= threshold * 100]. *)
Definition isHot (threshold : Q) (stats : FunctionStats) : bool :=
  Qle_bool (numMul threshold 100) (fs_selfPercent stats).

Definition identifyHotspots (functionStats : OMap.t FunctionStats)
    (threshold : Q) : list Hotspot :=
  let hotspots :=
    map toHotspot (filter (isHot threshold) (OMap.values functionStats)) in
  sortBy (fun a b => numSub (h_selfPercent b) (h_selfPercent a)) hotspots.

(** ** Critical path extractor *)

Definition pathNodeOf (node : CallTreeNode) : PathNode :=
  {| pn_name := ct_name node;
     pn_selfPercent := ct_selfPercent node;
     pn_cumulativePercent := ct_cumulativePercent node |}.

(** [(a, b) => toNum(b.cumulativeValue) - toNum(a.cumulativeValue)]. *)
Definition byCumulativeValue (a b : CallTreeNode) : Q :=
  numSub (toNum (ct_cumulativeValue b)) (toNum (ct_cumulativeValue a)).

(** A traversal waiting for its arguments: [traverse(child, path, percent)]
    applied to the shared [paths] array. *)
Definition Visit : Type :=
  list PathNode -> Q -> list CriticalPath -> list CriticalPath.

(** The loop over [sortedChildren] from index 1: it ends as soon as
    [paths.length < maxPaths * 2] fails. *)
Fixpoint otherChildren (maxPaths : nat) (newPath : list PathNode)
    (rest : list (CallTreeNode * Visit)) (paths : list CriticalPath)
  : list CriticalPath :=
  match rest with
  | [] => paths
  | (child, visit) :: rest' =>
      if Nat.ltb (List.length paths) (maxPaths * 2)
      then
        otherChildren maxPaths newPath rest'
          (if Qle_bool 5 (ct_cumulativePercent child)
           then visit newPath (ct_cumulativePercent child) paths
           else paths)
      else paths
  end.

(** [traverse].  The children are sorted together with the traversal of
    their subtree, which keeps the recursion on the children of [node];
    [paths] is the array of the enclosing function, threaded through. *)
Fixpoint traverse (maxPaths : nat) (node : CallTreeNode)
    (currentPath : list PathNode) (cumulativePercent : Q)
    (paths : list CriticalPath) {struct node} : list CriticalPath :=
  let newPath := currentPath ++ [pathNodeOf node] in
  let sortedChildren :=
    sortBy (fun a b => byCumulativeValue (fst a) (fst b))
      (map (fun kv => (snd kv, traverse maxPaths (snd kv)))
         (ct_children node)) in
  match sortedChildren with
  | [] =>
      paths ++ [{| cp_path := newPath;
                   cp_cumulativePercent := cumulativePercent |}]
  | (hottestChild, visit) :: rest =>
      otherChildren maxPaths newPath rest
        (visit newPath cumulativePercent paths)
  end.

Definition extractCriticalPaths (callTree : CallTreeNode) (maxPaths : nat)
  : list CriticalPath :=
  let sortedRootChildren :=
    sortBy byCumulativeValue (OMap.values (ct_children callTree)) in
  let paths :=
    fold_left
      (fun paths child =>
         traverse maxPaths child [] (ct_cumulativePercent child) paths)
      (firstn maxPaths sortedRootChildren) [] in
  firstn maxPaths
    (sortBy (fun a b =>
               numSub (cp_cumulativePercent b) (cp_cumulativePercent a))
       paths).

(** ** Orchestrator *)

Record AnalyzeOptions : Type := mkOptions {
  sampleTypeIndex : option Z;
  hotspotThreshold : option Q
}.

(** [options = {}]. *)
Definition defaultOptions : AnalyzeOptions :=
  {| sampleTypeIndex := None; hotspotThreshold := None |}.

(** What a call of the analyzer can throw: the [throw] of its index check,
    [new Error(`Sample type index ${sampleTypeIndex} not found`)], and the
    [RangeError] of the engine when a recursion outgrows the call stack. *)
Inductive AnalyzeError : Type :=
| SampleTypeIndexNotFound (index : Z)
| MaximumCallStackSizeExceeded.

Definition errorMessage (e : AnalyzeError) : string :=
  match e with
  | SampleTypeIndexNotFound i =>
      ("Sample type index " ++ intToString i ++ " not found")%string
  | MaximumCallStackSizeExceeded => "Maximum call stack size exceeded"
  end.

Inductive Outcome (A : Type) : Type :=
| Returns (a : A)
| Throws (e : AnalyzeError).
Arguments Returns {A} a.
Arguments Throws {A} e.

(** The total of the selected column, accumulated from the number [0]. *)
Definition computeTotal (profile : NormalizedProfile) (index : Z) : Numeric :=
  fold_left (fun totalValue sample =>
               addNumeric totalValue (sampleValue sample index))
    (samples profile) zero.

Definition resolvedIndex (options : AnalyzeOptions) : Z :=
  match sampleTypeIndex options with Some i => i | None => 0 end.

Definition resolvedThreshold (options : AnalyzeOptions) : Q :=
  match hotspotThreshold options with
  | Some t => t
  | None => toDouble (1 # 100)
  end.

(** [analyzeProfile], on a call stack that holds the recursion of
    [calculateTreePercentages] and [traverse]; [OnStack.analyzeProfile]
    is the same call on a stack of a given size. *)
Definition analyzeProfile (profile : NormalizedProfile)
    (options : AnalyzeOptions) : Outcome AnalysisResult :=
  let index := resolvedIndex options in
  let threshold := resolvedThreshold options in
  match jsIndex (sampleTypes profile) index with
  | None => Throws (SampleTypeIndexNotFound index)
  | Some sampleType =>
      let totalValue := computeTotal profile index in
      if isZero totalValue then
        Returns
          {| r_sampleType := sampleType;
             r_totalValue := zero;
             r_totalSamples := List.length (samples profile);
             r_functionStats := OMap.empty;
             r_callTree := createEmptyNode "(root)";
             r_hotspots := [];
             r_criticalPaths := [];
             r_durationNanos := durationNanos profile;
             r_period := period profile;
             r_periodType := periodType profile |}
      else
        let functionStats :=
          aggregateFunctionStats profile index totalValue in
        let callTree := buildCallTree profile index totalValue in
        let hotspots := identifyHotspots functionStats threshold in
        let criticalPaths := extractCriticalPaths callTree 5 in
        Returns
          {| r_sampleType := sampleType;
             r_totalValue := totalValue;
             r_totalSamples := List.length (samples profile);
             r_functionStats := functionStats;
             r_callTree := callTree;
             r_hotspots := hotspots;
             r_criticalPaths := criticalPaths;
             r_durationNanos := durationNanos profile;
             r_period := period profile;
             r_periodType := periodType profile |}
  end.

(** ** The call stack

    [calculateTreePercentages] calls itself for every child and [traverse]
    for the hottest child and the significant siblings; no depth is
    checked, so a call that finds no room on the call stack of the engine
    throws [RangeError: Maximum call stack size exceeded], and nothing on
    the way up to the caller of [analyzeProfile] catches it.

    [frames] is the number of nested activations that still fit where
    [buildCallTree] and [extractCriticalPaths] call the recursive function
    for the first time (both are called by [analyzeProfile] itself); an
    activation of either function counts as one frame. *)

Module OnStack.

Definition bind {A B : Type} (o : Outcome A) (k : A -> Outcome B)
  : Outcome B :=
  match o with
  | Returns a => k a
  | Throws e => Throws e
  end.

Notation "x <- o ;; k" := (bind o (fun x => k))
  (at level 61, o at next level, right associativity).

(** [for (const child of node.children.values()) f(child)], in map order;
    the first call that throws ends the loop. *)
Fixpoint eachChild (f : CallTreeNode -> Outcome CallTreeNode)
    (children : OMap.t CallTreeNode) : Outcome (OMap.t CallTreeNode) :=
  match children with
  | [] => Returns []
  | (key, child) :: rest =>
      child' <- f child ;;
      rest' <- eachChild f rest ;;
      Returns ((key, child') :: rest')
  end.

Fixpoint calculateTreePercentages (frames : nat) (node : CallTreeNode)
    (totalValue : Numeric) : Outcome CallTreeNode :=
  match frames with
  | O => Throws MaximumCallStackSizeExceeded
  | S frames' =>
      let totalNum := toNum totalValue in
      children <-
        eachChild (fun child => calculateTreePercentages frames' child totalValue)
          (ct_children node) ;;
      Returns
        {| ct_key := ct_key node; ct_name := ct_name node;
           ct_filename := ct_filename node; ct_line := ct_line node;
           ct_selfValue := ct_selfValue node;
           ct_cumulativeValue := ct_cumulativeValue node;
           ct_selfPercent := percentOf (ct_selfValue node) totalNum;
           ct_cumulativePercent :=
             percentOf (ct_cumulativeValue node) totalNum;
           ct_children := children |}
  end.

Definition buildCallTree (frames : nat) (profile : NormalizedProfile)
    (sampleTypeIndex : Z) (totalValue : Numeric) : Outcome CallTreeNode :=
  calculateTreePercentages frames
    (mergedTree profile sampleTypeIndex totalValue) totalValue.

(** The loop over [sortedChildren] from index 1. *)
Fixpoint otherChildren
    (visit : CallTreeNode -> list PathNode -> Q -> list CriticalPath ->
             Outcome (list CriticalPath))
    (maxPaths : nat) (newPath : list PathNode) (rest : list CallTreeNode)
    (paths : list CriticalPath) : Outcome (list CriticalPath) :=
  match rest with
  | [] => Returns paths
  | child :: rest' =>
      if Nat.ltb (List.length paths) (maxPaths * 2)
      then
        paths' <-
          (if Qle_bool 5 (ct_cumulativePercent child)
           then visit child newPath (ct_cumulativePercent child) paths
           else Returns paths) ;;
        otherChildren visit maxPaths newPath rest' paths'
      else Returns paths
  end.

Fixpoint traverse (frames : nat) (maxPaths : nat) (node : CallTreeNode)
    (currentPath : list PathNode) (cumulativePercent : Q)
    (paths : list CriticalPath) : Outcome (list CriticalPath) :=
  match frames with
  | O => Throws MaximumCallStackSizeExceeded
  | S frames' =>
      let newPath := currentPath ++ [pathNodeOf node] in
      match sortBy byCumulativeValue (OMap.values (ct_children node)) with
      | [] =>
          Returns
            (paths ++ [{| cp_path := newPath;
                          cp_cumulativePercent := cumulativePercent |}])
      | hottestChild :: rest =>
          paths' <-
            traverse frames' maxPaths hottestChild newPath cumulativePercent
              paths ;;
          otherChildren (traverse frames' maxPaths) maxPaths newPath rest
            paths'
      end
  end.

(** [for (const child of sortedRootChildren.slice(0, maxPaths))]. *)
Fixpoint eachStart (frames : nat) (maxPaths : nat)
    (starts : list CallTreeNode) (paths : list CriticalPath)
  : Outcome (list CriticalPath) :=
  match starts with
  | [] => Returns paths
  | child :: starts' =>
      paths' <-
        traverse frames maxPaths child [] (ct_cumulativePercent child) paths ;;
      eachStart frames maxPaths starts' paths'
  end.

Definition extractCriticalPaths (frames : nat) (callTree : CallTreeNode)
    (maxPaths : nat) : Outcome (list CriticalPath) :=
  let sortedRootChildren :=
    sortBy byCumulativeValue (OMap.values (ct_children callTree)) in
  paths <- eachStart frames maxPaths (firstn maxPaths sortedRootChildren) [] ;;
  Returns
    (firstn maxPaths
       (sortBy (fun a b =>
                  numSub (cp_cumulativePercent b) (cp_cumulativePercent a))
          paths)).

Definition analyzeProfile (frames : nat) (profile : NormalizedProfile)
    (options : AnalyzeOptions) : Outcome AnalysisResult :=
  let index := resolvedIndex options in
  let threshold := resolvedThreshold options in
  match jsIndex (sampleTypes profile) index with
  | None => Throws (SampleTypeIndexNotFound index)
  | Some sampleType =>
      let totalValue := computeTotal profile index in
      if isZero totalValue then
        Returns
          {| r_sampleType := sampleType;
             r_totalValue := zero;
             r_totalSamples := List.length (samples profile);
             r_functionStats := OMap.empty;
             r_callTree := createEmptyNode "(root)";
             r_hotspots := [];
             r_criticalPaths := [];
             r_durationNanos := durationNanos profile;
             r_period := period profile;
             r_periodType := periodType profile |}
      else
        let functionStats :=
          aggregateFunctionStats profile index totalValue in
        callTree <- buildCallTree frames profile index totalValue ;;
        let hotspots := identifyHotspots functionStats threshold in
        criticalPaths <- extractCriticalPaths frames callTree 5 ;;
        Returns
          {| r_sampleType := sampleType;
             r_totalValue := totalValue;
             r_totalSamples := List.length (samples profile);
             r_functionStats := functionStats;
             r_callTree := callTree;
             r_hotspots := hotspots;
             r_criticalPaths := criticalPaths;
             r_durationNanos := durationNanos profile;
             r_period := period profile;
             r_periodType := periodType profile |}
  end.

End OnStack.

(** ** Value formatting *)

(** [String.prototype.toLowerCase], on the ASCII letters: the unit is only
    compared with ASCII literals, none of which is the lower case of a
    non-ASCII character. *)
Definition lowerAscii (c : ascii) : ascii :=
  let n := nat_of_ascii c in
  if andb (Nat.leb 65 n) (Nat.leb n 90) then ascii_of_nat (n + 32) else c.

Fixpoint toLowerCase (s : string) : string :=
  match s with
  | EmptyString => EmptyString
  | String c s' => String (lowerAscii c) (toLowerCase s')
  end.

(** [10^e] for an integer exponent. *)
Definition pow10 (e : Z) : Q := Qpower 10 e.

(** The number of decimal digits of a positive integer. *)
Definition digitCount (z : Z) : Z := Z.of_nat (String.length (intToString z)).

(** The place of the decimal point of a positive number: the [n] with
    [10^(n-1) <= x < 10^n]. *)
Definition decimalPoint (x : Q) : Z :=
  if Qle_bool 1 x then digitCount (Qfloor x)
  else 1 - digitCount (Qceiling (/ x)%Q - 1).

(** The integer [s] for which [s * 10^(n-k)] is a decimal of [k] digits
    that reads back as the double [x]: the nearer of the two neighbours
    of [x / 10^(n-k)] when both do, the even one on a tie. *)
Definition digitsAt (x : Q) (n k : Z) : option Z :=
  let scale := pow10 (n - k) in
  let t := (x / scale)%Q in
  let lo := Qfloor t in
  let hi := lo + 1 in
  let okLo := Qeq_bool (toDouble (inject_Z lo * scale)%Q) x in
  let okHi := Qeq_bool (toDouble (inject_Z hi * scale)%Q) x in
  if andb okLo okHi then
    match Qcompare (t - inject_Z lo)%Q (inject_Z hi - t)%Q with
    | Lt => Some lo
    | Gt => Some hi
    | Eq => Some (if Z.even lo then lo else hi)
    end
  else if okLo then Some lo
  else if okHi then Some hi
  else None.

(** The least [k], from the given one on, with such an [s]; seventeen
    digits tell any two doubles apart. *)
Fixpoint shortestDigits (fuel : nat) (x : Q) (n k : Z) : Z * Z :=
  match fuel with
  | O => (Qfloor (x / pow10 (n - k))%Q, k)
  | S fuel' =>
      match digitsAt x n k with
      | Some s => (s, k)
      | None => shortestDigits fuel' x n (k + 1)
      end
  end.

Fixpoint zeros (n : nat) : string :=
  match n with
  | O => EmptyString
  | S n' => String "0" (zeros n')
  end.

(** [Number::toString] of a positive double: with the shortest digits
    [s], their number [k] and the decimal point after [n] of them, plain
    digits for [k <= n <= 21], a point inside for [0 < n <= 21], leading
    zeros for [-6 < n <= 0], and the exponent form otherwise. *)
Definition positiveToString (x : Q) : string :=
  let n := decimalPoint x in
  let (s, k) := shortestDigits 17 x n 1 in
  let n := if s =? 10 ^ k then n + 1 else n in
  let s := if s =? 10 ^ k then 10 ^ (k - 1) else s in
  let digits := intToString s in
  if andb (k <=? n) (n <=? 21) then
    (digits ++ zeros (Z.to_nat (n - k)))%string
  else if andb (0 <? n) (n <=? 21) then
    (substring 0 (Z.to_nat n) digits ++ "." ++
     substring (Z.to_nat n) (Z.to_nat (k - n)) digits)%string
  else if andb (-6 <? n) (n <=? 0) then
    ("0." ++ zeros (Z.to_nat (- n)) ++ digits)%string
  else
    let e := n - 1 in
    let exponent :=
      ((if (e <? 0)%Z then "e-" else "e+") ++ intToString (Z.abs e))%string in
    if k =? 1 then (digits ++ exponent)%string
    else
      (substring 0 1 digits ++ "." ++
       substring 1 (Z.to_nat (k - 1)) digits ++ exponent)%string.

(** [`${num}`], [Number::toString] in radix 10, of a finite double; both
    zeros print as ["0"]. *)
Definition numberToString (num : Q) : string :=
  match Qcompare num 0 with
  | Eq => "0"
  | Lt => ("-" ++ positiveToString (- num)%Q)%string
  | Gt => positiveToString num
  end.

(** Two digits, with a leading zero. *)
Definition pad2 (n : Z) : string :=
  if n <? 10 then ("0" ++ intToString n)%string else intToString n.

(** [Number.prototype.toFixed(2)]: the sign, then for a value from 10^21
    on its [toString], and below it the integer [n] for which [n / 100]
    is nearest to the value, the larger one on a tie, written with two
    decimals. *)
Definition toFixed2 (x : Q) : string :=
  let negative := negb (Qle_bool 0 x) in
  let x := if negative then Qopp x else x in
  if Qle_bool (inject_Z (10 ^ 21)) x then
    ((if negative then "-" else EmptyString) ++ numberToString x)%string
  else
    let n := Qfloor (x * 100 + (1 # 2))%Q in
    ((if negative then "-" else EmptyString) ++
     intToString (n / 100)%Z ++ "." ++ pad2 (n mod 100)%Z)%string.

(** The micro sign of ["µs"] (U+00B5), as its two UTF-8 bytes. *)
Definition microSign : string :=
  String (ascii_of_nat 194) (String (ascii_of_nat 181) EmptyString).

(** [num >= k] for the literals [1e9], [1e6] and [1e3]. *)
Definition geq (num : Q) (k : Z) : bool := Qle_bool (inject_Z k) num.

(** [(num / k).toFixed(2)]. *)
Definition scaled (num : Q) (k : Z) : string :=
  toFixed2 (numDiv num (inject_Z k)).

Definition formatValue (value : Numeric) (unit : string) : string :=
  let num := toNum value in
  let lowerUnit := toLowerCase unit in
  if orb (String.eqb lowerUnit "nanoseconds") (String.eqb lowerUnit "ns")
  then
    if geq num (10 ^ 9) then (scaled num (10 ^ 9) ++ "s")%string
    else if geq num (10 ^ 6) then (scaled num (10 ^ 6) ++ "ms")%string
    else if geq num (10 ^ 3)
         then (scaled num (10 ^ 3) ++ microSign ++ "s")%string
    else (numberToString num ++ "ns")%string
  else if String.eqb lowerUnit "bytes" then
    if geq num (10 ^ 9) then (scaled num (10 ^ 9) ++ " GB")%string
    else if geq num (10 ^ 6) then (scaled num (10 ^ 6) ++ " MB")%string
    else if geq num (10 ^ 3) then (scaled num (10 ^ 3) ++ " KB")%string
    else (numberToString num ++ " B")%string
  else if orb (String.eqb lowerUnit "count") (String.eqb lowerUnit "samples")
  then
    if geq num (10 ^ 6) then (scaled num (10 ^ 6) ++ "M")%string
    else if geq num (10 ^ 3) then (scaled num (10 ^ 3) ++ "K")%string
    else numberToString num
  else (numberToString num ++ " " ++ unit)%string.


(** ** Sample profiles

    Small inputs shared by the examples: functions named by one letter in
    [app.js], one frame per location, one measurement column. *)

Module Fixtures.

Definition fnOf (name : string) : FunctionInfo :=
  {| fi_id := JBigInt 1; fi_name := name; fi_systemName := name;
     fi_filename := "app.js"; fi_startLine := 1 |}.

Definition frame (name : string) : LineInfo :=
  {| li_functionId := JBigInt 1; li_line := 7; li_function := fnOf name |}.

Definition locOf (name : string) : Location :=
  {| loc_id := JBigInt 1; loc_address := JBigInt 0;
     loc_lines := [frame name] |}.

(** A location with an inlined call chain: several frames at one address. *)
Definition inlinedLoc (names : list string) : Location :=
  {| loc_id := JBigInt 1; loc_address := JBigInt 0;
     loc_lines := map frame names |}.

Definition sampleOf (stack : list Location) (value : Z) : Sample :=
  {| s_stack := stack; s_values := [JBigInt value] |}.

Definition profileOf (ss : list Sample) : NormalizedProfile :=
  {| sampleTypes := [{| st_type := "samples"; st_unit := "count" |}];
     samples := ss;
     durationNanos := JBigInt 0; period := JBigInt 1; periodType := None |}.

(** A tree node given directly, for the extractor. *)
Definition nodeOf (name : string) (cumulativeValue : Z)
    (cumulativePercent : Q) (children : list CallTreeNode) : CallTreeNode :=
  {| ct_key := name; ct_name := name; ct_filename := EmptyString; ct_line := 0;
     ct_selfValue := zero;
     ct_cumulativeValue := JNumber (inject_Z cumulativeValue);
     ct_selfPercent := 0; ct_cumulativePercent := cumulativePercent;
     ct_children := map (fun c => (ct_key c, c)) children |}.

End Fixtures.

(** ** Profile kinds and the primary column

    [ProfileType] of [types.ts], [detectProfileType] of [parser.ts] and
    [getPrimarySampleTypeIndex] of [analyzer.ts].  The names are compared
    after [toLowerCase] with ASCII literals; no character outside ASCII has
    a lower case that completes one of them, so [toLowerCase] on the ASCII
    letters decides the same comparisons. *)

Inductive ProfileType : Type :=
| PCpu
| PHeap
| PMutex
| PGoroutine
| PUnknown.

(** [for (let i = 0; i < types.length; i++) if (test(types[i])) return i],
    from the index [i] on; [None] when the loop ends without a return. *)
Fixpoint firstIndexFrom {A : Type} (test : A -> bool) (i : Z) (l : list A)
  : option Z :=
  match l with
  | [] => None
  | a :: l' => if test a then Some i else firstIndexFrom test (i + 1) l'
  end.

(** [types[i].type.toLowerCase() === name]. *)
Definition typeIs (name : string) (st : SampleType) : bool :=
  String.eqb (toLowerCase (st_type st)) name.

Definition getPrimarySampleTypeIndex (profile : NormalizedProfile)
    (profileType : ProfileType) : Z :=
  let types := sampleTypes profile in
  match profileType with
  | PCpu =>
      match firstIndexFrom
              (fun st => orb (typeIs "samples" st) (typeIs "cpu" st)) 0 types
      with
      | Some i => i
      | None => 0
      end
  | PHeap =>
      match firstIndexFrom (typeIs "inuse_space") 0 types with
      | Some i => i
      | None =>
          match firstIndexFrom (typeIs "alloc_space") 0 types with
          | Some i => i
          | None => 0
          end
      end
  | _ => 0
  end.

(** [Array.prototype.includes] on strings. *)
Definition includesString (l : list string) (s : string) : bool :=
  existsb (String.eqb s) l.

(** [String.prototype.includes]: [needle] occurs in [hay]. *)
Fixpoint includes (hay needle : string) : bool :=
  orb (String.prefix needle hay)
      (match hay with
       | EmptyString => false
       | String _ hay' => includes hay' needle
       end).

Definition detectProfileType (profile : NormalizedProfile) : ProfileType :=
  let types := map (fun st => toLowerCase (st_type st)) (sampleTypes profile) in
  let units := map (fun st => toLowerCase (st_unit st)) (sampleTypes profile) in
  if orb (includesString types "cpu")
       (orb (includesString types "samples")
          (orb (includesString types "sample") (includesString types "wall")))
  then PCpu
  else if orb (includesString types "alloc_objects")
            (orb (includesString types "alloc_space")
               (orb (includesString types "inuse_objects")
                  (orb (includesString types "inuse_space")
                     (orb (includesString types "objects")
                        (includesString types "space")))))
  then PHeap
  else if orb (includesString units "nanoseconds")
            (includesString units "microseconds")
  then PCpu
  else if andb (includesString units "bytes")
            (existsb (fun t => includes t "object") types)
  then PHeap
  else if orb (includesString types "contentions")
            (includesString types "delay")
  then PMutex
  else if orb (includesString types "goroutines")
            (includesString types "count")
  then PGoroutine
  else PUnknown.


(** ** The summary formatter ([formatter/summary.ts])

    The Markdown version of the file: [escapeMarkdown] and
    [formatCriticalPath]. *)

(** [str.replace(/c/g, '\\c')] for a character [c]: a backslash before
    every occurrence. *)
Fixpoint escapeChar (c : ascii) (str : string) : string :=
  match str with
  | EmptyString => EmptyString
  | String a str' =>
      if Ascii.eqb a c then String "\" (String a (escapeChar c str'))
      else String a (escapeChar c str')
  end.

(** [str.replace(/\|/g, '\\|').replace(/`/g, '\\`')]. *)
Definition escapeMarkdown (str : string) : string :=
  escapeChar "`" (escapeChar "|" str).

(** [Number.prototype.toFixed(1)]: as [toFixed2], with one decimal. *)
Definition toFixed1 (x : Q) : string :=
  let negative := negb (Qle_bool 0 x) in
  let x := if negative then Qopp x else x in
  if Qle_bool (inject_Z (10 ^ 21)) x then
    ((if negative then "-" else EmptyString) ++ numberToString x)%string
  else
    let n := Qfloor (x * 10 + (1 # 2))%Q in
    ((if negative then "-" else EmptyString) ++
     intToString (n / 10)%Z ++ "." ++ intToString (n mod 10)%Z)%string.

(** The arrow of [' → '] (U+2192), as its three UTF-8 bytes, between two
    spaces. *)
Definition arrow : string :=
  String " "
    (String (ascii_of_nat 226)
       (String (ascii_of_nat 134)
          (String (ascii_of_nat 146) (String " " EmptyString)))).

(** [Array.prototype.join]. *)
Fixpoint join (separator : string) (l : list string) : string :=
  match l with
  | [] => EmptyString
  | [s] => s
  | s :: l' => (s ++ separator ++ join separator l')%string
  end.

(** [formatCriticalPath]: the index, the percentage with one decimal, and
    the names of [path.path.slice(1)], each between backticks. *)
Definition formatCriticalPath (index : Z) (path : CriticalPath) : string :=
  let pathStr :=
    join arrow
      (map (fun node => ("`" ++ pn_name node ++ "`")%string)
         (skipn 1 (cp_path path))) in
  (numberToString (inject_Z index) ++ ". **[" ++
   toFixed1 (cp_cumulativePercent path) ++ "%]** " ++ pathStr)%string.


(** * Vocabulary of the properties *)

(** ** Results and trees *)


(** [node.children.get(key)]. *)
Definition childAt (key : string) (node : CallTreeNode)
  : option CallTreeNode :=
  OMap.get key (ct_children node).

(** The names of the children of a node, in map order. *)
Definition childNames (node : CallTreeNode) : list string :=
  map ct_name (OMap.values (ct_children node)).

(** ** Units *)

(** The unit is nanoseconds, in any casing: ["nanoseconds"] or ["ns"]. *)
Definition nanosecondUnit (unit : string) : bool :=
  orb (String.eqb (toLowerCase unit) "nanoseconds")
      (String.eqb (toLowerCase unit) "ns").

(** The units of time of the repository: [detectProfileType] of
    [parser.ts] takes a profile for a CPU profile on
    [units.includes('nanoseconds') || units.includes('microseconds')]. *)
Definition isTimeUnit (unit : string) : bool :=
  orb (String.eqb (toLowerCase unit) "nanoseconds")
      (String.eqb (toLowerCase unit) "microseconds").

(** The value is one the source can hold: a number that is a finite
    double, or a bigint whose conversion to a number is finite. *)
Definition finiteValue (value : Numeric) : bool :=
  match value with
  | JNumber q => andb (Qeq_bool (toDouble q) q) (isFinite q)
  | JBigInt z => isFinite (toDouble (inject_Z z))
  end.

Definition byteUnit (unit : string) : bool :=
  String.eqb (toLowerCase unit) "bytes".

Definition countUnit (unit : string) : bool :=
  orb (String.eqb (toLowerCase unit) "count")
      (String.eqb (toLowerCase unit) "samples").

(** ** Rows of the statistics map *)

(** Every row sits under its own key. *)
Definition WellKeyed (stats : OMap.t FunctionStats) : Prop :=
  forall k r, OMap.get k stats = Some r -> fs_key r = k.

(** The identity key of a frame. *)
Definition keyOf (lineInfo : LineInfo) : string :=
  identityKey (li_function lineInfo) (li_line lineInfo).

(** The row a frame works on: the one in the map, or a fresh one. *)
Definition rowFor (lineInfo : LineInfo) (stats : OMap.t FunctionStats)
  : FunctionStats :=
  match OMap.get (keyOf lineInfo) stats with
  | Some existing => existing
  | None =>
      newStats (keyOf lineInfo) (li_function lineInfo) (li_line lineInfo)
  end.

Definition locKeys (location : Location) : list string :=
  map keyOf (loc_lines location).

(** The identity keys of the frames of a sample, in stack order. *)
Definition sampleKeys (sample : Sample) : list string :=
  flat_map locKeys (s_stack sample).

(** [sampleCount] and [cumulativeValue] of the row of a key, those of a
    fresh row when the map has none. *)
Definition countAt (k : string) (stats : OMap.t FunctionStats) : Z :=
  match OMap.get k stats with
  | Some row => fs_sampleCount row
  | None => 0
  end.

Definition cumulativeAt (k : string) (stats : OMap.t FunctionStats)
  : Numeric :=
  match OMap.get k stats with
  | Some row => fs_cumulativeValue row
  | None => zero
  end.

(** The state of the scan of a sample after the frames [done]: the keys
    seen are those of [done]; their rows were credited once; every other
    row is as before the sample. *)
Definition CreditedOnce (stats0 : OMap.t FunctionStats) (value : Numeric)
    (done : list string) (st : AggState) : Prop :=
  WellKeyed (fst st) /\
  (forall k, OSet.has k (snd st) = true <-> In k done) /\
  (forall k, In k done ->
     exists row, OMap.get k (fst st) = Some row /\
       fs_sampleCount row = countAt k stats0 + 1 /\
       fs_cumulativeValue row = addNumeric (cumulativeAt k stats0) value) /\
  (forall k, ~ In k done -> OMap.get k (fst st) = OMap.get k stats0).

(** Whether a sample credits the row of [k]: its value is not zero and
    some frame of its stack has the key. *)
Definition creditedBy (index : Z) (k : string) (sample : Sample) : bool :=
  andb (negb (isZero (sampleValue sample index)))
       (existsb (String.eqb k) (sampleKeys sample)).

(** ** Doubles and descending order *)

(** The doubles are multiples of 2^-1074. *)
Definition onDoubleGrid (q : Q) : Prop :=
  exists k : Z, q == inject_Z k * pow2 (-1074).

(** [(a, b) => key(b) - key(a)], the comparator of a descending sort. *)
Definition descending {A : Type} (key : A -> Q) (a b : A) : Q :=
  numSub (key b) (key a).

(** [a] may stand before [b] in descending order of the key. *)
Definition Descends {A : Type} (key : A -> Q) (a b : A) : Prop :=
  (key b <= key a)%Q.

(** The key of the element is a double. *)
Definition DoubleKey {A : Type} (key : A -> Q) (a : A) : Prop :=
  onDoubleGrid (key a).

(** ** Anchors of the critical paths *)

(** The chain that follows the hottest child from a node to a leaf. *)
Inductive HottestChain : CallTreeNode -> list PathNode -> Prop :=
| chain_leaf (node : CallTreeNode) :
    ct_children node = [] -> HottestChain node [pathNodeOf node]
| chain_step (node hottestChild : CallTreeNode) (rest : list CallTreeNode)
      (chain : list PathNode) :
    sortBy byCumulativeValue (OMap.values (ct_children node)) =
      hottestChild :: rest ->
    HottestChain hottestChild chain ->
    HottestChain node (pathNodeOf node :: chain).

(** A recorded path of the traversal of [node] entered with the prefix
    [path] and the anchor [anchor]: it goes on from [path] through [node],
    and its percentage is the anchor, or the [cumulativePercent] (at least
    5) of a later node of the path, where it was anchored again. *)
Definition Anchored (path : list PathNode) (node : CallTreeNode)
    (anchor : Q) (cp : CriticalPath) : Prop :=
  exists more,
    cp_path cp = path ++ pathNodeOf node :: more /\
    (cp_cumulativePercent cp = anchor \/
     exists pn, In pn more /\
       cp_cumulativePercent cp = pn_cumulativePercent pn /\
       (5 <= pn_cumulativePercent pn)%Q).

(** What a traversal adds to [paths]: first the hottest chain, with the
    anchor it was given; then paths that are all anchored. *)
Definition RecordsAnchored (maxPaths : nat) (node : CallTreeNode) : Prop :=
  forall path anchor paths,
  exists chain rest,
    HottestChain node chain /\
    traverse maxPaths node path anchor paths =
      paths ++ {| cp_path := path ++ chain;
                  cp_cumulativePercent := anchor |} :: rest /\
    Forall (Anchored path node anchor)
      ({| cp_path := path ++ chain; cp_cumulativePercent := anchor |}
         :: rest).

(** ** The paths a traversal records *)

(** The rational is a double of the source: rounding leaves it unchanged
    and it is not beyond [maxDouble]. *)
Definition isDouble (q : Q) : bool :=
  andb (Qeq_bool (toDouble q) q) (isFinite q).

(** The number the children of a node are sorted by. *)
Definition cumulativeNum (node : CallTreeNode) : Q :=
  toNum (ct_cumulativeValue node).

(** Every [cumulativeValue] of the tree is a double (a bigint one after
    its conversion). *)
Fixpoint doubleValues (node : CallTreeNode) : bool :=
  andb (isDouble (cumulativeNum node))
    (forallb (fun kv => doubleValues (snd kv)) (ct_children node)).

(** [hot] is the hottest of [children]: the first one, in map order, of
    the largest cumulative value; [others] are the remaining children, in
    some order. *)
Definition HottestOf (children : list CallTreeNode) (hot : CallTreeNode)
    (others : list CallTreeNode) : Prop :=
  exists pre post,
    children = pre ++ hot :: post /\
    Forall (fun c => (cumulativeNum c < cumulativeNum hot)%Q) pre /\
    Forall (fun c => (cumulativeNum c <= cumulativeNum hot)%Q) post /\
    Permutation others (pre ++ post).

(** The paths of the traversal of [node] entered with the prefix [path]
    and the anchor [anchor], told without the traversal: a leaf ends the
    path under the anchor it was reached with; the hottest child goes on
    under the same anchor; another child of [cumulativePercent >= 5] goes
    on under its own [cumulativePercent]. *)
Inductive Records
  : CallTreeNode -> list PathNode -> Q -> CriticalPath -> Prop :=
| records_leaf (node : CallTreeNode) (path : list PathNode) (anchor : Q) :
    ct_children node = [] ->
    Records node path anchor
      {| cp_path := path ++ [pathNodeOf node];
         cp_cumulativePercent := anchor |}
| records_hottest (node hot : CallTreeNode) (others : list CallTreeNode)
      (path : list PathNode) (anchor : Q) (cp : CriticalPath) :
    HottestOf (OMap.values (ct_children node)) hot others ->
    Records hot (path ++ [pathNodeOf node]) anchor cp ->
    Records node path anchor cp
| records_sibling (node hot child : CallTreeNode)
      (others : list CallTreeNode) (path : list PathNode) (anchor : Q)
      (cp : CriticalPath) :
    HottestOf (OMap.values (ct_children node)) hot others ->
    In child others ->
    (5 <= ct_cumulativePercent child)%Q ->
    Records child (path ++ [pathNodeOf node]) (ct_cumulativePercent child)
      cp ->
    Records node path anchor cp.

(** What a traversal adds to [paths]: paths of [Records], at least one;
    and all of them when it ends below the cap of [2 * maxPaths]. *)
Definition RecordsAll (maxPaths : nat) (node : CallTreeNode) : Prop :=
  forall path anchor paths,
  exists news,
    traverse maxPaths node path anchor paths = paths ++ news /\
    news <> [] /\
    Forall (Records node path anchor) news /\
    ((List.length (paths ++ news) < maxPaths * 2)%nat ->
     forall cp, Records node path anchor cp -> In cp news).

(** ** Counts and their sums *)

(** The sum of [selfValue] over the rows of the map. *)
Definition sumSelf (stats : OMap.t FunctionStats) : Q :=
  fold_right (fun row acc => toNum (fs_selfValue row) + acc)%Q 0%Q
    (OMap.values stats).

(** The integer a value stands for. *)
Definition countOf (v : Numeric) : Z :=
  match v with
  | JBigInt z => z
  | JNumber q => Qfloor q
  end.

(** A value that is a count: a bigint, or a number that is an integer,
    and not negative. *)
Definition isCount (v : Numeric) : bool :=
  match v with
  | JBigInt z => 0 <=? z
  | JNumber q => andb (0 <=? Qfloor q) (Qeq_bool q (inject_Z (Qfloor q)))
  end.

(** The exact sum of the selected column. *)
Definition columnSum (index : Z) (l : list Sample) : Z :=
  fold_right (fun s acc => countOf (sampleValue s index) + acc) 0 l.

(** The leaf location of the sample has at most one frame (nothing was
    inlined at the leaf). *)
Definition singleLeafFrame (sample : Sample) : bool :=
  match s_stack sample with
  | [] => true
  | leaf :: _ => Nat.leb (List.length (loc_lines leaf)) 1
  end.

(** The integer held by the [selfValue] of a row. *)
Definition selfCount (row : FunctionStats) : Z := countOf (fs_selfValue row).

(** The [selfValue] of the row is a number holding a count. *)
Definition IntSelf (row : FunctionStats) : Prop :=
  0 <= selfCount row /\
  fs_selfValue row = JNumber (inject_Z (selfCount row)).

Definition AllIntSelf (stats : OMap.t FunctionStats) : Prop :=
  Forall (fun kv => IntSelf (snd kv)) stats.

(** The sum of the self values as an integer. *)
Definition sumSelfCount (stats : OMap.t FunctionStats) : Z :=
  fold_right (fun kv acc => selfCount (snd kv) + acc) 0 stats.

(** ** Finite totals *)

(** The loop that sums the selected column stays within the doubles: no
    value it reads (a bigint is converted on the way) and no running total
    it writes is beyond [maxDouble].  Then the total of the source is the
    number [computeTotal] gives; otherwise it is [Infinity], [-Infinity]
    or [NaN]. *)
Fixpoint finiteSums (index : Z) (totalValue : Numeric) (l : list Sample)
  : bool :=
  match l with
  | [] => true
  | sample :: l' =>
      let value := sampleValue sample index in
      let totalValue' := addNumeric totalValue value in
      andb (andb (isFinite (toNum value)) (isFinite (toNum totalValue')))
        (finiteSums index totalValue' l')
  end.

Definition finiteTotal (profile : NormalizedProfile) (index : Z) : bool :=
  finiteSums index zero (samples profile).

(** ** The depth of trees and stacks *)

(** The depth below a [children] map: the longest chain of nodes in it. *)
Definition depthOver (depth : CallTreeNode -> nat)
    (children : OMap.t CallTreeNode) : nat :=
  fold_right (fun kv d => Nat.max (depth (snd kv)) d) O children.

(** The number of nodes on the longest chain from the node to a leaf. *)
Fixpoint treeDepth (node : CallTreeNode) : nat :=
  S (fold_right (fun kv d => Nat.max (treeDepth (snd kv)) d) O
       (ct_children node)).

(** The frames a sample sends down the tree: one per line of each of its
    locations, none when its value is zero. *)
Definition framesOf (index : Z) (sample : Sample) : nat :=
  if isZero (sampleValue sample index) then O
  else List.length (framesRootToLeaf (s_stack sample)).

(** The longest stack among the samples that count. *)
Definition deepestStack (index : Z) (l : list Sample) : nat :=
  fold_right (fun sample d => Nat.max (framesOf index sample) d) O l.

(** ** Example inputs *)

Module StackExample.
Import Fixtures.



End StackExample.

Module TreeExample.
Import Fixtures.

(** Stacks are stored leaf first: here [X] is the leaf of both samples. *)
Definition leafShared : NormalizedProfile :=
  profileOf [sampleOf [locOf "X"; locOf "A"] 10;
             sampleOf [locOf "X"; locOf "B"] 10].

(** Here [X] is the outermost frame of both samples. *)
Definition rootShared : NormalizedProfile :=
  profileOf [sampleOf [locOf "A"; locOf "X"] 10;
             sampleOf [locOf "B"; locOf "X"] 10].

Definition treeOf (profile : NormalizedProfile) : CallTreeNode :=
  buildCallTree profile 0 (computeTotal profile 0).

End TreeExample.

Module RankExample.

Definition rowOf (name : string) (selfPercent : Q) : FunctionStats :=
  {| fs_key := name; fs_name := name; fs_filename := "app.js"; fs_line := 1;
     fs_selfValue := zero; fs_cumulativeValue := zero;
     fs_selfPercent := selfPercent; fs_cumulativePercent := 100;
     fs_sampleCount := 1; fs_callers := []; fs_callees := [] |}.

Definition rows : OMap.t FunctionStats :=
  [("A", rowOf "A" 25); ("B", rowOf "B" 75); ("C", rowOf "C" 0);
   ("D", rowOf "D" (1 # 2))].

End RankExample.

Module PathExample.
Import Fixtures.

(** A root with the children [P] (70%, a leaf) and [Q] (30%), the latter
    with one leaf child [L] (20%). *)
Definition tree : CallTreeNode :=
  nodeOf "(root)" 100 100
    [nodeOf "Q" 30 30 [nodeOf "L" 20 20 []]; nodeOf "P" 70 70 []].

Definition step (name : string) (percent : Q) : PathNode :=
  {| pn_name := name; pn_selfPercent := 0; pn_cumulativePercent := percent |}.

(** A root with the one child [R] (100%), which has the children [K]
    (40%) and [H] (60%), in this order in its map, both leaves. *)
Definition inner : CallTreeNode :=
  nodeOf "R" 100 100 [nodeOf "K" 40 40 []; nodeOf "H" 60 60 []].

Definition branching : CallTreeNode := nodeOf "(root)" 100 100 [inner].

End PathExample.

Module ConservationExample.
Import Fixtures.

(** Three samples, one frame per location; the last has an empty stack. *)
Definition plain : NormalizedProfile :=
  profileOf [sampleOf [locOf "A"; locOf "B"] 3;
             sampleOf [locOf "B"] 2;
             sampleOf [] 1].

(** One sample whose leaf location carries the inlined chain [A, B]. *)
Definition inlined : NormalizedProfile :=
  profileOf [sampleOf [inlinedLoc ["A"; "B"]] 10].

(** A negative value on an empty stack next to a positive one. *)
Definition negative : NormalizedProfile :=
  profileOf [sampleOf [] (-5); sampleOf [locOf "A"] 10].

(** Values whose running sum leaves the doubles: 2^53, then 1 and 1. *)
Definition rounded : NormalizedProfile :=
  profileOf [sampleOf [locOf "A"] (2 ^ 53);
             sampleOf [locOf "B"] 1;
             sampleOf [locOf "B"] 1].

End ConservationExample.

(** ** Sample types by name *)

(** The tests of [getPrimarySampleTypeIndex] and of the first rule of
    [detectProfileType]. *)
Definition isCpuColumn (st : SampleType) : bool :=
  orb (typeIs "samples" st) (typeIs "cpu" st).

Definition hasCpuName (st : SampleType) : bool :=
  orb (typeIs "cpu" st)
    (orb (typeIs "samples" st) (orb (typeIs "sample" st) (typeIs "wall" st))).

Definition hasTimeUnit (st : SampleType) : bool :=
  orb (String.eqb (toLowerCase (st_unit st)) "nanoseconds")
      (String.eqb (toLowerCase (st_unit st)) "microseconds").

(** The sample type with its strings in lower case. *)
Definition lowerSampleType (st : SampleType) : SampleType :=
  {| st_type := toLowerCase (st_type st);
     st_unit := toLowerCase (st_unit st) |}.

(** [i] is the first index of [l] that passes [test]. *)
Definition FirstAt {A : Type} (test : A -> bool) (l : list A) (i : Z)
  : Prop :=
  (exists a, jsIndex l i = Some a /\ test a = true) /\
  (forall j a, 0 <= j < i -> jsIndex l j = Some a -> test a = false).

Module SelectorExample.

Definition column (type unit : string) : SampleType :=
  {| st_type := type; st_unit := unit |}.

Definition withTypes (sts : list SampleType) : NormalizedProfile :=
  {| sampleTypes := sts; samples := [];
     durationNanos := JBigInt 0; period := JBigInt 0; periodType := None |}.

(** The columns of a Go heap profile. *)
Definition heapColumns : list SampleType :=
  [column "alloc_objects" "count"; column "alloc_space" "bytes";
   column "inuse_objects" "count"; column "Inuse_Space" "bytes"].

(** The columns of a Go mutex profile. *)
Definition mutexColumns : list SampleType :=
  [column "contentions" "count"; column "delay" "nanoseconds"].

End SelectorExample.

(** ** The rows of the statistics map and the frames of the samples *)

(** Some sample of the list credits the key. *)
Definition creditedByAny (index : Z) (k : string) (l : list Sample) : bool :=
  existsb (creditedBy index k) l.

(** ** Nodes of the call tree and their counts *)

(** The integers held by the two values of a node. *)
Definition cumulativeCount (node : CallTreeNode) : Z :=
  countOf (ct_cumulativeValue node).

Definition nodeSelfCount (node : CallTreeNode) : Z :=
  countOf (ct_selfValue node).

(** The sum of [cumulativeValue] over a [children] map, as an integer. *)
Definition childrenCount (children : OMap.t CallTreeNode) : Z :=
  fold_right (fun kv acc => cumulativeCount (snd kv) + acc) 0 children.

(** Both values of the node are numbers holding a count, and the
    cumulative one is the self value plus the cumulative values of the
    children; the same below. *)
Inductive Balanced (node : CallTreeNode) : Prop :=
| balanced_node :
    ct_selfValue node = JNumber (inject_Z (nodeSelfCount node)) ->
    0 <= nodeSelfCount node ->
    ct_cumulativeValue node = JNumber (inject_Z (cumulativeCount node)) ->
    cumulativeCount node =
      nodeSelfCount node + childrenCount (ct_children node) ->
    Forall (fun kv => Balanced (snd kv)) (ct_children node) ->
    Balanced node.

(** A node under the cursor of the builder: its subtrees are balanced and
    [weight] is what its cumulative value has to be. *)
Definition Open (weight : Z) (node : CallTreeNode) : Prop :=
  ct_selfValue node = JNumber (inject_Z (nodeSelfCount node)) /\
  0 <= nodeSelfCount node /\
  Forall (fun kv => Balanced (snd kv)) (ct_children node) /\
  weight = nodeSelfCount node + childrenCount (ct_children node).

(** [node] is the tree or a node below it. *)
Inductive InTree (node : CallTreeNode) : CallTreeNode -> Prop :=
| in_tree_here : InTree node node
| in_tree_below (tree child : CallTreeNode) :
    In child (OMap.values (ct_children tree)) ->
    InTree node child -> InTree node tree.

(** The sum of [toNum(child.cumulativeValue)] over the children. *)
Definition childrenCumulative (node : CallTreeNode) : Q :=
  fold_right (fun child acc => toNum (ct_cumulativeValue child) + acc)%Q 0%Q
    (OMap.values (ct_children node)).

Module BalanceExample.
Import Fixtures.

(** Two stacks through [main], one of them recursive, and a sample with
    no stack. *)
Definition profile : NormalizedProfile :=
  profileOf [sampleOf [locOf "leaf"; locOf "main"] 4;
             sampleOf [locOf "main"; locOf "main"] 3;
             sampleOf [] 1].

End BalanceExample.

(** ** Chains of the call tree *)

(** The column holds counts that add up without rounding: integers that
    are not negative, as numbers or bigints, with a sum below 2^53. *)
Definition countColumn (profile : NormalizedProfile) (index : Z) : bool :=
  andb (forallb (fun s => isCount (sampleValue s index)) (samples profile))
       (columnSum index (samples profile) <? 2 ^ 53).

(** The path nodes of a chain of the tree from [node] down to a leaf:
    each node is followed by one of its children, the last has none. *)
Inductive ChainToLeaf : CallTreeNode -> list PathNode -> Prop :=
| chain_ends (node : CallTreeNode) :
    ct_children node = [] -> ChainToLeaf node [pathNodeOf node]
| chain_goes (node child : CallTreeNode) (chain : list PathNode) :
    In child (OMap.values (ct_children node)) ->
    ChainToLeaf child chain ->
    ChainToLeaf node (pathNodeOf node :: chain).

(** A recorded path that goes on from [path] along a chain from [node] to
    a leaf, with the anchor or the [cumulativePercent] of a node below
    [node] as its percentage. *)
Definition RunsDown (node : CallTreeNode) (path : list PathNode) (anchor : Q)
    (cp : CriticalPath) : Prop :=
  exists chain,
    cp_path cp = path ++ chain /\
    ChainToLeaf node chain /\
    (cp_cumulativePercent cp = anchor \/
     exists n, InTree n node /\
       cp_cumulativePercent cp = ct_cumulativePercent n).

(** ** Markdown *)

(** The characters [escapeMarkdown] escapes. *)
Definition isSpecial (c : ascii) : bool :=
  orb (Ascii.eqb c "|") (Ascii.eqb c "`").

(** The inverse reading: a backslash before a special character is
    dropped. *)
Fixpoint unescapeMarkdown (s : string) : string :=
  match s with
  | EmptyString => EmptyString
  | String a s' =>
      match s' with
      | String b s'' =>
          if andb (Ascii.eqb a "\") (isSpecial b)
          then String b (unescapeMarkdown s'')
          else String a (unescapeMarkdown s')
      | EmptyString => String a EmptyString
      end
  end.

(** Both replacements in one pass. *)
Fixpoint escapeBoth (str : string) : string :=
  match str with
  | EmptyString => EmptyString
  | String a str' =>
      if isSpecial a then String "\" (String a (escapeBoth str'))
      else String a (escapeBoth str')
  end.

(** * Properties *)

(** ** Rounding *)

Lemma toDouble_proper (x y : Q) : x == y -> toDouble x = toDouble y.
Proof.
  intro H. unfold toDouble. now rewrite (Qred_complete x y H).
Qed.


Lemma isZero_false_neq (v : Numeric) :
  isZero v = false -> ~ toNum v == 0.
Proof.
  unfold isZero. intros H E. apply Qeq_bool_iff in E. congruence.
Qed.

(** The percentage of a total in itself is 100: total / total is 1 for
    every total other than zero that is a number, which excludes the
    [Infinity] of an overflow. *)
Lemma percentOf_self (t : Numeric) :
  isZero t = false -> percentOf t (toNum t) = 100%Q.
Proof.
  intro H. apply isZero_false_neq in H.
  unfold percentOf, numMul, numDiv.
  rewrite (toDouble_proper (toNum t / toNum t) 1) by (now field).
  reflexivity.
Qed.

(** ** The index check *)

Lemma jsIndex_some_iff {A : Type} (arr : list A) (i : Z) :
  (exists a, jsIndex arr i = Some a) <->
  0 <= i < Z.of_nat (List.length arr).
Proof.
  unfold jsIndex. destruct (Z.ltb_spec i 0) as [Hneg | Hpos].
  - split; [intros [a Ha]; discriminate | lia].
  - split.
    + intros [a Ha].
      assert (Hn : nth_error arr (Z.to_nat i) <> None) by congruence.
      apply nth_error_Some in Hn. lia.
    + intros Hr.
      destruct (nth_error arr (Z.to_nat i)) as [a |] eqn:E.
      * now exists a.
      * apply nth_error_None in E. lia.
Qed.


(** ** The degenerate result (C5) *)

Lemma addNumeric_number (q : Q) (v : Numeric) :
  addNumeric (JNumber q) v = JNumber (numAdd q (toNum v)).
Proof. destruct v; reflexivity. Qed.





(** ** The bound on the critical paths (C10) *)

Lemma extractCriticalPaths_length (callTree : CallTreeNode) (maxPaths : nat) :
  (List.length (extractCriticalPaths callTree maxPaths) <= maxPaths)%nat.
Proof.
  unfold extractCriticalPaths. apply firstn_le_length.
Qed.

(** C10.  The critical paths of a returned result are at most 5: the
    orchestrator calls the extractor with [maxPaths = 5], the extractor
    cuts its sorted paths to [maxPaths], and the options carry nothing
    that changes the bound. *)
Theorem analyzeProfile_at_most_five_paths
    (profile : NormalizedProfile) (options : AnalyzeOptions)
    (r : AnalysisResult) :
  analyzeProfile profile options = Returns r ->
  (List.length (r_criticalPaths r) <= 5)%nat /\
  (r_criticalPaths r = [] \/
   r_criticalPaths r = extractCriticalPaths (r_callTree r) 5).
Proof.
  unfold analyzeProfile.
  destruct (jsIndex (sampleTypes profile) (resolvedIndex options));
    [| discriminate].
  destruct (isZero (computeTotal profile (resolvedIndex options)));
    intro H; injection H as <-; simpl.
  - split; [lia | now left].
  - split; [apply extractCriticalPaths_length | now right].
Qed.

Lemma analyzeProfile_at_most_five_paths_witness :
  exists r,
    analyzeProfile
      (Fixtures.profileOf
         [Fixtures.sampleOf [Fixtures.locOf "A"; Fixtures.locOf "B"] 3])
      defaultOptions = Returns r /\
    (List.length (r_criticalPaths r) <= 5)%nat.
Proof.
  destruct (analyzeProfile
              (Fixtures.profileOf
                 [Fixtures.sampleOf [Fixtures.locOf "A"; Fixtures.locOf "B"] 3])
              defaultOptions) as [r | e] eqn:E.
  - exists r. split; [reflexivity |].
    apply (analyzeProfile_at_most_five_paths _ _ r E).
  - vm_compute in E. discriminate.
Defined.

(** ** The root of the call tree (C2) *)

Lemma descend_root (frames : list LineInfo) (value : Numeric)
    (node : CallTreeNode) :
  ct_cumulativeValue (descend frames value node) = ct_cumulativeValue node /\
  ct_cumulativePercent (descend frames value node) =
    ct_cumulativePercent node /\
  ct_name (descend frames value node) = ct_name node.
Proof. destruct frames; repeat split; reflexivity. Qed.

Lemma treeSample_root (index : Z) (root : CallTreeNode) (sample : Sample) :
  ct_cumulativeValue (treeSample index root sample) =
    ct_cumulativeValue root /\
  ct_cumulativePercent (treeSample index root sample) =
    ct_cumulativePercent root /\
  ct_name (treeSample index root sample) = ct_name root.
Proof.
  unfold treeSample. destruct (isZero (sampleValue sample index)).
  - repeat split; reflexivity.
  - apply descend_root.
Qed.

Lemma fold_treeSample_root (index : Z) (l : list Sample)
    (root : CallTreeNode) :
  ct_cumulativeValue (fold_left (treeSample index) l root) =
    ct_cumulativeValue root /\
  ct_cumulativePercent (fold_left (treeSample index) l root) =
    ct_cumulativePercent root /\
  ct_name (fold_left (treeSample index) l root) = ct_name root.
Proof.
  revert root. induction l as [| s l IH]; intro root; cbn [fold_left].
  - repeat split; reflexivity.
  - destruct (IH (treeSample index root s)) as (H1 & H2 & H3).
    destruct (treeSample_root index root s) as (G1 & G2 & G3).
    repeat split; congruence.
Qed.

(** The root stays as seeded while the samples are merged below it. *)
Lemma mergedTree_root (profile : NormalizedProfile) (index : Z)
    (totalValue : Numeric) :
  ct_cumulativeValue (mergedTree profile index totalValue) = totalValue /\
  ct_cumulativePercent (mergedTree profile index totalValue) = 100%Q /\
  ct_name (mergedTree profile index totalValue) = "(root)".
Proof.
  unfold mergedTree.
  apply (fold_treeSample_root index (samples profile) (seededRoot totalValue)).
Qed.

Lemma buildCallTree_root (profile : NormalizedProfile) (index : Z)
    (totalValue : Numeric) :
  ct_cumulativeValue (buildCallTree profile index totalValue) = totalValue /\
  ct_cumulativePercent (buildCallTree profile index totalValue) =
    percentOf totalValue (toNum totalValue).
Proof.
  unfold buildCallTree.
  destruct (mergedTree_root profile index totalValue) as (H1 & _ & _).
  destruct (mergedTree profile index totalValue); simpl in *.
  now rewrite H1.
Qed.

(** C2, as the code has it.  In every returned result the root of the
    call tree carries [cumulativeValue == totalValue].  When the total is
    finite and not zero its [cumulativePercent] is 100: the root is seeded
    with the total and with 100 before the samples are merged, merging
    leaves both untouched, and the percentage pass writes
    (total / total) * 100, which is 100 for a finite total (and [NaN] for
    an infinite one).  In the zero-total branch the root is the empty
    node, with [cumulativePercent] 0. *)
Theorem callTree_root_carries_total
    (profile : NormalizedProfile) (options : AnalyzeOptions)
    (r : AnalysisResult) :
  analyzeProfile profile options = Returns r ->
  ct_cumulativeValue (r_callTree r) = r_totalValue r /\
  (isZero (r_totalValue r) = false ->
   finiteTotal profile (resolvedIndex options) = true ->
   ct_cumulativePercent (r_callTree r) = 100%Q /\
   r_callTree r =
     calculateTreePercentages
       (mergedTree profile (resolvedIndex options) (r_totalValue r))
       (r_totalValue r) /\
   ct_cumulativeValue
     (mergedTree profile (resolvedIndex options) (r_totalValue r)) =
     r_totalValue r /\
   ct_cumulativePercent
     (mergedTree profile (resolvedIndex options) (r_totalValue r)) = 100%Q) /\
  (isZero (r_totalValue r) = true ->
   r_callTree r = createEmptyNode "(root)" /\
   ct_cumulativePercent (r_callTree r) = 0%Q).
Proof.
  unfold analyzeProfile.
  destruct (jsIndex (sampleTypes profile) (resolvedIndex options));
    [| discriminate].
  destruct (isZero (computeTotal profile (resolvedIndex options))) eqn:Hz;
    intro H; injection H as <-; cbn [r_callTree r_totalValue].
  - split; [reflexivity |]. split; [discriminate |].
    intros _. split; reflexivity.
  - destruct (buildCallTree_root profile (resolvedIndex options)
                (computeTotal profile (resolvedIndex options))) as (H1 & H2).
    destruct (mergedTree_root profile (resolvedIndex options)
                (computeTotal profile (resolvedIndex options)))
      as (G1 & G2 & _).
    split; [exact H1 |]. split; [| congruence].
    intros _ _. rewrite H2, (percentOf_self _ Hz). auto.
Qed.

(** A profile of total 3: the root carries 3 and 100. *)
Lemma callTree_root_carries_total_witness :
  exists r,
    analyzeProfile
      (Fixtures.profileOf
         [Fixtures.sampleOf [Fixtures.locOf "A"; Fixtures.locOf "B"] 3])
      defaultOptions = Returns r /\
    r_totalValue r = JNumber 3 /\
    ct_cumulativeValue (r_callTree r) = r_totalValue r /\
    ct_cumulativePercent (r_callTree r) = 100%Q.
Proof.
  destruct (analyzeProfile
              (Fixtures.profileOf
                 [Fixtures.sampleOf [Fixtures.locOf "A"; Fixtures.locOf "B"] 3])
              defaultOptions) as [r | e] eqn:E;
    [| vm_compute in E; discriminate].
  exists r. split; [reflexivity |].
  destruct (callTree_root_carries_total _ _ r E) as (H1 & H2 & _).
  assert (Ht : r_totalValue r = JNumber 3).
  { pose proof E as E'. vm_compute in E'. injection E' as <-. reflexivity. }
  split; [exact Ht |]. split; [exact H1 |].
  apply H2.
  - rewrite Ht. reflexivity.
  - vm_compute. reflexivity.
Defined.

(** Two values of 10^308 sum past the largest double: the total of the
    source is [Infinity], which [finiteTotal] excludes. *)
Lemma overflowing_total_is_not_finite :
  finiteTotal
    (Fixtures.profileOf
       [Fixtures.sampleOf [Fixtures.locOf "A"] (10 ^ 308);
        Fixtures.sampleOf [Fixtures.locOf "A"] (10 ^ 308)]) 0 = false /\
  finiteTotal
    (Fixtures.profileOf [Fixtures.sampleOf [Fixtures.locOf "A"] (10 ^ 308)])
    0 = true.
Proof. split; vm_compute; reflexivity. Qed.

(** The value of the root is the total, not the sum over its children: a
    sample with an empty stack counts in the total and under no child. *)
Lemma root_value_is_not_summed_from_children :
  let tree := TreeExample.treeOf ConservationExample.plain in
  ct_cumulativeValue tree = JNumber 6 /\
  map ct_cumulativeValue (OMap.values (ct_children tree)) = [JNumber 5] /\
  ct_cumulativePercent tree = 100%Q.
Proof. cbv zeta. repeat split; vm_compute; reflexivity. Qed.

(** C2 as stated fails on the zero-total branch: for the profile without
    samples the returned root has [cumulativePercent] 0, not 100. *)
Lemma root_percent_not_100_when_total_zero :
  exists r,
    analyzeProfile (Fixtures.profileOf []) defaultOptions = Returns r /\
    ct_cumulativeValue (r_callTree r) = r_totalValue r /\
    ct_cumulativePercent (r_callTree r) = 0%Q /\
    ~ ct_cumulativePercent (r_callTree r) == 100.
Proof.
  eexists. split; [vm_compute; reflexivity |].
  split; [reflexivity |]. split; [reflexivity |]. discriminate.
Qed.

(** ** Context sensitivity of the tree (C4) *)

(** C4, as the code has it.  The walk goes from the last stack index to
    index 0, so the samples that merge under one child [X] of the root
    are the ones whose outermost frame (last index) is [X]: for the stacks
    [[A, X]] and [[B, X]] (index 0 = leaf), each of value 10, the root has
    the single child [X] with [cumulativeValue] 20, and [X] has the two
    children [A] and [B], each with [cumulativeValue] 10. *)
Theorem callTree_context_sensitivity :
  let tree := TreeExample.treeOf TreeExample.rootShared in
  computeTotal TreeExample.rootShared 0 = JNumber 20 /\
  childNames tree = ["X"] /\
  exists x a b,
    childAt "X@app.js:7" tree = Some x /\
    ct_cumulativeValue x = JNumber 20 /\
    childNames x = ["A"; "B"] /\
    childAt "A@app.js:7" x = Some a /\
    childAt "B@app.js:7" x = Some b /\
    ct_cumulativeValue a = JNumber 10 /\
    ct_cumulativeValue b = JNumber 10 /\
    ct_selfValue a = JNumber 10 /\
    ct_selfValue b = JNumber 10 /\
    ct_children a = [] /\ ct_children b = [].
Proof.
  cbv zeta. split; [vm_compute; reflexivity |].
  split; [vm_compute; reflexivity |].
  do 3 eexists.
  split; [vm_compute; reflexivity |].
  split; [reflexivity |]. split; [reflexivity |].
  split; [vm_compute; reflexivity |]. split; [vm_compute; reflexivity |].
  repeat split; reflexivity.
Qed.

(** C4 as stated fails: with index 0 = leaf, the stacks [[X, A]] and
    [[X, B]] put [A] and [B] below the root, each with its own child [X]
    of [cumulativeValue] 10; the root has no child [X]. *)
Lemma leaf_first_stacks_do_not_merge_under_X :
  let tree := TreeExample.treeOf TreeExample.leafShared in
  childAt "X@app.js:7" tree = None /\
  childNames tree = ["A"; "B"] /\
  exists a b xa xb,
    childAt "A@app.js:7" tree = Some a /\
    childAt "B@app.js:7" tree = Some b /\
    childAt "X@app.js:7" a = Some xa /\
    childAt "X@app.js:7" b = Some xb /\
    childNames a = ["X"] /\ childNames b = ["X"] /\
    ct_cumulativeValue xa = JNumber 10 /\
    ct_cumulativeValue xb = JNumber 10.
Proof.
  cbv zeta. split; [vm_compute; reflexivity |].
  split; [vm_compute; reflexivity |].
  do 4 eexists.
  split; [vm_compute; reflexivity |]. split; [vm_compute; reflexivity |].
  split; [vm_compute; reflexivity |]. split; [vm_compute; reflexivity |].
  repeat split; reflexivity.
Qed.

(** ** Value formatting (C9) *)

Lemma geq_true (num : Q) (k : Z) :
  (inject_Z k <= num)%Q -> geq num k = true.
Proof. intro H. unfold geq. now apply Qle_bool_iff. Qed.

Lemma geq_false (num : Q) (k : Z) :
  (num < inject_Z k)%Q -> geq num k = false.
Proof.
  intro H. unfold geq. destruct (Qle_bool (inject_Z k) num) eqn:E; auto.
  apply Qle_bool_iff in E. exfalso. apply (Qlt_not_le _ _ H E).
Qed.

Lemma geq_mono (num : Q) (j k : Z) :
  (j <= k)%Z -> (num < inject_Z j)%Q -> geq num k = false.
Proof.
  intros Hjk H. apply geq_false.
  apply Qlt_le_trans with (inject_Z j); [exact H |].
  now rewrite <- Zle_Qle.
Qed.

(** The two digits of [pad2], each printed on its own. *)
Lemma pad2_digits (m : Z) :
  (0 <= m < 100)%Z ->
  pad2 m = (intToString (m / 10) ++ intToString (m mod 10))%string.
Proof.
  intro H.
  assert (Hall : forallb (fun k =>
                   String.eqb (pad2 (Z.of_nat k))
                     (intToString (Z.of_nat k / 10) ++
                      intToString (Z.of_nat k mod 10))%string)
                   (seq 0 100) = true) by (vm_compute; reflexivity).
  rewrite forallb_forall in Hall.
  specialize (Hall (Z.to_nat m)).
  rewrite Z2Nat.id in Hall by lia.
  apply String.eqb_eq, Hall, in_seq. lia.
Qed.

(** Below 10^21 [toFixed(2)] prints the nearest number of hundredths, the
    larger one on a tie: its whole part, a point, and its last two
    digits. *)
Lemma toFixed2_nearest_hundredth (x : Q) :
  (0 <= x)%Q -> (x < inject_Z (10 ^ 21))%Q ->
  exists n : Z,
    (inject_Z n - (1 # 2) <= x * 100)%Q /\
    (x * 100 < inject_Z n + (1 # 2))%Q /\
    toFixed2 x =
      (intToString (n / 100) ++ "." ++
       intToString (n / 10 mod 10) ++ intToString (n mod 10))%string.
Proof.
  intros H0 H1. unfold toFixed2.
  assert (E0 : Qle_bool 0 x = true) by now apply Qle_bool_iff.
  rewrite E0. cbn [negb].
  assert (E1 : Qle_bool (inject_Z (10 ^ 21)) x = false).
  { destruct (Qle_bool (inject_Z (10 ^ 21)) x) eqn:E; auto.
    apply Qle_bool_iff in E. exfalso. apply (Qlt_not_le _ _ H1 E). }
  rewrite E1.
  set (n := Qfloor (x * 100 + (1 # 2))).
  exists n.
  pose proof (Qfloor_le (x * 100 + (1 # 2))) as Hlo.
  pose proof (Qlt_floor (x * 100 + (1 # 2))) as Hhi.
  fold n in Hlo, Hhi. rewrite inject_Z_plus in Hhi.
  change (inject_Z 1) with 1%Q in Hhi.
  split; [lra |]. split; [lra |].
  assert (Hn : (0 <= n)%Z).
  { unfold n. apply (Qfloor_resp_le 0). lra. }
  rewrite (pad2_digits (n mod 100)) by (apply Z.mod_pos_bound; lia).
  cbn [append].
  assert (Hd : ((n mod 100) / 10 = n / 10 mod 10)%Z)
    by (zify; Z.to_euclidean_division_equations; lia).
  assert (Hm : ((n mod 100) mod 10 = n mod 10)%Z)
    by (zify; Z.to_euclidean_division_equations; lia).
  now rewrite Hd, Hm.
Qed.

(** From 10^21 on [toFixed(2)] is [toString]. *)
Lemma toFixed2_large (x : Q) :
  (inject_Z (10 ^ 21) <= x)%Q -> toFixed2 x = numberToString x.
Proof.
  intro H. unfold toFixed2.
  assert (E0 : Qle_bool 0 x = true).
  { apply Qle_bool_iff. apply Qle_trans with (inject_Z (10 ^ 21)); [| exact H].
    change 0%Q with (inject_Z 0). rewrite <- Zle_Qle.
    apply Z.pow_nonneg. lia. }
  rewrite E0. cbn [negb].
  apply Qle_bool_iff in H. now rewrite H.
Qed.

(** The integers of up to three digits print as their digits, with the
    sign of a negative one. *)
Lemma numberToString_small_integer (n : Z) :
  (-1000 < n < 1000)%Z -> numberToString (inject_Z n) = intToString n.
Proof.
  intro H.
  assert (Hall : forallb (fun k =>
                   String.eqb (numberToString (inject_Z (Z.of_nat k - 999)))
                     (intToString (Z.of_nat k - 999)))
                   (seq 0 1999) = true) by (vm_compute; reflexivity).
  rewrite forallb_forall in Hall.
  specialize (Hall (Z.to_nat (n + 999))).
  rewrite Z2Nat.id in Hall by lia.
  replace (n + 999 - 999)%Z with n in Hall by lia.
  apply String.eqb_eq, Hall, in_seq. lia.
Qed.

Lemma byteUnit_not_nanoseconds (unit : string) :
  byteUnit unit = true -> nanosecondUnit unit = false.
Proof.
  unfold byteUnit, nanosecondUnit. intro H. apply String.eqb_eq in H.
  rewrite H. reflexivity.
Qed.

Lemma countUnit_only (unit : string) :
  countUnit unit = true -> nanosecondUnit unit = false /\ byteUnit unit = false.
Proof.
  unfold countUnit, byteUnit, nanosecondUnit. intro H.
  apply orb_true_iff in H.
  destruct H as [H | H]; apply String.eqb_eq in H; rewrite H;
    split; reflexivity.
Qed.

Ltac fold_unit_tests unit :=
  change (orb (String.eqb (toLowerCase unit) "nanoseconds")
              (String.eqb (toLowerCase unit) "ns")) with (nanosecondUnit unit);
  change (String.eqb (toLowerCase unit) "bytes") with (byteUnit unit);
  change (orb (String.eqb (toLowerCase unit) "count")
              (String.eqb (toLowerCase unit) "samples")) with (countUnit unit).

Ltac pick_scale :=
  repeat first
    [ rewrite geq_true by assumption
    | rewrite geq_false by assumption
    | rewrite (geq_mono _ (10 ^ 3) (10 ^ 6)) by (assumption || lia)
    | rewrite (geq_mono _ (10 ^ 3) (10 ^ 9)) by (assumption || lia)
    | rewrite (geq_mono _ (10 ^ 6) (10 ^ 9)) by (assumption || lia) ];
  reflexivity.

(** C9, as the code has it.  For a value the source can hold,
    [formatValue] on a unit that lower-cases to ["nanoseconds"] or ["ns"]
    scales to seconds from 1e9, to milliseconds from 1e6, to microseconds
    from 1e3 and prints the raw number of nanoseconds below; ["bytes"]
    scale to GB, MB and KB at 1e9, 1e6 and 1e3; ["count"] and ["samples"]
    to M and K at 1e6 and 1e3; any other unit, other units of time
    included, gives the value, a space and the unit as passed.  A scaled
    value is [(num / k).toFixed(2)]: below 10^21 the nearest number of
    hundredths, printed with two decimals, and [toString] from there on.
    A raw value is [toString]: for an integer of up to three digits its
    digits.  In particular 1_500_000_000 ns is ["1.50s"], 1500 bytes
    ["1.50 KB"] and 1500 count ["1.50K"]. *)
Theorem formatValue_scales_by_unit (value : Numeric) (unit : string) :
  let num := toNum value in
  finiteValue value = true ->
  (nanosecondUnit unit = true ->
   ((inject_Z (10 ^ 9) <= num)%Q ->
    formatValue value unit = (scaled num (10 ^ 9) ++ "s")%string) /\
   ((inject_Z (10 ^ 6) <= num)%Q -> (num < inject_Z (10 ^ 9))%Q ->
    formatValue value unit = (scaled num (10 ^ 6) ++ "ms")%string) /\
   ((inject_Z (10 ^ 3) <= num)%Q -> (num < inject_Z (10 ^ 6))%Q ->
    formatValue value unit =
      (scaled num (10 ^ 3) ++ microSign ++ "s")%string) /\
   ((num < inject_Z (10 ^ 3))%Q ->
    formatValue value unit = (numberToString num ++ "ns")%string)) /\
  (byteUnit unit = true ->
   ((inject_Z (10 ^ 9) <= num)%Q ->
    formatValue value unit = (scaled num (10 ^ 9) ++ " GB")%string) /\
   ((inject_Z (10 ^ 6) <= num)%Q -> (num < inject_Z (10 ^ 9))%Q ->
    formatValue value unit = (scaled num (10 ^ 6) ++ " MB")%string) /\
   ((inject_Z (10 ^ 3) <= num)%Q -> (num < inject_Z (10 ^ 6))%Q ->
    formatValue value unit = (scaled num (10 ^ 3) ++ " KB")%string) /\
   ((num < inject_Z (10 ^ 3))%Q ->
    formatValue value unit = (numberToString num ++ " B")%string)) /\
  (countUnit unit = true ->
   ((inject_Z (10 ^ 6) <= num)%Q ->
    formatValue value unit = (scaled num (10 ^ 6) ++ "M")%string) /\
   ((inject_Z (10 ^ 3) <= num)%Q -> (num < inject_Z (10 ^ 6))%Q ->
    formatValue value unit = (scaled num (10 ^ 3) ++ "K")%string) /\
   ((num < inject_Z (10 ^ 3))%Q ->
    formatValue value unit = numberToString num)) /\
  (nanosecondUnit unit = false -> byteUnit unit = false ->
   countUnit unit = false ->
   formatValue value unit = (numberToString num ++ " " ++ unit)%string) /\
  (forall k : Z, scaled num k = toFixed2 (numDiv num (inject_Z k))) /\
  (forall x : Q, (0 <= x)%Q -> (x < inject_Z (10 ^ 21))%Q ->
     exists n : Z,
       (inject_Z n - (1 # 2) <= x * 100)%Q /\
       (x * 100 < inject_Z n + (1 # 2))%Q /\
       toFixed2 x =
         (intToString (n / 100) ++ "." ++
          intToString (n / 10 mod 10) ++ intToString (n mod 10))%string) /\
  (forall x : Q, (inject_Z (10 ^ 21) <= x)%Q ->
     toFixed2 x = numberToString x) /\
  (forall n : Z, (-1000 < n < 1000)%Z ->
     numberToString (inject_Z n) = intToString n) /\
  formatValue (JNumber 1500000000) "nanoseconds" = "1.50s" /\
  formatValue (JNumber 1500) "bytes" = "1.50 KB" /\
  formatValue (JNumber 1500) "count" = "1.50K" /\
  formatValue (JNumber 2340000) "ns" = "2.34ms" /\
  formatValue (JNumber (1 # 2)) "ns" = "0.5ns" /\
  formatValue (JNumber (inject_Z (10 ^ 21))) "ticks" = "1e+21 ticks".
Proof.
  cbv zeta. intros _.
  split; [| split; [| split; [| split; [| split; [| split;
    [| split; [| split]]]]]]].
  - intro Hu. unfold formatValue. fold_unit_tests unit. rewrite Hu.
    repeat split; intros; pick_scale.
  - intro Hu. unfold formatValue. fold_unit_tests unit.
    rewrite (byteUnit_not_nanoseconds unit Hu), Hu.
    repeat split; intros; pick_scale.
  - intro Hu. unfold formatValue. fold_unit_tests unit.
    destruct (countUnit_only unit Hu) as [Ht Hb].
    rewrite Ht, Hb, Hu.
    repeat split; intros; pick_scale.
  - intros Ht Hb Hc. unfold formatValue. fold_unit_tests unit.
    rewrite Ht, Hb, Hc. reflexivity.
  - reflexivity.
  - exact toFixed2_nearest_hundredth.
  - exact toFixed2_large.
  - exact numberToString_small_integer.
  - repeat split; vm_compute; reflexivity.
Qed.

(** The three values of the specification, each through its branch, and
    an unknown unit. *)
Lemma formatValue_scales_by_unit_witness :
  formatValue (JBigInt 1500000000) "nanoseconds" = "1.50s" /\
  formatValue (JBigInt 1500) "Bytes" = "1.50 KB" /\
  formatValue (JBigInt 1500) "count" = "1.50K" /\
  formatValue (JBigInt 150) "widgets" = "150 widgets".
Proof.
  split; [| split; [| split]].
  - destruct (formatValue_scales_by_unit (JBigInt 1500000000) "nanoseconds")
      as (H & _); [vm_compute; reflexivity |].
    destruct (H eq_refl) as (H9 & _).
    rewrite H9; [vm_compute; reflexivity | vm_compute; discriminate].
  - destruct (formatValue_scales_by_unit (JBigInt 1500) "Bytes")
      as (_ & H & _); [vm_compute; reflexivity |].
    destruct (H eq_refl) as (_ & _ & H3 & _).
    rewrite H3; [vm_compute; reflexivity | vm_compute; discriminate
                | vm_compute; reflexivity].
  - destruct (formatValue_scales_by_unit (JBigInt 1500) "count")
      as (_ & _ & H & _); [vm_compute; reflexivity |].
    destruct (H eq_refl) as (_ & H3 & _).
    rewrite H3; [vm_compute; reflexivity | vm_compute; discriminate
                | vm_compute; reflexivity].
  - destruct (formatValue_scales_by_unit (JBigInt 150) "widgets")
      as (_ & _ & _ & H & _); [vm_compute; reflexivity |].
    rewrite H; [vm_compute; reflexivity | reflexivity ..].
Defined.

(** C9 as stated fails on a unit of time other than nanoseconds: 1500
    microseconds are not scaled (the claim has 1e3 and more in
    microseconds, with two decimals) but printed by the fallback.  And a
    scaled value from 10^21 on has no two decimals: 10^31 nanoseconds
    print in the exponent form. *)
Lemma microseconds_take_the_fallback :
  isTimeUnit "microseconds" = true /\
  (inject_Z (10 ^ 3) <= toNum (JNumber 1500))%Q /\
  formatValue (JNumber 1500) "microseconds" = "1500 microseconds" /\
  formatValue (JNumber 1500) "microseconds" <>
    (scaled 1500 (10 ^ 3) ++ microSign ++ "s")%string /\
  formatValue (JNumber 1500) "nanoseconds" =
    (scaled 1500 (10 ^ 3) ++ microSign ++ "s")%string /\
  formatValue (JNumber (inject_Z (10 ^ 31))) "nanoseconds" = "1e+22s".
Proof.
  split; [reflexivity |]. split; [vm_compute; discriminate |].
  split; [vm_compute; reflexivity |].
  split; [vm_compute; discriminate |].
  split; vm_compute; reflexivity.
Qed.

(** The values checked by the tests of the repository. *)
Lemma formatValue_test_values :
  formatValue (JBigInt 1500000000) "nanoseconds" = "1.50s" /\
  formatValue (JBigInt 1500000) "nanoseconds" = "1.50ms" /\
  formatValue (JBigInt 1500) "nanoseconds" =
    ("1.50" ++ microSign ++ "s")%string /\
  formatValue (JBigInt 150) "nanoseconds" = "150ns" /\
  formatValue (JBigInt 1500000000) "bytes" = "1.50 GB" /\
  formatValue (JBigInt 1500000) "bytes" = "1.50 MB" /\
  formatValue (JBigInt 1500) "bytes" = "1.50 KB" /\
  formatValue (JBigInt 150) "bytes" = "150 B" /\
  formatValue (JBigInt 1500000) "count" = "1.50M" /\
  formatValue (JBigInt 1500) "count" = "1.50K" /\
  formatValue (JBigInt 150) "count" = "150".
Proof. repeat split; vm_compute; reflexivity. Qed.

(** The division rounds before [toFixed]: 1005 / 1e3 is the double below
    1.005.  A number prints its shortest digits that read back as the
    same double, in the exponent form from 10^21 on and below 10^-6. *)
Lemma formatValue_other_values :
  formatValue (JBigInt 1005) "count" = "1.00K" /\
  formatValue (JBigInt 999999) "samples" = "1000.00K" /\
  formatValue (JNumber (toDouble (1 # 10))) "widgets" = "0.1 widgets" /\
  formatValue (JNumber (-5)) "ns" = "-5ns" /\
  formatValue (JNumber (toDouble (1 # 10000000))) "bytes" = "1e-7 B" /\
  formatValue (JBigInt (2 ^ 67)) "widgets" =
    "147573952589676410000 widgets" /\
  formatValue (JBigInt (10 ^ 31)) "ns" = "1e+22s".
Proof. repeat split; vm_compute; reflexivity. Qed.

(** ** Maps and sets *)

Lemma get_set_same {V : Type} (k : string) (v : V) (m : OMap.t V) :
  OMap.get k (OMap.set k v m) = Some v.
Proof.
  induction m as [| [k' v'] m IH]; cbn.
  - now rewrite String.eqb_refl.
  - destruct (String.eqb k k') eqn:E; cbn; rewrite E; auto.
Qed.

Lemma get_set_other {V : Type} (k k' : string) (v : V) (m : OMap.t V) :
  k' <> k -> OMap.get k' (OMap.set k v m) = OMap.get k' m.
Proof.
  intro Hne. induction m as [| [k0 v0] m IH]; cbn.
  - apply String.eqb_neq in Hne. now rewrite Hne.
  - destruct (String.eqb k k0) eqn:E; cbn.
    + apply String.eqb_eq in E. subst k0.
      apply String.eqb_neq in Hne. now rewrite Hne.
    + destruct (String.eqb k' k0); auto.
Qed.

Lemma get_set (k k' : string) {V : Type} (v : V) (m : OMap.t V) :
  OMap.get k' (OMap.set k v m) =
  if String.eqb k' k then Some v else OMap.get k' m.
Proof.
  destruct (String.eqb k' k) eqn:E.
  - apply String.eqb_eq in E. subst. apply get_set_same.
  - apply String.eqb_neq in E. now apply get_set_other.
Qed.

Lemma has_add (k k' : string) (s : OSet.t) :
  OSet.has k' (OSet.add k s) = orb (String.eqb k' k) (OSet.has k' s).
Proof.
  unfold OSet.add. destruct (OSet.has k s) eqn:E.
  - destruct (String.eqb k' k) eqn:E'; auto.
    apply String.eqb_eq in E'. subst. now rewrite E.
  - unfold OSet.has. rewrite existsb_app. cbn.
    rewrite orb_false_r. apply orb_comm.
Qed.

Lemma has_In (k : string) (s : OSet.t) : OSet.has k s = true <-> In k s.
Proof.
  unfold OSet.has. rewrite existsb_exists. split.
  - intros (x & Hin & Hx). apply String.eqb_eq in Hx. now subst.
  - intro Hin. exists k. split; auto. apply String.eqb_refl.
Qed.

(** ** One frame of the aggregator *)

Lemma rowFor_key (lineInfo : LineInfo) (stats : OMap.t FunctionStats) :
  WellKeyed stats -> fs_key (rowFor lineInfo stats) = keyOf lineInfo.
Proof.
  intro HW. unfold rowFor.
  destruct (OMap.get (keyOf lineInfo) stats) eqn:E; auto.
Qed.

(** What one frame does to the map and to [seenInStack]. *)
Lemma lineStep_spec (value : Numeric) (stack : list Location) (i : nat)
    (stats : OMap.t FunctionStats) (seen : OSet.t) (lineInfo : LineInfo) :
  WellKeyed stats ->
  let key := keyOf lineInfo in
  let base := rowFor lineInfo stats in
  exists row,
    fs_key row = key /\
    fs_selfValue row =
      (if Nat.eqb i 0 then addNumeric (fs_selfValue base) value
       else fs_selfValue base) /\
    fs_cumulativeValue row =
      (if OSet.has key seen then fs_cumulativeValue base
       else addNumeric (fs_cumulativeValue base) value) /\
    fs_sampleCount row =
      (if OSet.has key seen then fs_sampleCount base
       else fs_sampleCount base + 1) /\
    snd (lineStep value stack i (stats, seen) lineInfo) =
      (if OSet.has key seen then seen else OSet.add key seen) /\
    fst (lineStep value stack i (stats, seen) lineInfo) =
      OMap.set key row
        (match OMap.get key stats with
         | Some _ => stats
         | None => OMap.set key base stats
         end).
Proof.
  intros HW key base.
  pose proof (rowFor_key lineInfo stats HW) as Hkey.
  unfold lineStep, getOrCreateStats.
  fold (keyOf lineInfo). fold key.
  subst base. unfold rowFor in *. fold key in Hkey |- *.
  destruct (OMap.get key stats) as [existing |] eqn:Eg.
  - rewrite Hkey.
    destruct (Nat.eqb i 0), (Nat.ltb i (List.length stack - 1)),
      (Nat.ltb 0 i), (OSet.has key seen); cbn [negb fst snd];
      eexists;
      (split; [| split; [| split; [| split; [| split; [| reflexivity]]]]]);
      try exact Hkey; reflexivity.
  - cbn [fs_key newStats] in Hkey |- *.
    destruct (Nat.eqb i 0), (Nat.ltb i (List.length stack - 1)),
      (Nat.ltb 0 i), (OSet.has key seen); cbn [negb fst snd];
      eexists;
      (split; [| split; [| split; [| split; [| split; [| reflexivity]]]]]);
      reflexivity.
Qed.

Lemma lineStep_get (value : Numeric) (stack : list Location) (i : nat)
    (stats : OMap.t FunctionStats) (seen : OSet.t) (lineInfo : LineInfo) :
  WellKeyed stats ->
  let key := keyOf lineInfo in
  let base := rowFor lineInfo stats in
  exists row,
    fs_key row = key /\
    fs_selfValue row =
      (if Nat.eqb i 0 then addNumeric (fs_selfValue base) value
       else fs_selfValue base) /\
    fs_cumulativeValue row =
      (if OSet.has key seen then fs_cumulativeValue base
       else addNumeric (fs_cumulativeValue base) value) /\
    fs_sampleCount row =
      (if OSet.has key seen then fs_sampleCount base
       else fs_sampleCount base + 1) /\
    snd (lineStep value stack i (stats, seen) lineInfo) =
      (if OSet.has key seen then seen else OSet.add key seen) /\
    forall k,
      OMap.get k (fst (lineStep value stack i (stats, seen) lineInfo)) =
      if String.eqb k key then Some row else OMap.get k stats.
Proof.
  intros HW key base.
  destruct (lineStep_spec value stack i stats seen lineInfo HW)
    as (row & H1 & H2 & H3 & H4 & H5 & H6).
  exists row. repeat (split; [assumption |]).
  intro k. rewrite H6. fold key. rewrite get_set.
  destruct (String.eqb k key) eqn:E; auto.
  destruct (OMap.get key stats); auto.
  rewrite get_set, E. reflexivity.
Qed.

Lemma lineStep_wellKeyed (value : Numeric) (stack : list Location) (i : nat)
    (st : AggState) (lineInfo : LineInfo) :
  WellKeyed (fst st) ->
  WellKeyed (fst (lineStep value stack i st lineInfo)).
Proof.
  destruct st as [stats seen]. cbn [fst]. intro HW.
  destruct (lineStep_get value stack i stats seen lineInfo HW)
    as (row & H1 & _ & _ & _ & _ & Hget).
  intros k r. rewrite Hget.
  destruct (String.eqb k (keyOf lineInfo)) eqn:E.
  - apply String.eqb_eq in E. intro H. injection H as <-. congruence.
  - apply HW.
Qed.

(** The loop over the stack indices, by an invariant on the index. *)
Lemma stack_loop_invariant (value : Numeric) (stack : list Location)
    (I : nat -> AggState -> Prop) :
  (forall i location st,
     nth_error stack i = Some location -> I i st ->
     I (S i) (fold_left (lineStep value stack i) (loc_lines location) st)) ->
  forall st, I O st ->
    I (List.length stack)
      (fold_left (stackStep value stack) (seq 0 (List.length stack)) st).
Proof.
  intros Hstep.
  assert (Hgen : forall n a st,
             (a + n = List.length stack)%nat -> I a st ->
             I (List.length stack)
               (fold_left (stackStep value stack) (seq a n) st)).
  { induction n as [| n IH]; intros a st Hlen Ha; cbn [seq fold_left].
    - now replace (List.length stack) with a by lia.
    - apply IH; [lia |].
      unfold stackStep.
      destruct (nth_error stack a) as [location |] eqn:E.
      + now apply Hstep.
      + apply nth_error_None in E. lia. }
  intros st H0. now apply Hgen.
Qed.

(** ** Recursion dedup in the aggregator (C3) *)

Lemma lineStep_creditedOnce (stats0 : OMap.t FunctionStats)
    (value : Numeric) (stack : list Location) (i : nat)
    (done : list string) (st : AggState) (lineInfo : LineInfo) :
  CreditedOnce stats0 value done st ->
  CreditedOnce stats0 value (done ++ [keyOf lineInfo])
    (lineStep value stack i st lineInfo).
Proof.
  destruct st as [stats seen]. intros (HW & Hseen & Hin & Hout).
  cbn [fst snd] in *.
  destruct (lineStep_get value stack i stats seen lineInfo HW)
    as (row & H1 & _ & H3 & H4 & H5 & Hget).
  set (key := keyOf lineInfo) in *.
  split; [apply (lineStep_wellKeyed value stack i (stats, seen)), HW |].
  split; [| split].
  - intro k. rewrite H5, in_app_iff. cbn [In].
    destruct (OSet.has key seen) eqn:E.
    + rewrite Hseen. split; [tauto |].
      intros [H | [<- | []]]; auto. now apply Hseen.
    + rewrite has_add, orb_true_iff, Hseen.
      split.
      * intros [H | H]; [apply String.eqb_eq in H; subst; auto | auto].
      * intros [H | [<- | []]]; [auto | left; apply String.eqb_refl].
  - intros k Hk. rewrite Hget.
    destruct (String.eqb k key) eqn:E.
    + apply String.eqb_eq in E. subst k.
      exists row. split; [reflexivity |].
      rewrite H3, H4. unfold rowFor. fold key.
      destruct (OSet.has key seen) eqn:Es.
      * apply Hseen in Es. destruct (Hin key Es) as (r & Hr & Hc & Hv).
        rewrite Hr. auto.
      * assert (Hnot : ~ In key done).
        { intro Hd. apply Hseen in Hd. congruence. }
        rewrite (Hout key Hnot). unfold countAt, cumulativeAt.
        destruct (OMap.get key stats0); auto.
    + apply String.eqb_neq in E. apply Hin.
      apply in_app_iff in Hk. destruct Hk as [Hk | [Hk | []]]; congruence.
  - intros k Hk. rewrite Hget.
    destruct (String.eqb k key) eqn:E.
    + apply String.eqb_eq in E. subst k. exfalso. apply Hk.
      apply in_app_iff. right. now left.
    + apply Hout. intro Hd. apply Hk. apply in_app_iff. now left.
Qed.

Lemma lines_creditedOnce (stats0 : OMap.t FunctionStats)
    (value : Numeric) (stack : list Location) (i : nat)
    (lines : list LineInfo) (done : list string) (st : AggState) :
  CreditedOnce stats0 value done st ->
  CreditedOnce stats0 value (done ++ map keyOf lines)
    (fold_left (lineStep value stack i) lines st).
Proof.
  revert done st. induction lines as [| li lines IH]; intros done st H.
  - cbn. now rewrite app_nil_r.
  - cbn [fold_left map].
    replace (done ++ keyOf li :: map keyOf lines)
      with ((done ++ [keyOf li]) ++ map keyOf lines)
      by (now rewrite <- app_assoc).
    apply IH. now apply lineStep_creditedOnce.
Qed.

Lemma firstn_succ_nth {A : Type} (l : list A) (i : nat) (a : A) :
  nth_error l i = Some a -> firstn (S i) l = firstn i l ++ [a].
Proof.
  revert i. induction l as [| x l IH]; intros [| i] H; try discriminate.
  - cbn in H. injection H as ->. reflexivity.
  - cbn in H.
    change (x :: firstn (S i) l = x :: (firstn i l ++ [a])).
    f_equal. now apply IH.
Qed.

Lemma stack_creditedOnce (stats0 : OMap.t FunctionStats) (value : Numeric)
    (stack : list Location) :
  WellKeyed stats0 ->
  CreditedOnce stats0 value (flat_map locKeys stack)
    (fold_left (stackStep value stack) (seq 0 (List.length stack))
       (stats0, OSet.empty)).
Proof.
  intro HW.
  pose proof (stack_loop_invariant value stack
                (fun i st => CreditedOnce stats0 value
                               (flat_map locKeys (firstn i stack)) st))
    as Hloop.
  cbv beta in Hloop. rewrite firstn_all in Hloop. apply Hloop.
  - intros i location st Hnth Hinv.
    rewrite (firstn_succ_nth stack i location Hnth), flat_map_app.
    cbn [flat_map]. rewrite app_nil_r.
    now apply lines_creditedOnce.
  - cbn. split; [exact HW |]. split; [| split].
    + intro k. split; [discriminate | intros []].
    + intros k [].
    + reflexivity.
Qed.

Lemma aggregateSample_creditedOnce (index : Z)
    (stats : OMap.t FunctionStats) (sample : Sample) (k : string) :
  WellKeyed stats ->
  WellKeyed (aggregateSample index stats sample) /\
  countAt k (aggregateSample index stats sample) =
    (if creditedBy index k sample then countAt k stats + 1
     else countAt k stats) /\
  cumulativeAt k (aggregateSample index stats sample) =
    (if creditedBy index k sample
     then addNumeric (cumulativeAt k stats) (sampleValue sample index)
     else cumulativeAt k stats).
Proof.
  intro HW. unfold aggregateSample, creditedBy.
  destruct (isZero (sampleValue sample index)); cbn [negb andb].
  - auto.
  - destruct (stack_creditedOnce stats (sampleValue sample index)
                (s_stack sample) HW) as (HW' & _ & Hin & Hout).
    split; [exact HW' |].
    fold (sampleKeys sample) in Hin, Hout.
    destruct (existsb (String.eqb k) (sampleKeys sample)) eqn:E.
    + assert (Hk : In k (sampleKeys sample)) by now apply has_In.
      destruct (Hin k Hk) as (row & Hrow & Hc & Hv).
      unfold countAt at 1, cumulativeAt at 1. rewrite Hrow. auto.
    + assert (Hk : ~ In k (sampleKeys sample)).
      { intro Hk. apply has_In in Hk. unfold OSet.has in Hk. congruence. }
      unfold countAt, cumulativeAt. rewrite (Hout k Hk). auto.
Qed.

Lemma samples_creditedOnce (index : Z) (k : string) (l : list Sample)
    (stats : OMap.t FunctionStats) :
  WellKeyed stats ->
  countAt k (fold_left (aggregateSample index) l stats) =
    countAt k stats + Z.of_nat (List.length (filter (creditedBy index k) l)) /\
  cumulativeAt k (fold_left (aggregateSample index) l stats) =
    fold_left addNumeric
      (map (fun s => sampleValue s index) (filter (creditedBy index k) l))
      (cumulativeAt k stats).
Proof.
  revert stats. induction l as [| s l IH]; intros stats HW.
  - cbn. split; [lia | reflexivity].
  - cbn [fold_left filter].
    destruct (aggregateSample_creditedOnce index stats s k HW)
      as (HW' & Hc & Hv).
    destruct (IH _ HW') as (IHc & IHv).
    rewrite IHc, IHv, Hc, Hv.
    destruct (creditedBy index k s); cbn [List.length map fold_left].
    + split; [lia | reflexivity].
    + split; reflexivity.
Qed.

Lemma get_statsPercentages (totalNum : Q) (k : string)
    (stats : OMap.t FunctionStats) :
  OMap.get k (statsPercentages totalNum stats) =
  option_map
    (fun row =>
       withPercents (percentOf (fs_selfValue row) totalNum)
         (percentOf (fs_cumulativeValue row) totalNum) row)
    (OMap.get k stats).
Proof.
  induction stats as [| [k' r] stats IH]; cbn; auto.
  destruct (String.eqb k k'); auto.
Qed.

(** C3.  Scanning one sample changes the row of a key at most once: when
    the sample has a value other than zero and some frame of its stack has
    the key, [sampleCount] grows by one and [cumulativeValue] by the value,
    however many stack positions carry the key; otherwise both stay.  Over
    a profile, [sampleCount] of a row is the number of samples that credit
    its key and [cumulativeValue] the sum of their values.  For the one
    sample [[A, A, B]] of value 50 the row of [A] has [cumulativeValue] 50
    and [sampleCount] 1. *)
Theorem aggregator_credits_key_once_per_sample :
  (forall index stats sample k,
     WellKeyed stats ->
     WellKeyed (aggregateSample index stats sample) /\
     countAt k (aggregateSample index stats sample) =
       (if creditedBy index k sample then countAt k stats + 1
        else countAt k stats) /\
     cumulativeAt k (aggregateSample index stats sample) =
       (if creditedBy index k sample
        then addNumeric (cumulativeAt k stats) (sampleValue sample index)
        else cumulativeAt k stats)) /\
  (forall profile index totalValue k,
     let credited := filter (creditedBy index k) (samples profile) in
     let stats := aggregateFunctionStats profile index totalValue in
     countAt k stats = Z.of_nat (List.length credited) /\
     cumulativeAt k stats =
       fold_left addNumeric (map (fun s => sampleValue s index) credited)
         zero) /\
  (let profile :=
     Fixtures.profileOf
       [Fixtures.sampleOf
          [Fixtures.locOf "A"; Fixtures.locOf "A"; Fixtures.locOf "B"] 50] in
   exists row,
     OMap.get "A@app.js:7"
       (aggregateFunctionStats profile 0 (computeTotal profile 0)) =
       Some row /\
     fs_cumulativeValue row = JNumber 50 /\
     fs_sampleCount row = 1).
Proof.
  split; [| split].
  - intros index stats sample k HW.
    now apply aggregateSample_creditedOnce.
  - intros profile index totalValue k. cbv zeta.
    unfold aggregateFunctionStats.
    assert (HW : WellKeyed (@OMap.empty FunctionStats))
      by (intros k' r H; discriminate).
    destruct (samples_creditedOnce index k (samples profile) OMap.empty HW)
      as (Hc & Hv).
    unfold countAt, cumulativeAt in *.
    rewrite get_statsPercentages.
    destruct (OMap.get k
                (fold_left (aggregateSample index) (samples profile)
                   OMap.empty)) as [row |]; cbn in *; auto.
  - cbv zeta. eexists. split; [vm_compute; reflexivity |].
    split; reflexivity.
Qed.

Lemma aggregator_credits_key_once_per_sample_witness :
  let sample :=
    Fixtures.sampleOf
      [Fixtures.locOf "A"; Fixtures.locOf "A"; Fixtures.locOf "B"] 50 in
  countAt "A@app.js:7" (aggregateSample 0 OMap.empty sample) = 1 /\
  cumulativeAt "A@app.js:7" (aggregateSample 0 OMap.empty sample) =
    JNumber 50.
Proof.
  cbv zeta.
  assert (HW : WellKeyed (@OMap.empty FunctionStats))
    by (intros k' r H; discriminate).
  destruct (proj1 aggregator_credits_key_once_per_sample 0 OMap.empty
              (Fixtures.sampleOf
                 [Fixtures.locOf "A"; Fixtures.locOf "A"; Fixtures.locOf "B"]
                 50)
              "A@app.js:7" HW) as (_ & Hc & Hv).
  rewrite Hc, Hv. split; vm_compute; reflexivity.
Defined.

(** ** Rounding keeps the sign *)

Lemma pow2_pos (e : Z) : (0 < pow2 e)%Q.
Proof. unfold pow2. now apply Qpower_0_lt. Qed.

Lemma roundHalfEven_bounds (q : Q) :
  Qfloor q <= roundHalfEven q <= Qfloor q + 1.
Proof.
  unfold roundHalfEven.
  destruct (Qcompare (q - inject_Z (Qfloor q)) (1 # 2)); [| lia | lia].
  destruct (Z.even (Qfloor q)); lia.
Qed.

Lemma roundHalfEven_ge (q : Q) (z : Z) :
  (inject_Z z <= q)%Q -> z <= roundHalfEven q.
Proof.
  intro H. apply Qfloor_resp_le in H. rewrite Qfloor_Z in H.
  pose proof (roundHalfEven_bounds q). lia.
Qed.

Lemma roundPositive_nonneg (q : Q) : (0 <= q)%Q -> (0 <= roundPositive q)%Q.
Proof.
  intro H. unfold roundPositive.
  set (e := Z.max (ilog2 q - 52) (-1074)).
  apply Qmult_le_0_compat; [| apply Qlt_le_weak, pow2_pos].
  change 0%Q with (inject_Z 0). rewrite <- Zle_Qle.
  apply roundHalfEven_ge. cbn.
  apply Qle_shift_div_l; [apply pow2_pos |]. now rewrite Qmult_0_l.
Qed.

Lemma Qnum_sign (q : Q) :
  match Qnum q with
  | Z0 => q == 0
  | Zpos _ => (0 < q)%Q
  | Zneg _ => (q < 0)%Q
  end.
Proof.
  destruct q as [[| n | n] d]; cbn; unfold Qeq, Qlt; cbn; lia.
Qed.

(** A number that is not positive does not round to a positive one. *)
Lemma toDouble_nonpos (x : Q) : (x <= 0)%Q -> (toDouble x <= 0)%Q.
Proof.
  intro H. unfold toDouble.
  pose proof (Qnum_sign (Qred x)) as Hs.
  pose proof (Qred_correct x) as Hr.
  destruct (Qnum (Qred x)).
  - apply Qle_refl.
  - exfalso. rewrite Hr in Hs. apply (Qlt_not_le _ _ Hs H).
  - rewrite Qred_correct.
    assert (0 <= roundPositive (- Qred x))%Q.
    { apply roundPositive_nonneg. rewrite Hr. lra. }
    lra.
Qed.

Lemma pow2_nonneg_exp (e : Z) : 0 <= e -> pow2 e == inject_Z (2 ^ e).
Proof. intro H. unfold pow2. now rewrite Zpower_Qpower. Qed.

Lemma pow2_add (a b : Z) : pow2 (a + b) == pow2 a * pow2 b.
Proof. unfold pow2. apply Qpower_plus. discriminate. Qed.

Lemma pow2_le (a b : Z) : a <= b -> (pow2 a <= pow2 b)%Q.
Proof. intro H. unfold pow2. apply Qpower_le_compat_l; [exact H | discriminate]. Qed.

(** The exponent found by [ilog2] is not above the number. *)
Lemma ilog2_lower (q : Q) : (0 < q)%Q -> (pow2 (ilog2 q) <= q)%Q.
Proof.
  intro Hq. unfold ilog2.
  set (g := Z.log2 (Qnum q) - Z.log2 (Zpos (Qden q))).
  destruct (Qle_bool (pow2 g) q) eqn:E; [now apply Qle_bool_iff |].
  destruct q as [n d]. cbn [Qnum Qden] in *.
  assert (Hn : 0 < n) by (unfold Qlt in Hq; cbn in Hq; lia).
  pose proof (Z.log2_spec n Hn) as [Hn1 _].
  pose proof (Z.log2_spec (Zpos d) (Pos2Z.is_pos d)) as [_ Hd2].
  pose proof (Z.log2_nonneg n) as Ha.
  pose proof (Z.log2_nonneg (Zpos d)) as Hb.
  replace (g - 1) with (Z.log2 n + - Z.succ (Z.log2 (Zpos d))) by (subst g; lia).
  rewrite pow2_add. unfold pow2 at 2. rewrite Qpower_opp.
  fold (pow2 (Z.succ (Z.log2 (Z.pos d)))).
  rewrite !pow2_nonneg_exp by lia.
  rewrite (Qmake_Qdiv n d).
  set (A := 2 ^ Z.log2 n) in *. set (B := 2 ^ Z.succ (Z.log2 (Z.pos d))) in *.
  assert (HB : 0 < B) by lia.
  assert (HBq : (0 < inject_Z B)%Q)
    by (change 0%Q with (inject_Z 0); now rewrite <- Zlt_Qlt).
  assert (Hdq : (0 < inject_Z (Z.pos d))%Q) by reflexivity.
  apply Qle_shift_div_l; [exact Hdq |].
  unfold Qdiv.
  rewrite <- Qmult_assoc, (Qmult_comm (/ inject_Z B)), Qmult_assoc.
  apply Qle_shift_div_r; [exact HBq |].
  rewrite <- !inject_Z_mult, <- Zle_Qle. nia.
Qed.

Lemma roundPositive_onGrid (q : Q) : onDoubleGrid (roundPositive q).
Proof.
  unfold roundPositive.
  set (e := Z.max (ilog2 q - 52) (-1074)).
  set (m := roundHalfEven (q / pow2 e)).
  exists (m * 2 ^ (e + 1074)).
  replace e with ((e + 1074) + -1074) at 1 by lia.
  rewrite pow2_add, pow2_nonneg_exp by lia.
  rewrite inject_Z_mult. ring.
Qed.

Lemma toDouble_onGrid (x : Q) : onDoubleGrid (toDouble x).
Proof.
  unfold toDouble. destruct (Qnum (Qred x)).
  - exists 0. ring.
  - destruct (roundPositive_onGrid (Qred x)) as [k Hk].
    exists k. now rewrite Qred_correct.
  - destruct (roundPositive_onGrid (- Qred x)) as [k Hk].
    exists (- k). rewrite Qred_correct, Hk, inject_Z_opp. ring.
Qed.

Lemma onGrid_minus (a b : Q) :
  onDoubleGrid a -> onDoubleGrid b -> onDoubleGrid (a - b).
Proof.
  intros [k Hk] [j Hj]. exists (k - j).
  rewrite Hk, Hj. unfold Z.sub. rewrite inject_Z_plus, inject_Z_opp. ring.
Qed.

Lemma onGrid_proper (a b : Q) : a == b -> onDoubleGrid a -> onDoubleGrid b.
Proof. intros E [k Hk]. exists k. now rewrite <- E. Qed.

(** A positive multiple of 2^-1074 rounds to a positive double. *)
Lemma roundPositive_pos (q : Q) :
  (0 < q)%Q -> onDoubleGrid q -> (0 < roundPositive q)%Q.
Proof.
  intros Hq [k Hk]. unfold roundPositive.
  set (e := Z.max (ilog2 q - 52) (-1074)).
  assert (He : (pow2 e <= q)%Q).
  { destruct (Z.max_spec (ilog2 q - 52) (-1074)) as [[_ Hm] | [_ Hm]];
      fold e in Hm; rewrite Hm.
    - assert (Hk1 : 1 <= k).
      { destruct (Z.le_gt_cases k 0) as [Hle | Hgt]; [| lia].
        exfalso. apply (Qlt_not_le _ _ Hq). rewrite Hk.
        setoid_replace 0%Q with (0 * pow2 (-1074))%Q by ring.
        apply Qmult_le_compat_r; [| apply Qlt_le_weak, pow2_pos].
        change 0%Q with (inject_Z 0). now rewrite <- Zle_Qle. }
      rewrite Hk.
      setoid_replace (pow2 (-1074)) with (1 * pow2 (-1074))%Q at 1 by ring.
      apply Qmult_le_compat_r; [| apply Qlt_le_weak, pow2_pos].
      change 1%Q with (inject_Z 1). now rewrite <- Zle_Qle.
    - apply Qle_trans with (pow2 (ilog2 q)); [apply pow2_le; lia |].
      now apply ilog2_lower. }
  apply Qmult_lt_0_compat; [| apply pow2_pos].
  change 0%Q with (inject_Z 0). rewrite <- Zlt_Qlt.
  assert (1 <= roundHalfEven (q / pow2 e)); [| lia].
  apply roundHalfEven_ge. apply Qle_shift_div_l; [apply pow2_pos |].
  now rewrite Qmult_1_l.
Qed.

Lemma toDouble_pos (x : Q) :
  (0 < x)%Q -> onDoubleGrid x -> (0 < toDouble x)%Q.
Proof.
  intros Hx Hg. unfold toDouble.
  pose proof (Qnum_sign (Qred x)) as Hs.
  pose proof (Qred_correct x) as Hr.
  destruct (Qnum (Qred x)).
  - exfalso. rewrite Hr in Hs. rewrite Hs in Hx. discriminate.
  - rewrite Qred_correct. apply roundPositive_pos; [exact Hs |].
    apply (onGrid_proper x); [now symmetry | exact Hg].
  - exfalso. rewrite Hr in Hs. apply (Qlt_irrefl 0). now apply Qlt_trans with x.
Qed.

(** The sign test of a comparator [b - a] on two doubles is the
    comparison of the doubles. *)
Lemma numSub_sign (a b : Q) :
  onDoubleGrid a -> onDoubleGrid b ->
  Qle_bool (numSub b a) 0 = true <-> (b <= a)%Q.
Proof.
  intros Ha Hb. unfold numSub. rewrite Qle_bool_iff. split.
  - intro H. destruct (Qlt_le_dec a b) as [Hlt | Hle]; [| exact Hle].
    exfalso. apply (Qlt_not_le 0 (toDouble (b - a))); [| exact H].
    apply toDouble_pos; [lra | now apply onGrid_minus].
  - intro H. apply toDouble_nonpos. lra.
Qed.

(** ** Rounding is exact on the integers below 2^53 *)

Lemma Qred_inject_Z (z : Z) : Qred (inject_Z z) = inject_Z z.
Proof.
  unfold Qred, inject_Z.
  pose proof (Z.ggcd_gcd z 1) as Hg.
  pose proof (Z.ggcd_correct_divisors z 1) as Hd.
  destruct (Z.ggcd z 1) as [g [aa bb]]. cbn [fst] in Hg.
  rewrite Z.gcd_1_r in Hg. subst g. destruct Hd as [Ha Hb].
  rewrite Z.mul_1_l in Ha, Hb. subst aa bb. reflexivity.
Qed.

Lemma roundHalfEven_integer (x : Q) (z : Z) :
  x == inject_Z z -> roundHalfEven x = z.
Proof.
  intro H. unfold roundHalfEven.
  assert (Hf : Qfloor x = z)
    by (rewrite (Qfloor_comp x (inject_Z z) H); apply Qfloor_Z).
  rewrite Hf.
  replace (Qcompare (x - inject_Z z) (1 # 2)) with Lt; [reflexivity |].
  symmetry. apply Qlt_alt. rewrite H.
  setoid_replace (inject_Z z - inject_Z z)%Q with 0%Q by ring. reflexivity.
Qed.

Lemma pow2_nonpos_exp (e : Z) :
  e <= 0 -> pow2 e == / inject_Z (2 ^ (- e)).
Proof.
  intro H. unfold pow2.
  replace e with (- - e) at 1 by lia.
  rewrite Qpower_opp. fold (pow2 (- e)).
  now rewrite pow2_nonneg_exp by lia.
Qed.

Lemma ilog2_upper (q : Q) :
  ilog2 q <= Z.log2 (Qnum q) - Z.log2 (Zpos (Qden q)).
Proof.
  unfold ilog2.
  destruct (Qle_bool _ q); lia.
Qed.

Lemma roundPositive_integer (n : Z) :
  0 < n < 2 ^ 53 -> roundPositive (inject_Z n) == inject_Z n.
Proof.
  intros [Hn0 Hn1]. unfold roundPositive.
  set (e := Z.max (ilog2 (inject_Z n) - 52) (-1074)).
  assert (He : e <= 0).
  { pose proof (ilog2_upper (inject_Z n)) as Hu. cbn in Hu.
    assert (Z.log2 n < 53) by (apply Z.log2_lt_pow2; lia).
    subst e. lia. }
  assert (Hp : 0 < 2 ^ (- e)) by (apply Z.pow_pos_nonneg; lia).
  assert (Hq : ~ inject_Z (2 ^ (- e)) == 0).
  { intro E. unfold Qeq in E. cbn in E. lia. }
  rewrite (roundHalfEven_integer _ (n * 2 ^ (- e))).
  - rewrite (pow2_nonpos_exp e He), inject_Z_mult. now field.
  - rewrite (pow2_nonpos_exp e He), inject_Z_mult. now field.
Qed.

(** Integers below 2^53 are doubles. *)
Lemma toDouble_integer (n : Z) :
  0 <= n < 2 ^ 53 -> toDouble (inject_Z n) = inject_Z n.
Proof.
  intros [Hn0 Hn1]. unfold toDouble. rewrite Qred_inject_Z.
  destruct n as [| p | p]; [reflexivity | | lia].
  cbn [Qnum inject_Z]. fold (inject_Z (Zpos p)).
  rewrite <- (Qred_inject_Z (Zpos p)) at 2.
  apply Qred_complete. apply roundPositive_integer. lia.
Qed.

(** ** Sorting *)

Lemma insertBy_perm {A : Type} (cmp : A -> A -> Q) (x : A) (l : list A) :
  Permutation (insertBy cmp x l) (x :: l).
Proof.
  induction l as [| y l IH]; cbn; [reflexivity |].
  destruct (Qle_bool (cmp x y) 0); [reflexivity |].
  rewrite IH. apply perm_swap.
Qed.

Lemma sortBy_perm {A : Type} (cmp : A -> A -> Q) (l : list A) :
  Permutation (sortBy cmp l) l.
Proof.
  induction l as [| x l IH]; cbn; [reflexivity |].
  fold (sortBy cmp l). rewrite insertBy_perm. now constructor.
Qed.

Lemma sortBy_length {A : Type} (cmp : A -> A -> Q) (l : list A) :
  List.length (sortBy cmp l) = List.length l.
Proof. apply Permutation_length, sortBy_perm. Qed.

Lemma sortBy_In {A : Type} (cmp : A -> A -> Q) (l : list A) (x : A) :
  In x (sortBy cmp l) <-> In x l.
Proof.
  split; apply Permutation_in; [| symmetry]; apply sortBy_perm.
Qed.

Section Descending.

Variable A : Type.
Variable key : A -> Q.

Lemma insertBy_descending (x : A) (l : list A) :
  DoubleKey key x -> Forall (DoubleKey key) l ->
  Sorted (Descends key) l ->
  Sorted (Descends key) (insertBy (descending key) x l).
Proof.
  intros Hx. induction l as [| y l IH]; intros Hall Hs; cbn.
  - repeat constructor.
  - inversion Hall as [| ? ? Hy Hl']; subst.
    destruct (Qle_bool (descending key x y) 0) eqn:E.
    + constructor; [exact Hs |]. constructor.
      apply (numSub_sign (key x) (key y)); auto.
    + assert (Hyx : Descends key y x).
      { unfold Descends. destruct (Qlt_le_dec (key x) (key y)) as [H | H].
        - apply Qlt_le_weak, H.
        - apply (numSub_sign (key x) (key y)) in H; auto.
          unfold descending in E. congruence. }
      inversion Hs as [| ? ? Hl Hhd]; subst.
      constructor; [now apply IH |].
      destruct l as [| z l]; cbn.
      * now constructor.
      * destruct (Qle_bool (descending key x z) 0); constructor; auto.
        now inversion Hhd.
Qed.

Lemma sortBy_descending (l : list A) :
  Forall (DoubleKey key) l ->
  Sorted (Descends key) (sortBy (descending key) l).
Proof.
  induction l as [| x l IH]; intro Hall; cbn; [constructor |].
  inversion Hall as [| ? ? Hx Hl]; subst.
  apply insertBy_descending; auto.
  apply (Permutation_Forall (x := l)); [| exact Hl].
  symmetry. apply sortBy_perm.
Qed.

Lemma sorted_adjacent (l : list A) (i : nat) (a b : A) :
  Sorted (Descends key) l ->
  nth_error l i = Some a -> nth_error l (S i) = Some b ->
  Descends key a b.
Proof.
  revert i. induction l as [| x l IH]; intros i Hs Ha Hb.
  - destruct i; discriminate.
  - inversion Hs as [| ? ? Hl Hhd]; subst.
    destruct i as [| i].
    + cbn in Ha, Hb. injection Ha as ->.
      destruct l as [| y l]; [discriminate |].
      cbn in Hb. injection Hb as ->. now inversion Hhd.
    + cbn in Ha. apply (IH i); auto.
Qed.

End Descending.

(** ** Hotspots (C8) *)

Lemma isHot_iff (threshold : Q) (row : FunctionStats) :
  isHot threshold row = true <->
  (numMul threshold 100 <= fs_selfPercent row)%Q.
Proof. unfold isHot. apply Qle_bool_iff. Qed.

Lemma identifyHotspots_descending
    (functionStats : OMap.t FunctionStats) (threshold : Q) :
  Forall (fun row => onDoubleGrid (fs_selfPercent row))
    (OMap.values functionStats) ->
  Sorted (Descends h_selfPercent) (identifyHotspots functionStats threshold).
Proof.
  intro Hgrid. unfold identifyHotspots.
  apply (sortBy_descending Hotspot h_selfPercent).
  apply Forall_map, Forall_forall. intros row Hin.
  apply filter_In in Hin. rewrite Forall_forall in Hgrid.
  apply Hgrid. tauto.
Qed.

(** C8.  The hotspots are the projections of exactly the rows whose
    [selfPercent] is at least [threshold * 100], each row once, in
    descending order of [selfPercent]: of two adjacent hotspots the first
    has the larger or the same [selfPercent].  The percentages are
    doubles, as the ones the aggregator computes are. *)
Theorem identifyHotspots_selects_and_sorts
    (functionStats : OMap.t FunctionStats) (threshold : Q) :
  Forall (fun row => onDoubleGrid (fs_selfPercent row))
    (OMap.values functionStats) ->
  let hotspots := identifyHotspots functionStats threshold in
  Permutation hotspots
    (map toHotspot
       (filter (isHot threshold) (OMap.values functionStats))) /\
  (forall h, In h hotspots <->
     exists row, In row (OMap.values functionStats) /\
       (numMul threshold 100 <= fs_selfPercent row)%Q /\
       h = toHotspot row) /\
  (forall i a b,
     nth_error hotspots i = Some a -> nth_error hotspots (S i) = Some b ->
     (h_selfPercent a >= h_selfPercent b)%Q).
Proof.
  intros Hgrid hotspots.
  pose proof (identifyHotspots_descending functionStats threshold Hgrid)
    as Hsorted.
  fold hotspots in Hsorted.
  assert (Hperm : Permutation hotspots
                    (map toHotspot
                       (filter (isHot threshold)
                          (OMap.values functionStats))))
    by apply sortBy_perm.
  split; [exact Hperm |]. split.
  - intro h. split.
    + intro Hin. apply (Permutation_in _ Hperm) in Hin.
      apply in_map_iff in Hin. destruct Hin as (row & <- & Hin).
      apply filter_In in Hin. destruct Hin as (Hin & Hhot).
      exists row. repeat split; auto. now apply isHot_iff.
    + intros (row & Hin & Hhot & ->).
      apply (Permutation_in _ (Permutation_sym Hperm)).
      apply in_map, filter_In. split; auto. now apply isHot_iff.
  - intros i a b Ha Hb.
    exact (sorted_adjacent Hotspot h_selfPercent hotspots i a b
             Hsorted Ha Hb).
Qed.

(** With the threshold 0.01, two of the four rows are hot, hottest first. *)
Lemma identifyHotspots_selects_and_sorts_witness :
  map h_name (identifyHotspots RankExample.rows (toDouble (1 # 100))) =
    ["B"; "A"] /\
  forall i a b,
    nth_error (identifyHotspots RankExample.rows (toDouble (1 # 100))) i =
      Some a ->
    nth_error (identifyHotspots RankExample.rows (toDouble (1 # 100))) (S i) =
      Some b ->
    (h_selfPercent a >= h_selfPercent b)%Q.
Proof.
  split; [vm_compute; reflexivity |].
  apply (identifyHotspots_selects_and_sorts RankExample.rows
           (toDouble (1 # 100))).
  repeat constructor; cbn [fs_selfPercent RankExample.rowOf].
  - exists (25 * 2 ^ 1074). vm_compute. reflexivity.
  - exists (75 * 2 ^ 1074). vm_compute. reflexivity.
  - exists 0. vm_compute. reflexivity.
  - exists (2 ^ 1073). vm_compute. reflexivity.
Defined.

Lemma statsPercentages_onGrid (totalNum : Q) (stats : OMap.t FunctionStats) :
  Forall (fun row => onDoubleGrid (fs_selfPercent row))
    (OMap.values (statsPercentages totalNum stats)).
Proof.
  unfold OMap.values, statsPercentages. rewrite map_map.
  apply Forall_map, Forall_forall. intros kv _. cbn.
  apply toDouble_onGrid.
Qed.

(** The hotspots of every returned result are in descending order. *)
Lemma analyzeProfile_hotspots_sorted
    (profile : NormalizedProfile) (options : AnalyzeOptions)
    (r : AnalysisResult) (i : nat) (a b : Hotspot) :
  analyzeProfile profile options = Returns r ->
  nth_error (r_hotspots r) i = Some a ->
  nth_error (r_hotspots r) (S i) = Some b ->
  (h_selfPercent a >= h_selfPercent b)%Q.
Proof.
  unfold analyzeProfile.
  destruct (jsIndex (sampleTypes profile) (resolvedIndex options));
    [| discriminate].
  destruct (isZero (computeTotal profile (resolvedIndex options)));
    intro H; injection H as <-; cbn [r_hotspots].
  - destruct i; discriminate.
  - intros Ha Hb.
    refine (sorted_adjacent Hotspot h_selfPercent _ i a b _ Ha Hb).
    apply identifyHotspots_descending, statsPercentages_onGrid.
Qed.

(** ** Critical paths (C7) *)

Section TreeInduction.

Variable P : CallTreeNode -> Prop.
Hypothesis step :
  forall node, Forall (fun kv => P (snd kv)) (ct_children node) -> P node.

Fixpoint tree_induction (node : CallTreeNode) : P node :=
  step node
    ((fix children (l : list (string * CallTreeNode))
        : Forall (fun kv => P (snd kv)) l :=
        match l with
        | [] => Forall_nil _
        | kv :: l' => Forall_cons kv (tree_induction (snd kv)) (children l')
        end) (ct_children node)).

End TreeInduction.

Lemma insertBy_map {A B : Type} (g : A -> B) (cmp : A -> A -> Q)
    (cmp' : B -> B -> Q) (x : A) (l : list A) :
  (forall a b, cmp' (g a) (g b) = cmp a b) ->
  insertBy cmp' (g x) (map g l) = map g (insertBy cmp x l).
Proof.
  intro H. induction l as [| y l IH]; cbn; [reflexivity |].
  rewrite H. destruct (Qle_bool (cmp x y) 0); cbn; [reflexivity |].
  now rewrite IH.
Qed.

Lemma sortBy_map {A B : Type} (g : A -> B) (cmp : A -> A -> Q)
    (cmp' : B -> B -> Q) (l : list A) :
  (forall a b, cmp' (g a) (g b) = cmp a b) ->
  sortBy cmp' (map g l) = map g (sortBy cmp l).
Proof.
  intro H. induction l as [| x l IH]; cbn; [reflexivity |].
  fold (sortBy cmp' (map g l)). fold (sortBy cmp l).
  rewrite IH. now apply insertBy_map.
Qed.

(** [traverse] as the source writes it: the children sorted by
    [cumulativeValue], the hottest one visited with the anchor of the
    node, the others by the loop from index 1. *)
Lemma traverse_unfold (maxPaths : nat) (node : CallTreeNode)
    (currentPath : list PathNode) (cumulativePercent : Q)
    (paths : list CriticalPath) :
  traverse maxPaths node currentPath cumulativePercent paths =
  let newPath := currentPath ++ [pathNodeOf node] in
  match sortBy byCumulativeValue (OMap.values (ct_children node)) with
  | [] =>
      paths ++ [{| cp_path := newPath;
                   cp_cumulativePercent := cumulativePercent |}]
  | hottestChild :: rest =>
      otherChildren maxPaths newPath
        (map (fun c => (c, traverse maxPaths c)) rest)
        (traverse maxPaths hottestChild newPath cumulativePercent paths)
  end.
Proof.
  destruct node as [k n f l sv cv sp cp children].
  cbn [traverse ct_children]. cbv zeta.
  unfold OMap.values.
  rewrite <- (map_map snd (fun c => (c, traverse maxPaths c)) children).
  rewrite (sortBy_map (fun c => (c, traverse maxPaths c)) byCumulativeValue)
    by reflexivity.
  destruct (sortBy byCumulativeValue (map snd children)); reflexivity.
Qed.

Lemma chain_head (node : CallTreeNode) (chain : list PathNode) :
  HottestChain node chain -> exists more, chain = pathNodeOf node :: more.
Proof. intros [n H | n h r c H1 H2]; eexists; reflexivity. Qed.

Lemma anchored_lift (path : list PathNode) (node child : CallTreeNode)
    (anchor a : Q) (cp : CriticalPath) :
  Anchored (path ++ [pathNodeOf node]) child a cp ->
  a = anchor \/
  (a = ct_cumulativePercent child /\ (5 <= ct_cumulativePercent child)%Q) ->
  Anchored path node anchor cp.
Proof.
  intros (more & Hpath & Hpct) Ha.
  exists (pathNodeOf child :: more). split.
  - rewrite Hpath, <- app_assoc. reflexivity.
  - destruct Hpct as [Hpct | (pn & Hin & Hpn & H5)].
    + destruct Ha as [-> | [-> H5]]; [now left |].
      right. exists (pathNodeOf child). split; [now left |]. auto.
    + right. exists pn. split; [now right |]. auto.
Qed.

Lemma otherChildren_anchored (maxPaths : nat) (path : list PathNode)
    (node : CallTreeNode) (anchor : Q) (rest : list CallTreeNode) :
  Forall (RecordsAnchored maxPaths) rest ->
  forall paths,
  exists news,
    otherChildren maxPaths (path ++ [pathNodeOf node])
      (map (fun c => (c, traverse maxPaths c)) rest) paths = paths ++ news /\
    Forall (Anchored path node anchor) news.
Proof.
  induction rest as [| c rest IH]; intros Hall paths.
  - exists []. cbn. now rewrite app_nil_r.
  - inversion Hall as [| ? ? Hc Hrest]; subst.
    cbn [map otherChildren].
    destruct (Nat.ltb (List.length paths) (maxPaths * 2));
      [| exists []; now rewrite app_nil_r].
    destruct (Qle_bool 5 (ct_cumulativePercent c)) eqn:E5.
    + destruct (Hc (path ++ [pathNodeOf node]) (ct_cumulativePercent c) paths)
        as (chain & r1 & _ & Heq & Hanch).
      rewrite Heq.
      destruct (IH Hrest
                  (paths ++ {| cp_path := (path ++ [pathNodeOf node]) ++ chain;
                               cp_cumulativePercent := ct_cumulativePercent c |}
                     :: r1)) as (news & Hn & Hall').
      rewrite Hn, <- app_assoc. eexists. split; [reflexivity |].
      apply Forall_app. split; [| exact Hall'].
      apply Qle_bool_iff in E5.
      eapply Forall_impl; [| exact Hanch].
      intros cp Hcp. apply (anchored_lift _ _ c _ _ _ Hcp). right. auto.
    + apply (IH Hrest).
Qed.

Lemma traverse_records_anchored (maxPaths : nat) (node : CallTreeNode) :
  RecordsAnchored maxPaths node.
Proof.
  induction node as [node IH] using tree_induction.
  intros path anchor paths. rewrite traverse_unfold. cbv zeta.
  assert (Hsorted : Forall (RecordsAnchored maxPaths)
                      (sortBy byCumulativeValue
                         (OMap.values (ct_children node)))).
  { apply Forall_forall. intros c Hc. apply sortBy_In in Hc.
    unfold OMap.values in Hc. apply in_map_iff in Hc.
    destruct Hc as (kv & <- & Hkv).
    rewrite Forall_forall in IH. now apply IH. }
  destruct (sortBy byCumulativeValue (OMap.values (ct_children node)))
    as [| hot rest] eqn:Es.
  - assert (Hleaf : ct_children node = []).
    { apply (f_equal (@List.length _)) in Es.
      rewrite sortBy_length in Es. unfold OMap.values in Es.
      rewrite length_map in Es. now destruct (ct_children node). }
    exists [pathNodeOf node], []. split; [now constructor |].
    split; [reflexivity |].
    constructor; [| constructor].
    exists []. split; [reflexivity | now left].
  - inversion Hsorted as [| ? ? Hhot Hrest]; subst.
    destruct (Hhot (path ++ [pathNodeOf node]) anchor paths)
      as (chain & r1 & Hchain & Heq & Hanch).
    assert (Hp : (path ++ [pathNodeOf node]) ++ chain =
                 path ++ pathNodeOf node :: chain)
      by (now rewrite <- app_assoc).
    rewrite Hp in Heq, Hanch. rewrite Heq.
    destruct (otherChildren_anchored maxPaths path node anchor rest Hrest
                (paths ++ {| cp_path := path ++ pathNodeOf node :: chain;
                             cp_cumulativePercent := anchor |} :: r1))
      as (news & Hn & Hall).
    rewrite Hn, <- !app_assoc. cbn [app].
    exists (pathNodeOf node :: chain), (r1 ++ news).
    split; [now apply (chain_step node hot rest) |].
    split; [reflexivity |].
    change ({| cp_path := path ++ pathNodeOf node :: chain;
               cp_cumulativePercent := anchor |} :: r1 ++ news)
      with (({| cp_path := path ++ pathNodeOf node :: chain;
                cp_cumulativePercent := anchor |} :: r1) ++ news).
    apply Forall_app. split; [| exact Hall].
    eapply Forall_impl; [| exact Hanch].
    intros cp Hcp. apply (anchored_lift _ _ hot _ _ _ Hcp). now left.
Qed.

Lemma in_firstn {A : Type} (n : nat) (l : list A) (x : A) :
  In x (firstn n l) -> In x l.
Proof.
  revert l. induction n as [| n IH]; intros [| y l] H;
    cbn [firstn] in H; try contradiction.
  destruct H as [-> | H]; [now left | right; auto].
Qed.

Lemma traverse_leaf (maxPaths : nat) (node : CallTreeNode)
    (path : list PathNode) (anchor : Q) (paths : list CriticalPath) :
  ct_children node = [] ->
  traverse maxPaths node path anchor paths =
  paths ++ [{| cp_path := path ++ [pathNodeOf node];
               cp_cumulativePercent := anchor |}].
Proof.
  intro H. rewrite traverse_unfold, H. reflexivity.
Qed.

Lemma starts_anchored (maxPaths : nat) (starts : list CallTreeNode)
    (paths : list CriticalPath) :
  exists news,
    fold_left
      (fun paths child =>
         traverse maxPaths child [] (ct_cumulativePercent child) paths)
      starts paths = paths ++ news /\
    Forall (fun cp => exists start, In start starts /\
              Anchored [] start (ct_cumulativePercent start) cp) news.
Proof.
  revert paths. induction starts as [| c starts IH]; intro paths.
  - exists []. cbn. now rewrite app_nil_r.
  - cbn [fold_left].
    destruct (traverse_records_anchored maxPaths c []
                (ct_cumulativePercent c) paths)
      as (chain & r1 & _ & Heq & Hanch).
    rewrite Heq.
    destruct (IH (paths ++ {| cp_path := [] ++ chain;
                              cp_cumulativePercent := ct_cumulativePercent c |}
                    :: r1)) as (news & Hn & Hall).
    rewrite Hn, <- app_assoc. eexists. split; [reflexivity |].
    apply Forall_app. split.
    + eapply Forall_impl; [| exact Hanch].
      intros cp Hcp. exists c. split; [now left | exact Hcp].
    + eapply Forall_impl; [| exact Hall].
      intros cp (start & Hin & Hcp). exists start. split; [now right | auto].
Qed.

Lemma extracted_paths_anchored (callTree : CallTreeNode) (maxPaths : nat)
    (cp : CriticalPath) :
  In cp (extractCriticalPaths callTree maxPaths) ->
  exists start,
    In start (OMap.values (ct_children callTree)) /\
    Anchored [] start (ct_cumulativePercent start) cp.
Proof.
  unfold extractCriticalPaths. intro H.
  apply in_firstn, sortBy_In in H.
  destruct (starts_anchored maxPaths
              (firstn maxPaths
                 (sortBy byCumulativeValue
                    (OMap.values (ct_children callTree)))) [])
    as (news & Heq & Hall).
  rewrite Heq in H. cbn [app] in H.
  rewrite Forall_forall in Hall.
  destruct (Hall cp H) as (start & Hin & Hcp).
  exists start. split; [| exact Hcp].
  now apply in_firstn, sortBy_In in Hin.
Qed.

Lemma isDouble_onGrid (q : Q) : isDouble q = true -> onDoubleGrid q.
Proof.
  unfold isDouble. intro H. apply andb_true_iff in H. destruct H as [H _].
  apply Qeq_bool_iff in H.
  destruct (toDouble_onGrid q) as [k Hk]. exists k. now rewrite <- H.
Qed.

Lemma doubleValues_children (node child : CallTreeNode) :
  doubleValues node = true ->
  In child (OMap.values (ct_children node)) ->
  doubleValues child = true /\ onDoubleGrid (cumulativeNum child).
Proof.
  intros H Hin. destruct node as [k n f l sv cv sp cp children].
  cbn [doubleValues ct_children] in *.
  apply andb_true_iff in H. destruct H as [_ H].
  rewrite forallb_forall in H.
  unfold OMap.values in Hin. apply in_map_iff in Hin.
  destruct Hin as (kv & <- & Hkv). specialize (H kv Hkv).
  split; [exact H |].
  destruct (snd kv). cbn [doubleValues] in H.
  apply andb_true_iff in H. destruct H as [H _].
  now apply isDouble_onGrid.
Qed.

(** What the comparator of the sort says on doubles. *)
Lemma byCumulativeValue_sign (a b : CallTreeNode) :
  onDoubleGrid (cumulativeNum a) -> onDoubleGrid (cumulativeNum b) ->
  (Qle_bool (byCumulativeValue a b) 0 = true <->
   (cumulativeNum b <= cumulativeNum a)%Q).
Proof. intros Ha Hb. now apply numSub_sign. Qed.

(** The head of the sorted children is the hottest child. *)
Lemma sortBy_hottest (children : list CallTreeNode) :
  Forall (fun c => onDoubleGrid (cumulativeNum c)) children ->
  forall hot rest,
    sortBy byCumulativeValue children = hot :: rest ->
    HottestOf children hot rest.
Proof.
  induction 1 as [| x l Hx Hl IH]; intros hot rest Hs; [discriminate |].
  cbn [sortBy fold_right] in Hs. fold (sortBy byCumulativeValue l) in Hs.
  pose proof (sortBy_perm byCumulativeValue l) as Hperm.
  destruct (sortBy byCumulativeValue l) as [| h r] eqn:El.
  - apply Permutation_nil in Hperm. subst l.
    cbn in Hs. injection Hs as <- <-.
    exists [], []. repeat split; constructor.
  - specialize (IH h r eq_refl).
    destruct IH as (pre & post & Hsplit & Hpre & Hpost & Hothers).
    assert (Hh : onDoubleGrid (cumulativeNum h)).
    { rewrite Forall_forall in Hl. apply Hl.
      apply (Permutation_in h Hperm). now left. }
    cbn [insertBy] in Hs.
    destruct (Qle_bool (byCumulativeValue x h) 0) eqn:Ec.
    + injection Hs as <- <-.
      apply (byCumulativeValue_sign x h Hx Hh) in Ec.
      exists [], l. split; [reflexivity |]. split; [constructor |].
      split; [| cbn; now apply Permutation_sym].
      rewrite Hsplit. apply Forall_app. split.
      * eapply Forall_impl; [| exact Hpre]. cbn. intros c Hc.
        apply Qlt_le_weak in Hc. now apply (Qle_trans _ _ _ Hc).
      * constructor; [exact Ec |].
        eapply Forall_impl; [| exact Hpost]. cbn. intros c Hc.
        now apply (Qle_trans _ _ _ Hc).
    + injection Hs as <- <-.
      assert (Hlt : (cumulativeNum x < cumulativeNum h)%Q).
      { apply Qnot_le_lt. intro Hle.
        apply (byCumulativeValue_sign x h Hx Hh) in Hle. congruence. }
      exists (x :: pre), post. split; [now rewrite Hsplit |].
      split; [now constructor |]. split; [exact Hpost |].
      etransitivity; [apply insertBy_perm |].
      cbn. now constructor.
Qed.

(** The hottest child is determined by the children. *)
Lemma hottestOf_unique (children : list CallTreeNode)
    (hot hot' : CallTreeNode) (others others' : list CallTreeNode) :
  HottestOf children hot others -> HottestOf children hot' others' ->
  hot = hot' /\ Permutation others others'.
Proof.
  intros (pre & post & -> & Hpre & Hpost & Ho)
         (pre' & post' & Hsplit & Hpre' & Hpost' & Ho').
  assert (Hsame : pre = pre' /\ hot = hot' /\ post = post').
  { clear Ho Ho'. revert pre' Hsplit Hpre'.
    induction pre as [| a pre IH]; intros [| a' pre'] Hsplit Hpre'.
    - cbn in Hsplit. injection Hsplit as -> ->. auto.
    - cbn in Hsplit. injection Hsplit as -> ->.
      exfalso. inversion Hpre' as [| ? ? Hlt _]; subst.
      assert (Hin : In hot' (pre' ++ hot' :: post'))
        by (apply in_elt).
      rewrite Forall_forall in Hpost. specialize (Hpost _ Hin).
      apply (Qlt_not_le _ _ Hlt Hpost).
    - cbn in Hsplit. injection Hsplit as -> <-.
      exfalso. inversion Hpre as [| ? ? Hlt _]; subst.
      assert (Hin : In hot (pre ++ hot :: post)) by (apply in_elt).
      rewrite Forall_forall in Hpost'. specialize (Hpost' _ Hin).
      apply (Qlt_not_le _ _ Hlt Hpost').
    - cbn in Hsplit. injection Hsplit as -> Hsplit.
      inversion Hpre; inversion Hpre'; subst.
      destruct (IH ltac:(assumption) pre' Hsplit ltac:(assumption))
        as (-> & -> & ->).
      auto. }
  destruct Hsame as (-> & -> & ->). split; [reflexivity |].
  etransitivity; [exact Ho | now apply Permutation_sym].
Qed.

Lemma records_of_leaf (node : CallTreeNode) (path : list PathNode)
    (anchor : Q) (cp : CriticalPath) :
  ct_children node = [] -> Records node path anchor cp ->
  cp = {| cp_path := path ++ [pathNodeOf node];
          cp_cumulativePercent := anchor |}.
Proof.
  intros Hleaf H.
  inversion H as [| ? ? ? ? ? ? (pre & post & Hs & _) | ? ? ? ? ? ? ? (pre & post & Hs & _)];
    subst; [reflexivity | |];
    rewrite Hleaf in Hs; cbn in Hs; now destruct pre.
Qed.

Lemma otherChildren_records (maxPaths : nat) (newPath : list PathNode)
    (rest : list CallTreeNode) :
  Forall (RecordsAll maxPaths) rest ->
  forall paths,
  exists news,
    otherChildren maxPaths newPath
      (map (fun c => (c, traverse maxPaths c)) rest) paths = paths ++ news /\
    Forall (fun cp => exists child,
              In child rest /\ (5 <= ct_cumulativePercent child)%Q /\
              Records child newPath (ct_cumulativePercent child) cp) news /\
    ((List.length (paths ++ news) < maxPaths * 2)%nat ->
     forall child cp,
       In child rest -> (5 <= ct_cumulativePercent child)%Q ->
       Records child newPath (ct_cumulativePercent child) cp ->
       In cp news).
Proof.
  induction rest as [| c rest IH]; intros Hall paths.
  - exists []. cbn. rewrite app_nil_r. split; [reflexivity |].
    split; [constructor | intros _ child cp []].
  - inversion Hall as [| ? ? Hc Hrest]; subst.
    cbn [map otherChildren].
    destruct (Nat.ltb_spec (List.length paths) (maxPaths * 2)) as [Hlt | Hge].
    + destruct (Qle_bool 5 (ct_cumulativePercent c)) eqn:E5.
      * destruct (Hc newPath (ct_cumulativePercent c) paths)
          as (n1 & Heq & _ & Hsound & Hcomplete).
        rewrite Heq.
        destruct (IH Hrest (paths ++ n1)) as (n2 & Heq2 & Hsound2 & Hcomplete2).
        rewrite Heq2, <- app_assoc. exists (n1 ++ n2).
        split; [reflexivity |]. split.
        -- apply Forall_app. split.
           ++ eapply Forall_impl; [| exact Hsound]. cbn. intros cp Hcp.
              exists c. split; [now left |].
              split; [now apply Qle_bool_iff | exact Hcp].
           ++ eapply Forall_impl; [| exact Hsound2]. cbn.
              intros cp (child & Hin & H5 & Hcp).
              exists child. split; [now right | auto].
        -- intros Hlen child cp [<- | Hin] H5 Hcp; apply in_or_app.
           ++ left. apply Hcomplete; [| exact Hcp].
              rewrite !length_app in *. lia.
           ++ right. apply (Hcomplete2 ltac:(now rewrite <- app_assoc)
                              child cp Hin H5 Hcp).
      * destruct (IH Hrest paths) as (n2 & Heq2 & Hsound2 & Hcomplete2).
        exists n2. split; [exact Heq2 |]. split.
        -- eapply Forall_impl; [| exact Hsound2]. cbn.
           intros cp (child & Hin & H5 & Hcp).
           exists child. split; [now right | auto].
        -- intros Hlen child cp [<- | Hin] H5 Hcp.
           ++ apply Qle_bool_iff in H5. congruence.
           ++ apply (Hcomplete2 Hlen child cp Hin H5 Hcp).
    + exists []. rewrite app_nil_r. split; [reflexivity |].
      split; [constructor |]. intro Hlen. lia.
Qed.

Lemma traverse_records (maxPaths : nat) (node : CallTreeNode) :
  doubleValues node = true -> RecordsAll maxPaths node.
Proof.
  induction node as [node IH] using tree_induction.
  intros Hd path anchor paths. rewrite traverse_unfold. cbv zeta.
  assert (Hgrid : Forall (fun c => onDoubleGrid (cumulativeNum c))
                    (OMap.values (ct_children node))).
  { apply Forall_forall. intros c Hc.
    now apply (doubleValues_children node c Hd). }
  assert (Hsorted : Forall (RecordsAll maxPaths)
                      (sortBy byCumulativeValue
                         (OMap.values (ct_children node)))).
  { apply Forall_forall. intros c Hc. apply sortBy_In in Hc.
    destruct (doubleValues_children node c Hd Hc) as [Hdc _].
    unfold OMap.values in Hc. apply in_map_iff in Hc.
    destruct Hc as (kv & <- & Hkv).
    rewrite Forall_forall in IH. now apply IH. }
  pose proof (sortBy_hottest _ Hgrid) as Hhot.
  destruct (sortBy byCumulativeValue (OMap.values (ct_children node)))
    as [| hot rest] eqn:Es.
  - assert (Hleaf : ct_children node = []).
    { apply (f_equal (@List.length _)) in Es.
      rewrite sortBy_length in Es. unfold OMap.values in Es.
      rewrite length_map in Es. now destruct (ct_children node). }
    eexists. split; [reflexivity |]. split; [discriminate |].
    split; [constructor; [now constructor | constructor] |].
    intros _ cp Hcp. left. symmetry. now apply records_of_leaf.
  - specialize (Hhot hot rest eq_refl).
    inversion Hsorted as [| ? ? Hh Hrest]; subst.
    destruct (Hh (path ++ [pathNodeOf node]) anchor paths)
      as (n1 & Heq & Hne & Hsound & Hcomplete).
    rewrite Heq.
    destruct (otherChildren_records maxPaths (path ++ [pathNodeOf node])
                rest Hrest (paths ++ n1))
      as (n2 & Heq2 & Hsound2 & Hcomplete2).
    rewrite Heq2, <- app_assoc. exists (n1 ++ n2).
    split; [reflexivity |].
    split; [destruct n1; [congruence | discriminate] |].
    split.
    + apply Forall_app. split.
      * eapply Forall_impl; [| exact Hsound]. cbn. intros cp Hcp.
        now apply (records_hottest node hot rest).
      * eapply Forall_impl; [| exact Hsound2]. cbn.
        intros cp (child & Hin & H5 & Hcp).
        now apply (records_sibling node hot child rest).
    + intros Hlen cp Hcp. apply in_or_app.
      inversion Hcp as [? ? ? Hleaf | ? hot' others' ? ? ? Hhot' Hrec
                        | ? hot' child others' ? ? ? Hhot' Hin H5 Hrec];
        subst.
      * exfalso. apply (f_equal (@List.length _)) in Es.
        rewrite sortBy_length in Es. unfold OMap.values in Es.
        rewrite length_map, Hleaf in Es. discriminate.
      * destruct (hottestOf_unique _ _ _ _ _ Hhot Hhot') as [<- _].
        left. apply Hcomplete; [| exact Hrec].
        rewrite !length_app in *. lia.
      * destruct (hottestOf_unique _ _ _ _ _ Hhot Hhot') as [_ Hperm].
        right. apply (Hcomplete2 ltac:(now rewrite <- app_assoc)
                        child cp); auto.
        apply (Permutation_in child (Permutation_sym Hperm) Hin).
Qed.

Lemma starts_records (maxPaths : nat) (starts : list CallTreeNode) :
  Forall (fun c => doubleValues c = true) starts ->
  forall paths,
  exists news,
    fold_left
      (fun paths child =>
         traverse maxPaths child [] (ct_cumulativePercent child) paths)
      starts paths = paths ++ news /\
    Forall (fun cp => exists start, In start starts /\
              Records start [] (ct_cumulativePercent start) cp) news.
Proof.
  induction 1 as [| c starts Hc _ IH]; intro paths.
  - exists []. cbn. rewrite app_nil_r. split; [reflexivity | constructor].
  - cbn [fold_left].
    destruct (traverse_records maxPaths c Hc [] (ct_cumulativePercent c)
                paths) as (n1 & Heq & _ & Hsound & _).
    rewrite Heq.
    destruct (IH (paths ++ n1)) as (n2 & Heq2 & Hsound2).
    rewrite Heq2, <- app_assoc. exists (n1 ++ n2).
    split; [reflexivity |]. apply Forall_app. split.
    + eapply Forall_impl; [| exact Hsound]. cbn. intros cp Hcp.
      exists c. split; [now left | exact Hcp].
    + eapply Forall_impl; [| exact Hsound2]. cbn.
      intros cp (start & Hin & Hcp). exists start. split; [now right | auto].
Qed.

Lemma extracted_paths_recorded (callTree : CallTreeNode) (maxPaths : nat)
    (cp : CriticalPath) :
  doubleValues callTree = true ->
  In cp (extractCriticalPaths callTree maxPaths) ->
  exists start,
    In start (OMap.values (ct_children callTree)) /\
    Records start [] (ct_cumulativePercent start) cp.
Proof.
  unfold extractCriticalPaths. intros Hd H.
  apply in_firstn, sortBy_In in H.
  destruct (starts_records maxPaths
              (firstn maxPaths
                 (sortBy byCumulativeValue
                    (OMap.values (ct_children callTree))))) with (paths := @nil CriticalPath)
    as (news & Heq & Hall).
  { apply Forall_forall. intros c Hc. apply in_firstn, sortBy_In in Hc.
    now apply (doubleValues_children callTree c Hd). }
  rewrite Heq in H. cbn [app] in H.
  rewrite Forall_forall in Hall.
  destruct (Hall cp H) as (start & Hin & Hcp).
  exists start. split; [| exact Hcp].
  now apply in_firstn, sortBy_In in Hin.
Qed.

(** A path of [Records] never carries a percentage of its own leaf unless
    it was anchored there: its percentage is the anchor, or the
    [cumulativePercent], at least 5, of a node of the path below the one
    the traversal entered. *)
Lemma records_anchored (node : CallTreeNode) (path : list PathNode)
    (anchor : Q) (cp : CriticalPath) :
  Records node path anchor cp -> Anchored path node anchor cp.
Proof.
  induction 1 as [node path anchor Hleaf
                 | node hot others path anchor cp Hhot Hrec IH
                 | node hot child others path anchor cp Hhot Hin H5 Hrec IH].
  - exists []. split; [reflexivity | now left].
  - apply (anchored_lift _ _ hot _ _ _ IH). now left.
  - apply (anchored_lift _ _ child _ _ _ IH). right. auto.
Qed.

(** C7.  A leaf records the path that reached it with the anchor it was
    given, not its own percentage.  On a tree whose cumulative values are
    doubles the traversal of a node records paths of [Records] only: the
    hottest child (the first child of the largest [cumulativeValue]) is
    followed under the anchor the node was entered with, down to a leaf;
    another child of [cumulativePercent >= 5] starts a path under its own
    [cumulativePercent].  A traversal that ends with fewer than
    [2 * maxPaths] recorded paths (the soft cap of the loop) has recorded
    every such path, the one of each significant sibling included.  Every
    extracted path starts at a child of the root and is one of [Records]
    under the [cumulativePercent] of that child.  For the root with [P]
    (70%, leaf) and [Q] (30%, one leaf child [L]) the paths are [[P]] with
    70 and [[Q, L]] with 30; for a child [R] (100%) with the children [K]
    (40%) and [H] (60%) they are [[R, H]] with 100 and [[R, K]] with 40. *)
Theorem critical_path_anchor_semantics :
  (forall maxPaths node path anchor paths,
     ct_children node = [] ->
     traverse maxPaths node path anchor paths =
     paths ++ [{| cp_path := path ++ [pathNodeOf node];
                  cp_cumulativePercent := anchor |}]) /\
  (forall maxPaths node path anchor paths,
     doubleValues node = true ->
     exists news,
       traverse maxPaths node path anchor paths = paths ++ news /\
       news <> [] /\
       Forall (Records node path anchor) news /\
       ((List.length (paths ++ news) < maxPaths * 2)%nat ->
        forall cp, Records node path anchor cp -> In cp news)) /\
  (forall node path anchor cp,
     Records node path anchor cp ->
     exists more,
       cp_path cp = path ++ pathNodeOf node :: more /\
       (cp_cumulativePercent cp = anchor \/
        exists pn, In pn more /\
          cp_cumulativePercent cp = pn_cumulativePercent pn /\
          (5 <= pn_cumulativePercent pn)%Q)) /\
  (forall callTree maxPaths cp,
     doubleValues callTree = true ->
     In cp (extractCriticalPaths callTree maxPaths) ->
     exists start,
       In start (OMap.values (ct_children callTree)) /\
       Records start [] (ct_cumulativePercent start) cp) /\
  extractCriticalPaths PathExample.tree 5%nat =
    [{| cp_path := [PathExample.step "P" 70];
        cp_cumulativePercent := 70 |};
     {| cp_path := [PathExample.step "Q" 30; PathExample.step "L" 20];
        cp_cumulativePercent := 30 |}] /\
  extractCriticalPaths PathExample.branching 5%nat =
    [{| cp_path := [PathExample.step "R" 100; PathExample.step "H" 60];
        cp_cumulativePercent := 100 |};
     {| cp_path := [PathExample.step "R" 100; PathExample.step "K" 40];
        cp_cumulativePercent := 40 |}].
Proof.
  split; [exact traverse_leaf |].
  split; [intros m node path anchor paths Hd;
          exact (traverse_records m node Hd path anchor paths) |].
  split; [exact records_anchored |].
  split; [exact extracted_paths_recorded |].
  split; vm_compute; reflexivity.
Qed.

(** The traversal of [R] in the second example, entered with the anchor
    100, ends with two paths, below the cap of 10; the path through the
    sibling [K], anchored at the 40 of [K], is among them. *)
Lemma critical_path_anchor_semantics_witness :
  doubleValues PathExample.inner = true /\
  In {| cp_path := [PathExample.step "R" 100; PathExample.step "K" 40];
        cp_cumulativePercent := 40 |}
     (traverse 5%nat PathExample.inner [] 100 []).
Proof.
  assert (Hd : doubleValues PathExample.inner = true)
    by (vm_compute; reflexivity).
  split; [exact Hd |].
  destruct critical_path_anchor_semantics as (_ & H & _).
  destruct (H 5%nat PathExample.inner [] 100%Q [] Hd)
    as (news & Heq & _ & _ & Hcomplete).
  rewrite Heq. cbn [app] in *. apply Hcomplete.
  - rewrite <- Heq. vm_compute. lia.
  - apply (records_sibling PathExample.inner
             (Fixtures.nodeOf "H" 60 60 []) (Fixtures.nodeOf "K" 40 40 [])
             [Fixtures.nodeOf "K" 40 40 []]).
    + exists [Fixtures.nodeOf "K" 40 40 []], [].
      split; [reflexivity |].
      split; [constructor; [vm_compute; reflexivity | constructor] |].
      split; [constructor | apply Permutation_refl].
    + now left.
    + vm_compute. discriminate.
    + apply (records_leaf (Fixtures.nodeOf "K" 40 40 [])
               ([] ++ [pathNodeOf PathExample.inner]) 40%Q).
      reflexivity.
Defined.

(** ** Conservation of the self values (C1) *)

Lemma isCount_nonneg (v : Numeric) : isCount v = true -> 0 <= countOf v.
Proof.
  destruct v as [q | z]; cbn; intro H.
  - apply andb_true_iff in H. destruct H as [H _]. lia.
  - lia.
Qed.

Lemma toNum_count (v : Numeric) :
  isCount v = true -> countOf v < 2 ^ 53 ->
  toNum v == inject_Z (countOf v).
Proof.
  destruct v as [q | z]; cbn [isCount countOf toNum]; intros H Hb.
  - apply andb_true_iff in H. destruct H as [_ H].
    now apply Qeq_bool_iff in H.
  - rewrite toDouble_integer; [reflexivity | lia].
Qed.

(** Adding a count to an integer number is exact below 2^53. *)
Lemma addNumeric_count (a : Z) (v : Numeric) :
  0 <= a -> isCount v = true -> a + countOf v < 2 ^ 53 ->
  addNumeric (JNumber (inject_Z a)) v = JNumber (inject_Z (a + countOf v)).
Proof.
  intros Ha Hv Hb. pose proof (isCount_nonneg v Hv) as Hc.
  rewrite addNumeric_number. f_equal. unfold numAdd.
  rewrite (toDouble_proper _ (inject_Z (a + countOf v))).
  - apply toDouble_integer. lia.
  - rewrite (toNum_count v Hv) by lia. now rewrite inject_Z_plus.
Qed.

Lemma total_exact (index : Z) (l : list Sample) (a : Z) :
  0 <= a ->
  Forall (fun s => isCount (sampleValue s index) = true) l ->
  a + columnSum index l < 2 ^ 53 ->
  fold_left (fun totalValue sample =>
               addNumeric totalValue (sampleValue sample index))
    l (JNumber (inject_Z a)) =
  JNumber (inject_Z (a + columnSum index l)).
Proof.
  revert a. induction l as [| s l IH]; intros a Ha Hall Hb.
  - cbn. now rewrite Z.add_0_r.
  - inversion Hall as [| ? ? Hs Hl]; subst. cbn [fold_left columnSum fold_right] in *.
    fold (columnSum index l) in *.
    pose proof (isCount_nonneg _ Hs) as Hc.
    assert (Hsum : 0 <= columnSum index l).
    { clear - Hl. induction Hl as [| x l Hx Hl IHl]; cbn; [lia |].
      fold (columnSum index l). pose proof (isCount_nonneg _ Hx). lia. }
    rewrite addNumeric_count by (auto; lia).
    rewrite IH by (auto; lia). f_equal. f_equal. lia.
Qed.

Lemma columnSum_nonneg (index : Z) (l : list Sample) :
  Forall (fun s => isCount (sampleValue s index) = true) l ->
  0 <= columnSum index l.
Proof.
  induction 1 as [| x l Hx Hl IHl]; cbn; [lia |].
  fold (columnSum index l). pose proof (isCount_nonneg _ Hx). lia.
Qed.

Lemma computeTotal_exact (profile : NormalizedProfile) (index : Z) :
  Forall (fun s => isCount (sampleValue s index) = true) (samples profile) ->
  columnSum index (samples profile) < 2 ^ 53 ->
  computeTotal profile index =
  JNumber (inject_Z (columnSum index (samples profile))).
Proof.
  intros Hall Hb. unfold computeTotal, zero.
  change (JNumber 0) with (JNumber (inject_Z 0)).
  rewrite total_exact; auto; lia.
Qed.

Lemma sumSelfCount_set (k : string) (row : FunctionStats)
    (m : OMap.t FunctionStats) :
  sumSelfCount (OMap.set k row m) =
  sumSelfCount m
  - match OMap.get k m with Some o => selfCount o | None => 0 end
  + selfCount row.
Proof.
  induction m as [| [k' r'] m IH]; cbn.
  - lia.
  - destruct (String.eqb k k'); cbn; fold (sumSelfCount m);
      fold (sumSelfCount (OMap.set k row m)); lia.
Qed.

Lemma allIntSelf_set (k : string) (row : FunctionStats)
    (m : OMap.t FunctionStats) :
  AllIntSelf m -> IntSelf row -> AllIntSelf (OMap.set k row m).
Proof.
  intros Hm Hr. induction Hm as [| [k' r'] m Hx Hm IH]; cbn.
  - constructor; [exact Hr | constructor].
  - destruct (String.eqb k k'); constructor; auto.
Qed.

Lemma sumSelfCount_nonneg (m : OMap.t FunctionStats) :
  AllIntSelf m -> 0 <= sumSelfCount m.
Proof.
  induction 1 as [| [k0 r0] m [H0 _] Hm IHm]; cbn in *; [lia |].
  fold (sumSelfCount m). lia.
Qed.

Lemma allIntSelf_get (k : string) (row : FunctionStats)
    (m : OMap.t FunctionStats) :
  AllIntSelf m -> OMap.get k m = Some row ->
  IntSelf row /\ selfCount row <= sumSelfCount m.
Proof.
  intros Hm. induction Hm as [| [k' r'] m Hx Hm IH]; cbn; [discriminate |].
  fold (sumSelfCount m).
  pose proof (sumSelfCount_nonneg m Hm) as Hpos.
  destruct Hx as [Hx0 Hx1]. cbn [snd] in *.
  destruct (String.eqb k k').
  - intro H. injection H as <-. split; [split; auto | lia].
  - intro H. destruct (IH H) as [Hi Hle]. split; [exact Hi | lia].
Qed.

Lemma intSelf_rowFor (lineInfo : LineInfo) (stats : OMap.t FunctionStats) :
  AllIntSelf stats ->
  IntSelf (rowFor lineInfo stats) /\
  selfCount (rowFor lineInfo stats) <= sumSelfCount stats /\
  match OMap.get (keyOf lineInfo) stats with
  | Some o => selfCount o
  | None => 0
  end = selfCount (rowFor lineInfo stats).
Proof.
  intro Hall. unfold rowFor.
  destruct (OMap.get (keyOf lineInfo) stats) as [existing |] eqn:E.
  - destruct (allIntSelf_get _ _ _ Hall E). auto.
  - pose proof (sumSelfCount_nonneg stats Hall) as Hpos.
    split; [split; [cbn; lia | reflexivity] |].
    split; [exact Hpos | reflexivity].
Qed.

(** One frame and the self values: at stack index 0 the row of the frame
    gains the value, elsewhere no self value moves. *)
Lemma lineStep_self (value : Numeric) (stack : list Location) (i : nat)
    (stats : OMap.t FunctionStats) (seen : OSet.t) (lineInfo : LineInfo) :
  WellKeyed stats -> AllIntSelf stats -> isCount value = true ->
  (i = O -> sumSelfCount stats + countOf value < 2 ^ 53) ->
  AllIntSelf (fst (lineStep value stack i (stats, seen) lineInfo)) /\
  sumSelfCount (fst (lineStep value stack i (stats, seen) lineInfo)) =
    sumSelfCount stats + (if Nat.eqb i 0 then countOf value else 0).
Proof.
  intros HW Hall Hv Hb.
  destruct (lineStep_spec value stack i stats seen lineInfo HW)
    as (row & _ & Hself & _ & _ & _ & Hfst).
  destruct (intSelf_rowFor lineInfo stats Hall) as ([Hb0 Hb1] & Hble & Hget).
  set (base := rowFor lineInfo stats) in *.
  set (key := keyOf lineInfo) in *.
  set (M := match OMap.get key stats with
            | Some _ => stats
            | None => OMap.set key base stats
            end) in *.
  assert (HM : AllIntSelf M /\ sumSelfCount M = sumSelfCount stats /\
               OMap.get key M = Some base).
  { subst M. unfold base, rowFor. fold key.
    destruct (OMap.get key stats) as [existing |] eqn:E.
    - auto.
    - split; [apply allIntSelf_set; auto; split; [cbn; lia | reflexivity] |].
      split; [| apply get_set_same].
      rewrite sumSelfCount_set, E. cbn. lia. }
  destruct HM as (HM1 & HM2 & HM3).
  assert (Hrow : IntSelf row /\
                 selfCount row =
                   selfCount base + (if Nat.eqb i 0 then countOf value else 0)).
  { unfold IntSelf, selfCount. rewrite Hself.
    destruct (Nat.eqb i 0) eqn:Ei.
    - apply Nat.eqb_eq in Ei. specialize (Hb Ei).
      pose proof (isCount_nonneg value Hv) as Hc.
      rewrite Hb1, addNumeric_count by (auto; lia).
      cbn [countOf]. rewrite !Qfloor_Z. repeat split; lia.
    - fold (selfCount base). repeat split; auto; lia. }
  destruct Hrow as (Hr1 & Hr2).
  rewrite Hfst. split; [now apply allIntSelf_set |].
  rewrite sumSelfCount_set, HM3, HM2, Hr2. lia.
Qed.

Lemma lines_self_other (value : Numeric) (stack : list Location) (i : nat)
    (lines : list LineInfo) (st : AggState) :
  i <> O -> isCount value = true ->
  WellKeyed (fst st) -> AllIntSelf (fst st) ->
  WellKeyed (fst (fold_left (lineStep value stack i) lines st)) /\
  AllIntSelf (fst (fold_left (lineStep value stack i) lines st)) /\
  sumSelfCount (fst (fold_left (lineStep value stack i) lines st)) =
    sumSelfCount (fst st).
Proof.
  intros Hi Hv. revert st.
  induction lines as [| li lines IH]; intros st HW Hall; cbn [fold_left].
  - auto.
  - pose proof (lineStep_wellKeyed value stack i st li HW) as HW'.
    destruct st as [stats seen]. cbn [fst] in *.
    destruct (lineStep_self value stack i stats seen li HW Hall Hv)
      as (Hall' & Hsum); [intro; contradiction |].
    apply Nat.eqb_neq in Hi. rewrite Hi, Z.add_0_r in Hsum.
    destruct (IH _ HW' Hall') as (H1 & H2 & H3).
    repeat split; auto. congruence.
Qed.

(** The scan of one stack adds the value to the self values at most once
    when the leaf location has at most one frame. *)
Lemma stack_self (value : Numeric) (stack : list Location)
    (stats : OMap.t FunctionStats) :
  WellKeyed stats -> AllIntSelf stats -> isCount value = true ->
  sumSelfCount stats + countOf value < 2 ^ 53 ->
  match stack with
  | [] => True
  | leaf :: _ => (List.length (loc_lines leaf) <= 1)%nat
  end ->
  let st := fold_left (stackStep value stack) (seq 0 (List.length stack))
              (stats, OSet.empty) in
  WellKeyed (fst st) /\ AllIntSelf (fst st) /\
  sumSelfCount (fst st) <= sumSelfCount stats + countOf value.
Proof.
  intros HW Hall Hv Hb Hleaf. cbv zeta.
  pose proof (isCount_nonneg value Hv) as Hc.
  pose proof (stack_loop_invariant value stack
                (fun i st =>
                   WellKeyed (fst st) /\ AllIntSelf (fst st) /\
                   (i = O -> sumSelfCount (fst st) = sumSelfCount stats) /\
                   sumSelfCount (fst st) <= sumSelfCount stats + countOf value))
    as Hloop.
  cbv beta in Hloop.
  assert (Hend : WellKeyed (fst (fold_left (stackStep value stack)
                                   (seq 0 (List.length stack))
                                   (stats, OSet.empty))) /\
                 AllIntSelf (fst (fold_left (stackStep value stack)
                                    (seq 0 (List.length stack))
                                    (stats, OSet.empty))) /\
                 (List.length stack = O ->
                  sumSelfCount (fst (fold_left (stackStep value stack)
                                       (seq 0 (List.length stack))
                                       (stats, OSet.empty))) =
                  sumSelfCount stats) /\
                 sumSelfCount (fst (fold_left (stackStep value stack)
                                      (seq 0 (List.length stack))
                                      (stats, OSet.empty))) <=
                 sumSelfCount stats + countOf value); [| tauto].
  apply Hloop.
  - intros i location st Hnth (HWs & Halls & H0 & Hle).
    destruct i as [| j].
    + specialize (H0 eq_refl).
      destruct stack as [| leaf rest]; [discriminate |].
      cbn in Hnth. injection Hnth as ->.
      destruct (loc_lines location) as [| li [| li' lines]];
        cbn [fold_left]; [| | cbn in Hleaf; lia].
      * repeat split; auto; try discriminate.
      * pose proof (lineStep_wellKeyed value (location :: rest) 0 st li HWs)
          as HW'.
        destruct st as [stats1 seen1]. cbn [fst] in *.
        destruct (lineStep_self value (location :: rest) 0 stats1 seen1 li
                    HWs Halls Hv) as (Hall' & Hsum); [intros _; lia |].
        cbn [Nat.eqb] in Hsum. repeat split; auto; try discriminate; lia.
    + destruct (lines_self_other value stack (S j) (loc_lines location) st)
        as (H1 & H2 & H3); auto.
      repeat split; auto; try discriminate; lia.
  - cbn [fst]. repeat split; auto; lia.
Qed.

Lemma aggregateSample_self (index : Z) (stats : OMap.t FunctionStats)
    (sample : Sample) :
  WellKeyed stats -> AllIntSelf stats ->
  isCount (sampleValue sample index) = true ->
  singleLeafFrame sample = true ->
  sumSelfCount stats + countOf (sampleValue sample index) < 2 ^ 53 ->
  WellKeyed (aggregateSample index stats sample) /\
  AllIntSelf (aggregateSample index stats sample) /\
  sumSelfCount (aggregateSample index stats sample) <=
    sumSelfCount stats + countOf (sampleValue sample index).
Proof.
  intros HW Hall Hv Hleaf Hb. unfold aggregateSample.
  pose proof (isCount_nonneg _ Hv) as Hc.
  destruct (isZero (sampleValue sample index)).
  - repeat split; auto. lia.
  - apply stack_self; auto.
    unfold singleLeafFrame in Hleaf.
    destruct (s_stack sample) as [| leaf rest]; [exact I |].
    now apply Nat.leb_le.
Qed.

Lemma samples_self (index : Z) (l : list Sample)
    (stats : OMap.t FunctionStats) (a : Z) :
  WellKeyed stats -> AllIntSelf stats -> sumSelfCount stats <= a ->
  Forall (fun s => isCount (sampleValue s index) = true) l ->
  Forall (fun s => singleLeafFrame s = true) l ->
  a + columnSum index l < 2 ^ 53 ->
  AllIntSelf (fold_left (aggregateSample index) l stats) /\
  sumSelfCount (fold_left (aggregateSample index) l stats) <=
    a + columnSum index l.
Proof.
  revert stats a.
  induction l as [| s l IH]; intros stats a HW Hall Ha Hcnt Hleaf Hb.
  - cbn [fold_left columnSum fold_right]. split; [exact Hall | lia].
  - inversion Hcnt as [| ? ? Hs Hl]; subst.
    inversion Hleaf as [| ? ? Hs' Hl']; subst.
    cbn [fold_left columnSum fold_right] in *. fold (columnSum index l) in *.
    pose proof (columnSum_nonneg index l Hl) as Hpos.
    destruct (aggregateSample_self index stats s HW Hall Hs Hs')
      as (HW1 & Hall1 & Hle1); [lia |].
    destruct (IH (aggregateSample index stats s)
                (a + countOf (sampleValue s index)) HW1 Hall1)
      as (H1 & H2); auto; try lia.
    split; [exact H1 | lia].
Qed.

Lemma sumSelf_percentages (totalNum : Q) (stats : OMap.t FunctionStats) :
  AllIntSelf stats ->
  sumSelf (statsPercentages totalNum stats) ==
  inject_Z (sumSelfCount stats).
Proof.
  unfold sumSelf, OMap.values, statsPercentages.
  induction 1 as [| [k r] m [H0 H1] Hm IH]; cbn in *; [reflexivity |].
  fold (sumSelfCount m). rewrite IH, H1, inject_Z_plus. reflexivity.
Qed.

Lemma wellKeyed_empty : WellKeyed (@OMap.empty FunctionStats).
Proof. intros k r H. discriminate. Qed.

Lemma aggregate_self_bounded (profile : NormalizedProfile) (index : Z)
    (totalValue : Numeric) :
  Forall (fun s => isCount (sampleValue s index) = true) (samples profile) ->
  columnSum index (samples profile) < 2 ^ 53 ->
  Forall (fun s => singleLeafFrame s = true) (samples profile) ->
  (sumSelf (aggregateFunctionStats profile index totalValue) <=
   inject_Z (columnSum index (samples profile)))%Q.
Proof.
  intros Hcnt Hb Hleaf. unfold aggregateFunctionStats.
  destruct (samples_self index (samples profile) OMap.empty 0
              wellKeyed_empty) as (Hall & Hle); auto.
  - constructor.
  - cbn. lia.
  - rewrite (sumSelf_percentages _ _ Hall), <- Zle_Qle. lia.
Qed.

(** Where the conservation holds.  The root of the returned call tree
    carries [cumulativeValue == totalValue], for every profile.  The self
    values add up to at most the total when the values of the selected
    column are counts (integers, not negative) whose sum is below 2^53, so
    that no addition rounds, and no sample has an inlined frame at its
    leaf location. *)
Theorem self_values_within_total
    (profile : NormalizedProfile) (options : AnalyzeOptions)
    (r : AnalysisResult) :
  analyzeProfile profile options = Returns r ->
  ct_cumulativeValue (r_callTree r) = r_totalValue r /\
  (Forall (fun s => isCount (sampleValue s (resolvedIndex options)) = true)
     (samples profile) ->
   columnSum (resolvedIndex options) (samples profile) < 2 ^ 53 ->
   Forall (fun s => singleLeafFrame s = true) (samples profile) ->
   (sumSelf (r_functionStats r) <= toNum (r_totalValue r))%Q).
Proof.
  unfold analyzeProfile.
  destruct (jsIndex (sampleTypes profile) (resolvedIndex options));
    [| discriminate].
  destruct (isZero (computeTotal profile (resolvedIndex options)));
    intro H; injection H as <-;
    cbn [r_callTree r_totalValue r_functionStats].
  - split; [reflexivity |]. intros _ _ _. apply Qle_refl.
  - split; [apply buildCallTree_root |].
    intros Hcnt Hb Hleaf.
    rewrite (computeTotal_exact profile (resolvedIndex options) Hcnt Hb)
      at 2.
    cbn [toNum]. now apply aggregate_self_bounded.
Qed.

Lemma self_values_within_total_witness :
  exists r,
    analyzeProfile ConservationExample.plain defaultOptions = Returns r /\
    ct_cumulativeValue (r_callTree r) = r_totalValue r /\
    (sumSelf (r_functionStats r) <= toNum (r_totalValue r))%Q.
Proof.
  destruct (analyzeProfile ConservationExample.plain defaultOptions)
    as [r | e] eqn:E.
  - exists r. split; [reflexivity |].
    destruct (self_values_within_total _ _ r E) as (Hroot & Hsum).
    split; [exact Hroot |].
    apply Hsum.
    + repeat constructor.
    + vm_compute. reflexivity.
    + repeat constructor.
  - vm_compute in E. discriminate.
Defined.

(** C1.  The conservation fails in the code: one sample of value 10
    whose leaf location has the two frames [A] and [B] (a call inlined at
    the leaf) gives both rows the self value 10, 20 in all, against the
    total 10.  The self percentages of the hotspots are 100 and 100,
    where the test of the repository expects a sum of at most 100; the
    call tree built from the same sample gives the self value to one
    node, the innermost frame [B]. *)
Lemma inlined_leaf_exceeds_total :
  exists r a b,
    analyzeProfile ConservationExample.inlined defaultOptions = Returns r /\
    r_totalValue r = JNumber 10 /\
    map (fun row => fs_selfValue row) (OMap.values (r_functionStats r)) =
      [JNumber 10; JNumber 10] /\
    sumSelf (r_functionStats r) == 20 /\
    ~ (sumSelf (r_functionStats r) <= toNum (r_totalValue r))%Q /\
    map h_selfPercent (r_hotspots r) = [100%Q; 100%Q] /\
    childAt "A@app.js:7" (r_callTree r) = Some a /\
    childAt "B@app.js:7" a = Some b /\
    ct_selfValue (r_callTree r) = JNumber 0 /\
    ct_selfValue a = JNumber 0 /\
    ct_selfValue b = JNumber 10 /\
    ct_children b = [].
Proof.
  eexists _, _, _. split; [vm_compute; reflexivity |].
  split; [reflexivity |]. split; [reflexivity |].
  split; [reflexivity |].
  split; [vm_compute; intro H; now apply H |].
  repeat split; reflexivity.
Qed.

(** The other two conditions are needed as well: a negative value on an
    empty stack lowers the total only, and past 2^53 the total rounds. *)
Lemma negative_value_exceeds_total :
  exists r,
    analyzeProfile ConservationExample.negative defaultOptions = Returns r /\
    r_totalValue r = JNumber 5 /\
    sumSelf (r_functionStats r) == 10.
Proof.
  eexists. split; [vm_compute; reflexivity |].
  split; reflexivity.
Qed.

Lemma rounded_total_below_self_values :
  exists r,
    analyzeProfile ConservationExample.rounded defaultOptions = Returns r /\
    r_totalValue r = JNumber (inject_Z (2 ^ 53)) /\
    sumSelf (r_functionStats r) == inject_Z (2 ^ 53 + 2).
Proof.
  eexists. split; [vm_compute; reflexivity |].
  split; reflexivity.
Qed.

(** ** The call stack and the two errors (C6) *)

Lemma treeDepth_unfold (node : CallTreeNode) :
  treeDepth node = S (depthOver treeDepth (ct_children node)).
Proof. destruct node; reflexivity. Qed.

Lemma depthOver_cons (kv : string * CallTreeNode) (m : OMap.t CallTreeNode) :
  depthOver treeDepth (kv :: m) =
  Nat.max (treeDepth (snd kv)) (depthOver treeDepth m).
Proof. reflexivity. Qed.

Lemma depthOver_get (k : string) (c : CallTreeNode) (m : OMap.t CallTreeNode) :
  OMap.get k m = Some c -> (treeDepth c <= depthOver treeDepth m)%nat.
Proof.
  induction m as [| [k' c'] m IH]; cbn [OMap.get]; [discriminate |].
  rewrite depthOver_cons. cbn [snd].
  destruct (String.eqb k k').
  - intros [= <-]. lia.
  - intro H. specialize (IH H). lia.
Qed.

Lemma depthOver_In (c : CallTreeNode) (m : OMap.t CallTreeNode) :
  In c (OMap.values m) -> (treeDepth c <= depthOver treeDepth m)%nat.
Proof.
  unfold OMap.values.
  induction m as [| [k' c'] m IH]; cbn [map In]; [contradiction |].
  rewrite depthOver_cons. cbn [snd].
  intros [<- | H]; [lia | specialize (IH H); lia].
Qed.

(** Replacing a child by a deeper one, or adding a child. *)
Lemma depthOver_set (k : string) (c : CallTreeNode) (m : OMap.t CallTreeNode) :
  match OMap.get k m with
  | Some o => (treeDepth o <= treeDepth c)%nat
  | None => True
  end ->
  depthOver treeDepth (OMap.set k c m) =
  Nat.max (depthOver treeDepth m) (treeDepth c).
Proof.
  induction m as [| [k' c'] m IH]; cbn [OMap.get OMap.set].
  - intros _. rewrite depthOver_cons. cbn. lia.
  - destruct (String.eqb k k').
    + intro H. rewrite !depthOver_cons. cbn [snd]. lia.
    + intro H. rewrite !depthOver_cons, (IH H). cbn [snd]. lia.
Qed.

(** A sample of [n] frames makes the tree below the cursor at least
    [n + 1] nodes deep, and no deeper than it was otherwise. *)
Lemma descend_depth (value : Numeric) (frames : list LineInfo)
    (node : CallTreeNode) :
  treeDepth (descend frames value node) =
  Nat.max (treeDepth node) (S (List.length frames)).
Proof.
  revert node. induction frames as [| lineInfo rest IH]; intro node.
  - cbn [descend List.length]. rewrite !treeDepth_unfold.
    cbn [withNodeSelf ct_children]. lia.
  - cbn [descend List.length]. cbv zeta.
    set (key := identityKey (li_function lineInfo) (li_line lineInfo)).
    rewrite (treeDepth_unfold (withNodeChildren _ _)).
    cbn [withNodeChildren ct_children].
    rewrite depthOver_set.
    + rewrite IH, (treeDepth_unfold (withNodeCumulative _ _)).
      cbn [withNodeCumulative ct_children].
      rewrite (treeDepth_unfold node).
      destruct (OMap.get key (ct_children node)) as [c |] eqn:E.
      * apply depthOver_get in E. rewrite (treeDepth_unfold c) in E. lia.
      * cbn. lia.
    + destruct (OMap.get key (ct_children node)) as [c |] eqn:E; [| exact I].
      rewrite IH, (treeDepth_unfold (withNodeCumulative _ _)).
      cbn [withNodeCumulative ct_children].
      rewrite (treeDepth_unfold c). lia.
Qed.

Lemma samples_depth (index : Z) (l : list Sample) (root : CallTreeNode) :
  treeDepth (fold_left (treeSample index) l root) =
  Nat.max (treeDepth root) (S (deepestStack index l)).
Proof.
  revert root. induction l as [| s l IH]; intro root.
  - cbn. rewrite treeDepth_unfold. lia.
  - cbn [fold_left deepestStack fold_right].
    fold (deepestStack index l). rewrite IH.
    unfold treeSample, framesOf.
    destruct (isZero (sampleValue s index)); [lia |].
    rewrite descend_depth. lia.
Qed.

Lemma mergedTree_depth (profile : NormalizedProfile) (index : Z)
    (totalValue : Numeric) :
  treeDepth (mergedTree profile index totalValue) =
  S (deepestStack index (samples profile)).
Proof.
  unfold mergedTree. rewrite samples_depth. cbn. lia.
Qed.

Lemma calculateTreePercentages_depth (totalValue : Numeric)
    (node : CallTreeNode) :
  treeDepth (calculateTreePercentages node totalValue) = treeDepth node.
Proof.
  induction node as [node IH] using tree_induction.
  destruct node as [k n f l sv cv sp cp children].
  cbn [calculateTreePercentages]. rewrite !treeDepth_unfold.
  cbn [ct_children] in *. f_equal.
  induction children as [| kv children IHc]; [reflexivity |].
  inversion IH as [| ? ? H1 H2]; subst.
  cbn [map]. rewrite !depthOver_cons. cbn [snd]. rewrite H1.
  f_equal. now apply IHc.
Qed.

(** The percentage pass on a stack of [frames] activations: it returns
    what [calculateTreePercentages] computes when the tree is no deeper
    than the stack, and throws otherwise. *)
Lemma calculateTreePercentages_onStack (totalValue : Numeric) (frames : nat) :
  forall node,
    OnStack.calculateTreePercentages frames node totalValue =
    if Nat.leb (treeDepth node) frames
    then Returns (calculateTreePercentages node totalValue)
    else Throws MaximumCallStackSizeExceeded.
Proof.
  induction frames as [| frames IH]; intro node.
  - rewrite treeDepth_unfold. reflexivity.
  - cbn [OnStack.calculateTreePercentages]. cbv zeta.
    assert (Hc : forall children,
               OnStack.eachChild
                 (fun child =>
                    OnStack.calculateTreePercentages frames child totalValue)
                 children =
               if Nat.leb (depthOver treeDepth children) frames
               then Returns
                      (map (fun kv =>
                              (fst kv,
                               calculateTreePercentages (snd kv) totalValue))
                         children)
               else Throws MaximumCallStackSizeExceeded).
    { induction children as [| [k c] children IHc]; [reflexivity |].
      cbn [OnStack.eachChild]. rewrite IH, IHc, depthOver_cons. cbn [snd].
      destruct (Nat.leb_spec (treeDepth c) frames) as [H1 | H1];
        destruct (Nat.leb_spec (depthOver treeDepth children) frames)
          as [H2 | H2];
        destruct (Nat.leb_spec
                    (Nat.max (treeDepth c) (depthOver treeDepth children))
                    frames) as [H3 | H3];
        try reflexivity; lia. }
    rewrite Hc, (treeDepth_unfold node). cbn [Nat.leb].
    destruct (Nat.leb (depthOver treeDepth (ct_children node)) frames);
      [| reflexivity].
    destruct node; reflexivity.
Qed.

Lemma otherChildren_onStack (frames maxPaths : nat) (newPath : list PathNode)
    (rest : list CallTreeNode) :
  (forall c path anchor paths, In c rest ->
     OnStack.traverse frames maxPaths c path anchor paths =
     Returns (traverse maxPaths c path anchor paths)) ->
  forall paths,
    OnStack.otherChildren (OnStack.traverse frames maxPaths) maxPaths newPath
      rest paths =
    Returns
      (otherChildren maxPaths newPath
         (map (fun c => (c, traverse maxPaths c)) rest) paths).
Proof.
  induction rest as [| c rest IH]; intros Hall paths; [reflexivity |].
  cbn [OnStack.otherChildren map otherChildren].
  destruct (Nat.ltb (List.length paths) (maxPaths * 2)); [| reflexivity].
  destruct (Qle_bool 5 (ct_cumulativePercent c)).
  - rewrite Hall by (now left). cbn [OnStack.bind].
    apply IH. intros c' p a ps Hin. apply Hall. now right.
  - cbn [OnStack.bind].
    apply IH. intros c' p a ps Hin. apply Hall. now right.
Qed.

(** [traverse] on a stack that holds the depth of the subtree. *)
Lemma traverse_onStack (maxPaths frames : nat) :
  forall node path anchor paths,
    (treeDepth node <= frames)%nat ->
    OnStack.traverse frames maxPaths node path anchor paths =
    Returns (traverse maxPaths node path anchor paths).
Proof.
  induction frames as [| frames IH]; intros node path anchor paths Hd.
  - rewrite treeDepth_unfold in Hd. lia.
  - cbn [OnStack.traverse]. cbv zeta. rewrite traverse_unfold. cbv zeta.
    assert (Hin : forall c,
               In c (sortBy byCumulativeValue
                       (OMap.values (ct_children node))) ->
               (treeDepth c <= frames)%nat).
    { intros c Hc. apply sortBy_In, depthOver_In in Hc.
      rewrite treeDepth_unfold in Hd. lia. }
    destruct (sortBy byCumulativeValue (OMap.values (ct_children node)))
      as [| hot rest]; [reflexivity |].
    rewrite IH by (apply Hin; now left). cbn [OnStack.bind].
    apply otherChildren_onStack.
    intros c p a ps Hc. apply IH, Hin. now right.
Qed.

Lemma eachStart_onStack (frames maxPaths : nat) (starts : list CallTreeNode) :
  (forall c, In c starts -> (treeDepth c <= frames)%nat) ->
  forall paths,
    OnStack.eachStart frames maxPaths starts paths =
    Returns
      (fold_left
         (fun paths child =>
            traverse maxPaths child [] (ct_cumulativePercent child) paths)
         starts paths).
Proof.
  induction starts as [| c starts IH]; intros Hall paths; [reflexivity |].
  cbn [OnStack.eachStart fold_left].
  rewrite traverse_onStack by (apply Hall; now left). cbn [OnStack.bind].
  apply IH. intros c' Hc'. apply Hall. now right.
Qed.

Lemma extractCriticalPaths_onStack (frames maxPaths : nat)
    (callTree : CallTreeNode) :
  (treeDepth callTree <= frames)%nat ->
  OnStack.extractCriticalPaths frames callTree maxPaths =
  Returns (extractCriticalPaths callTree maxPaths).
Proof.
  intro Hd. unfold OnStack.extractCriticalPaths, extractCriticalPaths.
  cbv zeta. rewrite eachStart_onStack; [reflexivity |].
  intros c Hc. apply in_firstn, sortBy_In, depthOver_In in Hc.
  rewrite treeDepth_unfold in Hd. lia.
Qed.

(** Every run of [analyzeProfile]: the index check comes first; a zero
    total returns before any recursion; otherwise the run returns what
    [analyzeProfile] gives when the deepest counted stack has fewer frames
    than the call stack, and throws the [RangeError] when it has not. *)
Lemma analyzeProfile_onStack (frames : nat) (profile : NormalizedProfile)
    (options : AnalyzeOptions) :
  OnStack.analyzeProfile frames profile options =
  match jsIndex (sampleTypes profile) (resolvedIndex options) with
  | None => Throws (SampleTypeIndexNotFound (resolvedIndex options))
  | Some _ =>
      if orb (isZero (computeTotal profile (resolvedIndex options)))
             (Nat.ltb (deepestStack (resolvedIndex options) (samples profile))
                frames)
      then analyzeProfile profile options
      else Throws MaximumCallStackSizeExceeded
  end.
Proof.
  unfold OnStack.analyzeProfile, analyzeProfile. cbv zeta.
  destruct (jsIndex (sampleTypes profile) (resolvedIndex options));
    [| reflexivity].
  destruct (isZero (computeTotal profile (resolvedIndex options)));
    [reflexivity |].
  cbn [orb]. unfold OnStack.buildCallTree.
  rewrite calculateTreePercentages_onStack, mergedTree_depth.
  change (Nat.leb (S ?a) ?b) with (Nat.ltb a b).
  destruct (Nat.ltb_spec
              (deepestStack (resolvedIndex options) (samples profile)) frames)
    as [Hlt | Hge]; [| reflexivity].
  cbn [OnStack.bind]. fold (buildCallTree profile (resolvedIndex options)
                              (computeTotal profile (resolvedIndex options))).
  rewrite extractCriticalPaths_onStack; [reflexivity |].
  unfold buildCallTree.
  rewrite calculateTreePercentages_depth, mergedTree_depth. lia.
Qed.




(** ** The primary column and the profile kind *)

Lemma firstIndexFrom_some {A : Type} (test : A -> bool) (l : list A)
    (i j : Z) :
  firstIndexFrom test i l = Some j ->
  i <= j < i + Z.of_nat (List.length l) /\
  (exists a, nth_error l (Z.to_nat (j - i)) = Some a /\ test a = true) /\
  (forall k a, (k < Z.to_nat (j - i))%nat -> nth_error l k = Some a ->
               test a = false).
Proof.
  revert i. induction l as [| x l IH]; intros i H; cbn in H; [discriminate |].
  destruct (test x) eqn:E.
  - injection H as <-. rewrite Z.sub_diag. cbn [List.length].
    split; [lia |]. split; [exists x; auto |]. intros k a Hk. cbn in Hk. lia.
  - destruct (IH _ H) as (Hr & (a & Ha & Hta) & Hbefore).
    cbn [List.length]. split; [lia |].
    replace (Z.to_nat (j - i)) with (S (Z.to_nat (j - (i + 1)))) by lia.
    split; [exists a; auto |].
    intros [| k] b Hk Hb; cbn in Hb.
    + now injection Hb as <-.
    + apply (Hbefore k); auto. lia.
Qed.

Lemma firstIndexFrom_none {A : Type} (test : A -> bool) (l : list A)
    (i : Z) :
  firstIndexFrom test i l = None <-> forall a, In a l -> test a = false.
Proof.
  revert i. induction l as [| x l IH]; intro i; cbn.
  - split; [intros _ a [] | reflexivity].
  - destruct (test x) eqn:E.
    + split; [discriminate |]. intro H. rewrite (H x) in E; [discriminate | auto].
    + rewrite IH. split.
      * intros H a [<- | Ha]; auto.
      * intros H a Ha. apply H. auto.
Qed.

Lemma firstIndexFrom_firstAt {A : Type} (test : A -> bool) (l : list A)
    (j : Z) :
  firstIndexFrom test 0 l = Some j -> FirstAt test l j.
Proof.
  intro H. destruct (firstIndexFrom_some test l 0 j H)
    as (Hr & (a & Ha & Hta) & Hbefore).
  rewrite Z.sub_0_r in *. split.
  - exists a. unfold jsIndex.
    destruct (Z.ltb_spec j 0); [lia | auto].
  - intros k b Hk. unfold jsIndex.
    destruct (Z.ltb_spec k 0); [lia |]. apply Hbefore. lia.
Qed.

Lemma firstAt_in_range {A : Type} (test : A -> bool) (l : list A) (i : Z) :
  FirstAt test l i -> 0 <= i < Z.of_nat (List.length l).
Proof.
  intros [(a & Ha & _) _]. apply jsIndex_some_iff. now exists a.
Qed.

(** The chosen index is 0 or a first match. *)
Lemma getPrimarySampleTypeIndex_cases (profile : NormalizedProfile)
    (profileType : ProfileType) :
  getPrimarySampleTypeIndex profile profileType = 0 \/
  exists test,
    FirstAt test (sampleTypes profile)
      (getPrimarySampleTypeIndex profile profileType).
Proof.
  unfold getPrimarySampleTypeIndex.
  destruct profileType; auto.
  - destruct (firstIndexFrom _ 0 (sampleTypes profile)) eqn:E; auto.
    right. eexists. apply firstIndexFrom_firstAt, E.
  - destruct (firstIndexFrom (typeIs "inuse_space") 0 (sampleTypes profile))
      eqn:E.
    + right. eexists. apply firstIndexFrom_firstAt, E.
    + destruct (firstIndexFrom (typeIs "alloc_space") 0
                  (sampleTypes profile)) eqn:E'; auto.
      right. eexists. apply firstIndexFrom_firstAt, E'.
Qed.

Lemma getPrimarySampleTypeIndex_in_range (profile : NormalizedProfile)
    (profileType : ProfileType) :
  sampleTypes profile <> [] ->
  0 <= getPrimarySampleTypeIndex profile profileType
    < Z.of_nat (List.length (sampleTypes profile)).
Proof.
  intro Hne.
  destruct (getPrimarySampleTypeIndex_cases profile profileType)
    as [-> | (test & H)].
  - destruct (sampleTypes profile); [contradiction | cbn; lia].
  - exact (firstAt_in_range _ _ _ H).
Qed.

(** X1.  The column chosen by [getPrimarySampleTypeIndex] exists whenever
    the profile declares a sample type, for every profile type; so
    [analyzeProfile] called on it, as [convert] does when no column is
    given, does not throw the error of the index check, whatever the call
    stack holds.  For a profile that declares no sample type the column
    is 0 and the call throws that error. *)
Theorem primary_column_exists
    (profile : NormalizedProfile) (profileType : ProfileType)
    (threshold : option Q) (frames : nat) :
  let typeIndex := getPrimarySampleTypeIndex profile profileType in
  let options :=
    {| sampleTypeIndex := Some typeIndex; hotspotThreshold := threshold |} in
  (sampleTypes profile <> [] ->
   (exists st, jsIndex (sampleTypes profile) typeIndex = Some st) /\
   forall i, OnStack.analyzeProfile frames profile options <>
             Throws (SampleTypeIndexNotFound i)) /\
  (sampleTypes profile = [] ->
   typeIndex = 0 /\
   OnStack.analyzeProfile frames profile options =
     Throws (SampleTypeIndexNotFound 0)).
Proof.
  cbv zeta. split.
  - intro Hne.
    assert (Hsome : exists st,
               jsIndex (sampleTypes profile)
                 (getPrimarySampleTypeIndex profile profileType) = Some st).
    { apply jsIndex_some_iff.
      now apply getPrimarySampleTypeIndex_in_range. }
    split; [exact Hsome |].
    destruct Hsome as [st Hst]. intros i.
    rewrite analyzeProfile_onStack. cbn [resolvedIndex sampleTypeIndex].
    rewrite Hst.
    match goal with
    | |- (if ?b then _ else _) <> _ => destruct b
    end; [| discriminate].
    unfold analyzeProfile. cbn [resolvedIndex sampleTypeIndex].
    rewrite Hst.
    match goal with
    | |- (if ?b then _ else _) <> _ => destruct b
    end; discriminate.
  - intro Hnil.
    assert (H0 : getPrimarySampleTypeIndex profile profileType = 0).
    { unfold getPrimarySampleTypeIndex. rewrite Hnil.
      now destruct profileType. }
    split; [exact H0 |].
    unfold OnStack.analyzeProfile. cbn [resolvedIndex sampleTypeIndex].
    rewrite H0, Hnil. reflexivity.
Qed.

Lemma primary_column_exists_witness :
  (exists st,
     jsIndex SelectorExample.heapColumns
       (getPrimarySampleTypeIndex
          (SelectorExample.withTypes SelectorExample.heapColumns) PHeap) =
       Some st) /\
  OnStack.analyzeProfile 100 (SelectorExample.withTypes [])
    {| sampleTypeIndex :=
         Some (getPrimarySampleTypeIndex (SelectorExample.withTypes [])
                 PUnknown);
       hotspotThreshold := None |} =
    Throws (SampleTypeIndexNotFound 0).
Proof.
  split.
  - apply (proj1 (primary_column_exists
                    (SelectorExample.withTypes SelectorExample.heapColumns)
                    PHeap None 100)).
    discriminate.
  - apply (proj2 (primary_column_exists
                    (SelectorExample.withTypes []) PUnknown None 100)).
    reflexivity.
Defined.

Lemma firstIndexFrom_found {A : Type} (test : A -> bool) (l : list A) :
  (exists a, In a l /\ test a = true) ->
  exists i, firstIndexFrom test 0 l = Some i.
Proof.
  intros (a & Hin & Ha).
  destruct (firstIndexFrom test 0 l) as [i |] eqn:E; [now exists i |].
  rewrite firstIndexFrom_none in E. rewrite (E a Hin) in Ha. discriminate.
Qed.

(** X2.  For a cpu profile the primary column is the first column whose
    type, in lower case, is ["samples"] or ["cpu"]; without such a column
    it is column 0.  For a mutex, goroutine or unknown profile it is
    column 0. *)
Theorem primary_column_of_cpu_profile (profile : NormalizedProfile) :
  ((exists st, In st (sampleTypes profile) /\ isCpuColumn st = true) ->
   FirstAt isCpuColumn (sampleTypes profile)
     (getPrimarySampleTypeIndex profile PCpu)) /\
  ((forall st, In st (sampleTypes profile) -> isCpuColumn st = false) ->
   getPrimarySampleTypeIndex profile PCpu = 0) /\
  getPrimarySampleTypeIndex profile PMutex = 0 /\
  getPrimarySampleTypeIndex profile PGoroutine = 0 /\
  getPrimarySampleTypeIndex profile PUnknown = 0.
Proof.
  split; [| split; [| repeat split]].
  - intro Hex. destruct (firstIndexFrom_found _ _ Hex) as [i Hi].
    unfold getPrimarySampleTypeIndex. fold isCpuColumn.
    change (fun st => isCpuColumn st) with isCpuColumn.
    unfold isCpuColumn in Hi |- *. rewrite Hi.
    now apply firstIndexFrom_firstAt.
  - intro Hnone. apply (firstIndexFrom_none isCpuColumn _ 0) in Hnone.
    unfold getPrimarySampleTypeIndex. unfold isCpuColumn in Hnone.
    now rewrite Hnone.
Qed.

Lemma primary_column_of_cpu_profile_witness :
  FirstAt isCpuColumn
    [SelectorExample.column "wall" "nanoseconds";
     SelectorExample.column "CPU" "nanoseconds";
     SelectorExample.column "samples" "count"] 1 /\
  getPrimarySampleTypeIndex
    (SelectorExample.withTypes
       [SelectorExample.column "objects" "count";
        SelectorExample.column "wall" "nanoseconds"]) PCpu = 0.
Proof.
  split.
  - apply (proj1 (primary_column_of_cpu_profile
                    (SelectorExample.withTypes
                       [SelectorExample.column "wall" "nanoseconds";
                        SelectorExample.column "CPU" "nanoseconds";
                        SelectorExample.column "samples" "count"]))).
    eexists. split; [right; left; reflexivity | reflexivity].
  - apply (proj1 (proj2 (primary_column_of_cpu_profile
                           (SelectorExample.withTypes
                              [SelectorExample.column "objects" "count";
                               SelectorExample.column "wall" "nanoseconds"])))).
    intros st [<- | [<- | []]]; reflexivity.
Defined.

(** X3.  For a heap profile the primary column is the first column of type
    ["inuse_space"], also when an ["alloc_space"] column stands before it;
    without one it is the first ["alloc_space"] column, and column 0 when
    there is neither. *)
Theorem primary_column_of_heap_profile (profile : NormalizedProfile) :
  ((exists st, In st (sampleTypes profile) /\
               typeIs "inuse_space" st = true) ->
   FirstAt (typeIs "inuse_space") (sampleTypes profile)
     (getPrimarySampleTypeIndex profile PHeap)) /\
  ((forall st, In st (sampleTypes profile) ->
               typeIs "inuse_space" st = false) ->
   (exists st, In st (sampleTypes profile) /\
               typeIs "alloc_space" st = true) ->
   FirstAt (typeIs "alloc_space") (sampleTypes profile)
     (getPrimarySampleTypeIndex profile PHeap)) /\
  ((forall st, In st (sampleTypes profile) ->
               typeIs "inuse_space" st = false /\
               typeIs "alloc_space" st = false) ->
   getPrimarySampleTypeIndex profile PHeap = 0).
Proof.
  unfold getPrimarySampleTypeIndex. split; [| split].
  - intro Hex. destruct (firstIndexFrom_found _ _ Hex) as [i Hi].
    rewrite Hi. now apply firstIndexFrom_firstAt.
  - intros Hnone Hex.
    apply (firstIndexFrom_none (typeIs "inuse_space") _ 0) in Hnone.
    rewrite Hnone.
    destruct (firstIndexFrom_found _ _ Hex) as [i Hi].
    rewrite Hi. now apply firstIndexFrom_firstAt.
  - intro Hnone.
    assert (H1 : firstIndexFrom (typeIs "inuse_space") 0
                   (sampleTypes profile) = None)
      by (apply firstIndexFrom_none; intros a Ha; apply (Hnone a Ha)).
    assert (H2 : firstIndexFrom (typeIs "alloc_space") 0
                   (sampleTypes profile) = None)
      by (apply firstIndexFrom_none; intros a Ha; apply (Hnone a Ha)).
    now rewrite H1, H2.
Qed.

(** The Go heap columns: in-use space is column 3, behind the
    allocations. *)
Lemma primary_column_of_heap_profile_witness :
  FirstAt (typeIs "inuse_space") SelectorExample.heapColumns 3 /\
  getPrimarySampleTypeIndex
    (SelectorExample.withTypes SelectorExample.mutexColumns) PHeap = 0.
Proof.
  split.
  - apply (proj1 (primary_column_of_heap_profile
                    (SelectorExample.withTypes SelectorExample.heapColumns))).
    eexists. split; [do 3 right; left; reflexivity | reflexivity].
  - apply (proj2 (proj2 (primary_column_of_heap_profile
                           (SelectorExample.withTypes
                              SelectorExample.mutexColumns)))).
    intros st [<- | [<- | []]]; split; reflexivity.
Defined.

Lemma toLowerCase_idempotent (s : string) :
  toLowerCase (toLowerCase s) = toLowerCase s.
Proof.
  induction s as [| c s IH]; cbn; [reflexivity |].
  rewrite IH. f_equal.
  assert (H : forallb (fun n => Ascii.eqb
                         (lowerAscii (lowerAscii (ascii_of_nat n)))
                         (lowerAscii (ascii_of_nat n)))
                (seq 0 256) = true) by (vm_compute; reflexivity).
  rewrite forallb_forall in H.
  specialize (H (nat_of_ascii c)).
  rewrite ascii_nat_embedding in H.
  apply Ascii.eqb_eq, H, in_seq.
  pose proof (nat_ascii_bounded c). lia.
Qed.

Lemma includesString_map {A : Type} (f : A -> string) (l : list A)
    (s : string) :
  includesString (map f l) s = existsb (fun a => String.eqb (f a) s) l.
Proof.
  unfold includesString. induction l as [| a l IH]; cbn; [reflexivity |].
  now rewrite IH, String.eqb_sym.
Qed.

Lemma firstIndexFrom_map {A B : Type} (f : A -> B) (test : B -> bool)
    (i : Z) (l : list A) :
  firstIndexFrom test i (map f l) = firstIndexFrom (fun a => test (f a)) i l.
Proof.
  revert i. induction l as [| a l IH]; intro i; cbn; [reflexivity |].
  now rewrite IH.
Qed.

Lemma firstIndexFrom_ext {A : Type} (test test' : A -> bool) (i : Z)
    (l : list A) :
  (forall a, test a = test' a) ->
  firstIndexFrom test i l = firstIndexFrom test' i l.
Proof.
  intro H. revert i. induction l as [| a l IH]; intro i; cbn; [reflexivity |].
  now rewrite H, IH.
Qed.

Lemma typeIs_lower (name : string) (st : SampleType) :
  typeIs name (lowerSampleType st) = typeIs name st.
Proof. unfold typeIs. cbn. now rewrite toLowerCase_idempotent. Qed.

Lemma detectProfileType_lower (profile : NormalizedProfile) :
  detectProfileType profile =
  detectProfileType
    {| sampleTypes := map lowerSampleType (sampleTypes profile);
       samples := samples profile;
       durationNanos := durationNanos profile;
       period := period profile;
       periodType := periodType profile |}.
Proof.
  unfold detectProfileType. cbn [sampleTypes]. rewrite !map_map. cbn.
  rewrite (map_ext (fun x => toLowerCase (toLowerCase (st_type x)))
             (fun x => toLowerCase (st_type x)))
    by (intro; apply toLowerCase_idempotent).
  rewrite (map_ext (fun x => toLowerCase (toLowerCase (st_unit x)))
             (fun x => toLowerCase (st_unit x)))
    by (intro; apply toLowerCase_idempotent).
  reflexivity.
Qed.

Lemma getPrimarySampleTypeIndex_lower (profile : NormalizedProfile)
    (profileType : ProfileType) :
  getPrimarySampleTypeIndex profile profileType =
  getPrimarySampleTypeIndex
    {| sampleTypes := map lowerSampleType (sampleTypes profile);
       samples := samples profile;
       durationNanos := durationNanos profile;
       period := period profile;
       periodType := periodType profile |} profileType.
Proof.
  unfold getPrimarySampleTypeIndex. cbn [sampleTypes].
  rewrite !firstIndexFrom_map.
  rewrite (firstIndexFrom_ext
             (fun a => orb (typeIs "samples" (lowerSampleType a))
                           (typeIs "cpu" (lowerSampleType a)))
             (fun st => orb (typeIs "samples" st) (typeIs "cpu" st)))
    by (intro; now rewrite !typeIs_lower).
  rewrite (firstIndexFrom_ext
             (fun a => typeIs "inuse_space" (lowerSampleType a))
             (typeIs "inuse_space"))
    by (intro; apply typeIs_lower).
  rewrite (firstIndexFrom_ext
             (fun a => typeIs "alloc_space" (lowerSampleType a))
             (typeIs "alloc_space"))
    by (intro; apply typeIs_lower).
  reflexivity.
Qed.

(** X4.  The profile type and the primary column do not depend on the
    case of the type and unit names: two profiles whose sample types agree
    once lower-cased are detected alike and get the same primary column. *)
Theorem kind_and_column_ignore_case (p q : NormalizedProfile) :
  map lowerSampleType (sampleTypes p) = map lowerSampleType (sampleTypes q) ->
  detectProfileType p = detectProfileType q /\
  forall profileType,
    getPrimarySampleTypeIndex p profileType =
    getPrimarySampleTypeIndex q profileType.
Proof.
  intro H. split.
  - rewrite (detectProfileType_lower p), (detectProfileType_lower q).
    unfold detectProfileType. cbn [sampleTypes]. now rewrite H.
  - intro profileType.
    rewrite (getPrimarySampleTypeIndex_lower p),
      (getPrimarySampleTypeIndex_lower q).
    unfold getPrimarySampleTypeIndex. cbn [sampleTypes]. now rewrite H.
Qed.

Lemma kind_and_column_ignore_case_witness :
  detectProfileType
    (SelectorExample.withTypes [SelectorExample.column "INUSE_SPACE" "Bytes"])
  = detectProfileType
      (SelectorExample.withTypes
         [SelectorExample.column "inuse_space" "bytes"]).
Proof.
  apply (kind_and_column_ignore_case
           (SelectorExample.withTypes
              [SelectorExample.column "INUSE_SPACE" "Bytes"])
           (SelectorExample.withTypes
              [SelectorExample.column "inuse_space" "bytes"])).
  reflexivity.
Defined.

Lemma detect_cpu_name (profile : NormalizedProfile) :
  existsb hasCpuName (sampleTypes profile) = true ->
  detectProfileType profile = PCpu.
Proof.
  intro H. unfold detectProfileType.
  rewrite !includesString_map.
  assert (E : orb (existsb (fun a => String.eqb (toLowerCase (st_type a)) "cpu")
                     (sampleTypes profile))
                (orb (existsb (fun a => String.eqb (toLowerCase (st_type a))
                                          "samples") (sampleTypes profile))
                   (orb (existsb (fun a => String.eqb
                                             (toLowerCase (st_type a))
                                             "sample") (sampleTypes profile))
                      (existsb (fun a => String.eqb (toLowerCase (st_type a))
                                           "wall") (sampleTypes profile))))
              = true).
  { apply existsb_exists in H. destruct H as (st & Hin & Hst).
    unfold hasCpuName, typeIs in Hst.
    rewrite !orb_true_iff in Hst. rewrite !orb_true_iff.
    destruct Hst as [Hst | [Hst | [Hst | Hst]]];
      [left | right; left | right; right; left | right; right; right];
      apply existsb_exists; exists st; auto. }
  now rewrite E.
Qed.

Lemma detect_time_unit (profile : NormalizedProfile) :
  existsb hasTimeUnit (sampleTypes profile) = true ->
  detectProfileType profile = PCpu \/ detectProfileType profile = PHeap.
Proof.
  intro H. unfold detectProfileType.
  destruct (orb (includesString _ "cpu") _); [now left |].
  destruct (orb (includesString _ "alloc_objects") _); [now right |].
  rewrite !includesString_map.
  assert (E : orb (existsb (fun a => String.eqb (toLowerCase (st_unit a))
                                       "nanoseconds") (sampleTypes profile))
                (existsb (fun a => String.eqb (toLowerCase (st_unit a))
                                     "microseconds") (sampleTypes profile))
              = true).
  { apply existsb_exists in H. destruct H as (st & Hin & Hst).
    unfold hasTimeUnit in Hst. rewrite orb_true_iff in Hst.
    rewrite orb_true_iff.
    destruct Hst as [Hst | Hst]; [left | right];
      apply existsb_exists; exists st; auto. }
  rewrite E. now left.
Qed.

(** X5.  The rules of [detectProfileType] apply in order.  A column named
    cpu, samples, sample or wall makes the profile a cpu profile whatever
    else it declares.  A unit of nanoseconds or microseconds makes it cpu
    or heap, never mutex, goroutine or unknown: the columns of a Go mutex
    profile (contentions and delay in nanoseconds) are detected as cpu.
    Without sample types the result is unknown. *)
Theorem detection_rules_in_order (profile : NormalizedProfile) :
  (existsb hasCpuName (sampleTypes profile) = true ->
   detectProfileType profile = PCpu) /\
  (existsb hasTimeUnit (sampleTypes profile) = true ->
   detectProfileType profile = PCpu \/ detectProfileType profile = PHeap) /\
  (detectProfileType profile = PMutex \/
   detectProfileType profile = PGoroutine \/
   detectProfileType profile = PUnknown ->
   existsb hasCpuName (sampleTypes profile) = false /\
   existsb hasTimeUnit (sampleTypes profile) = false) /\
  (sampleTypes profile = [] -> detectProfileType profile = PUnknown) /\
  detectProfileType (SelectorExample.withTypes SelectorExample.mutexColumns)
    = PCpu.
Proof.
  split; [exact (detect_cpu_name profile) |].
  split; [exact (detect_time_unit profile) |].
  split; [| split; [| reflexivity]].
  - intro H.
    destruct (existsb hasCpuName (sampleTypes profile)) eqn:E1.
    + rewrite (detect_cpu_name profile E1) in H.
      destruct H as [H | [H | H]]; discriminate.
    + split; [reflexivity |].
      destruct (existsb hasTimeUnit (sampleTypes profile)) eqn:E2; auto.
      destruct (detect_time_unit profile E2) as [E | E]; rewrite E in H;
        destruct H as [H | [H | H]]; discriminate.
  - intro Hnil. unfold detectProfileType. rewrite Hnil. reflexivity.
Qed.

Lemma detection_rules_in_order_witness :
  detectProfileType
    (SelectorExample.withTypes
       [SelectorExample.column "alloc_space" "bytes";
        SelectorExample.column "Wall" "nanoseconds"]) = PCpu /\
  detectProfileType (SelectorExample.withTypes []) = PUnknown.
Proof.
  split.
  - apply (proj1 (detection_rules_in_order
                    (SelectorExample.withTypes
                       [SelectorExample.column "alloc_space" "bytes";
                        SelectorExample.column "Wall" "nanoseconds"]))).
    reflexivity.
  - apply (proj1 (proj2 (proj2 (proj2 (detection_rules_in_order
                                         (SelectorExample.withTypes [])))))).
    reflexivity.
Defined.


(** ** Which rows the aggregator creates *)

Lemma keys_set {V : Type} (k : string) (v : V) (m : OMap.t V) :
  OMap.keys (OMap.set k v m) =
  match OMap.get k m with
  | Some _ => OMap.keys m
  | None => OMap.keys m ++ [k]
  end.
Proof.
  unfold OMap.keys. induction m as [| [k' v'] m IH]; cbn; [reflexivity |].
  destruct (String.eqb k k') eqn:E; cbn; [reflexivity |].
  rewrite IH. now destruct (OMap.get k m).
Qed.

Lemma get_none_not_in {V : Type} (k : string) (m : OMap.t V) :
  OMap.get k m = None <-> ~ In k (OMap.keys m).
Proof.
  unfold OMap.keys. induction m as [| [k' v'] m IH]; cbn.
  - tauto.
  - destruct (String.eqb k k') eqn:E.
    + apply String.eqb_eq in E. subst. split; [discriminate | tauto].
    + apply String.eqb_neq in E. rewrite IH. split.
      * intros H [H' | H']; [congruence | contradiction].
      * tauto.
Qed.

Lemma nodup_keys_set {V : Type} (k : string) (v : V) (m : OMap.t V) :
  NoDup (OMap.keys m) -> NoDup (OMap.keys (OMap.set k v m)).
Proof.
  intro H. rewrite keys_set.
  destruct (OMap.get k m) eqn:E; [exact H |].
  apply get_none_not_in in E.
  apply NoDup_app; [exact H | repeat constructor; intros [] |].
  intros a Ha [<- | []]. contradiction.
Qed.

Lemma lineStep_nodup (value : Numeric) (stack : list Location) (i : nat)
    (st : AggState) (lineInfo : LineInfo) :
  WellKeyed (fst st) -> NoDup (OMap.keys (fst st)) ->
  NoDup (OMap.keys (fst (lineStep value stack i st lineInfo))).
Proof.
  destruct st as [stats seen]. cbn [fst]. intros HW Hnd.
  destruct (lineStep_spec value stack i stats seen lineInfo HW)
    as (row & _ & _ & _ & _ & _ & Hfst).
  rewrite Hfst. apply nodup_keys_set.
  destruct (OMap.get (keyOf lineInfo) stats); [exact Hnd |].
  now apply nodup_keys_set.
Qed.

Lemma lines_nodup (value : Numeric) (stack : list Location) (i : nat)
    (lines : list LineInfo) (st : AggState) :
  WellKeyed (fst st) -> NoDup (OMap.keys (fst st)) ->
  WellKeyed (fst (fold_left (lineStep value stack i) lines st)) /\
  NoDup (OMap.keys (fst (fold_left (lineStep value stack i) lines st))).
Proof.
  revert st. induction lines as [| li lines IH]; intros st HW Hnd;
    cbn [fold_left]; [auto |].
  apply IH; [now apply lineStep_wellKeyed | now apply lineStep_nodup].
Qed.

Lemma aggregateSample_nodup (index : Z) (stats : OMap.t FunctionStats)
    (sample : Sample) :
  WellKeyed stats -> NoDup (OMap.keys stats) ->
  NoDup (OMap.keys (aggregateSample index stats sample)).
Proof.
  intros HW Hnd. unfold aggregateSample.
  destruct (isZero (sampleValue sample index)); [exact Hnd |].
  apply (stack_loop_invariant (sampleValue sample index) (s_stack sample)
           (fun _ st => WellKeyed (fst st) /\ NoDup (OMap.keys (fst st)))).
  - intros i location st _ [H1 H2]. now apply lines_nodup.
  - auto.
Qed.

Lemma aggregateSample_row (index : Z) (stats : OMap.t FunctionStats)
    (sample : Sample) (k : string) :
  WellKeyed stats ->
  (OMap.get k (aggregateSample index stats sample) = None <->
   OMap.get k stats = None /\ creditedBy index k sample = false).
Proof.
  intro HW. unfold aggregateSample, creditedBy.
  destruct (isZero (sampleValue sample index)); cbn [negb andb].
  - tauto.
  - destruct (stack_creditedOnce stats (sampleValue sample index)
                (s_stack sample) HW) as (_ & _ & Hin & Hout).
    fold (sampleKeys sample) in Hin, Hout.
    destruct (existsb (String.eqb k) (sampleKeys sample)) eqn:E.
    + assert (Hk : In k (sampleKeys sample)) by now apply has_In.
      destruct (Hin k Hk) as (row & Hrow & _). rewrite Hrow.
      split; [discriminate | intros [_ H]; discriminate].
    + assert (Hk : ~ In k (sampleKeys sample)).
      { intro Hk. apply has_In in Hk. unfold OSet.has in Hk. congruence. }
      rewrite (Hout k Hk). tauto.
Qed.

Lemma samples_rows (index : Z) (k : string) (l : list Sample)
    (stats : OMap.t FunctionStats) :
  WellKeyed stats -> NoDup (OMap.keys stats) ->
  WellKeyed (fold_left (aggregateSample index) l stats) /\
  NoDup (OMap.keys (fold_left (aggregateSample index) l stats)) /\
  (OMap.get k (fold_left (aggregateSample index) l stats) = None <->
   OMap.get k stats = None /\ creditedByAny index k l = false).
Proof.
  revert stats. induction l as [| s l IH]; intros stats HW Hnd.
  - cbn. tauto.
  - cbn [fold_left creditedByAny existsb].
    pose proof (aggregateSample_creditedOnce index stats s k HW) as (HW' & _).
    pose proof (aggregateSample_nodup index stats s HW Hnd) as Hnd'.
    destruct (IH _ HW' Hnd') as (H1 & H2 & H3).
    split; [exact H1 |]. split; [exact H2 |].
    rewrite H3, (aggregateSample_row index stats s k HW).
    fold (creditedByAny index k l). rewrite orb_false_iff. tauto.
Qed.

Lemma keys_statsPercentages (totalNum : Q) (stats : OMap.t FunctionStats) :
  OMap.keys (statsPercentages totalNum stats) = OMap.keys stats.
Proof.
  unfold OMap.keys, statsPercentages. rewrite map_map. reflexivity.
Qed.

(** X6.  The statistics map has a row for a key exactly when some sample
    with a value other than zero has a frame with that key.  Each key has
    one row, the row carries the key it is stored under, and its
    [sampleCount] is at least 1. *)
Theorem stats_rows_are_the_sampled_frames
    (profile : NormalizedProfile) (index : Z) (totalValue : Numeric) :
  let stats := aggregateFunctionStats profile index totalValue in
  NoDup (OMap.keys stats) /\
  forall k,
    (OMap.get k stats = None <->
     creditedByAny index k (samples profile) = false) /\
    (forall row, OMap.get k stats = Some row ->
       fs_key row = k /\ 1 <= fs_sampleCount row /\
       exists sample lineInfo location,
         In sample (samples profile) /\
         isZero (sampleValue sample index) = false /\
         In location (s_stack sample) /\
         In lineInfo (loc_lines location) /\
         identityKey (li_function lineInfo) (li_line lineInfo) = k).
Proof.
  cbv zeta. unfold aggregateFunctionStats.
  assert (Hnd0 : NoDup (OMap.keys (@OMap.empty FunctionStats)))
    by constructor.
  split.
  - rewrite keys_statsPercentages.
    apply (samples_rows index EmptyString (samples profile) OMap.empty
             wellKeyed_empty Hnd0).
  - intro k.
    destruct (samples_rows index k (samples profile) OMap.empty
                wellKeyed_empty Hnd0) as (HW & _ & Hnone).
    destruct (samples_creditedOnce index k (samples profile) OMap.empty
                wellKeyed_empty) as (Hcount & _).
    rewrite get_statsPercentages.
    set (raw := fold_left (aggregateSample index) (samples profile)
                  OMap.empty) in *.
    assert (Hnone' : OMap.get k raw = None <->
                     creditedByAny index k (samples profile) = false).
    { rewrite Hnone. cbn. tauto. }
    clear Hnone.
    split.
    + destruct (OMap.get k raw) as [row |] eqn:E; cbn.
      * split; [discriminate |]. intro H.
        apply Hnone' in H. discriminate.
      * split; [intros _; now apply Hnone' | reflexivity].
    + intros row Hrow.
      destruct (OMap.get k raw) as [row0 |] eqn:E; [| discriminate].
      cbn in Hrow. injection Hrow as <-. cbn [fs_key fs_sampleCount withPercents].
      split; [now apply HW |].
      assert (Hany : creditedByAny index k (samples profile) = true).
      { destruct (creditedByAny index k (samples profile)) eqn:Ea; auto.
        assert (H : Some row0 = None) by (apply Hnone'; auto).
        discriminate. }
      unfold creditedByAny in Hany. apply existsb_exists in Hany.
      destruct Hany as (s & Hs & Hcred).
      split.
      * unfold countAt in Hcount. rewrite E in Hcount. cbn in Hcount.
        rewrite Hcount.
        assert (In s (filter (creditedBy index k) (samples profile)))
          by (apply filter_In; auto).
        destruct (filter (creditedBy index k) (samples profile));
          [contradiction | cbn [List.length]; lia].
      * unfold creditedBy in Hcred. apply andb_true_iff in Hcred.
        destruct Hcred as [Hnz Hk]. apply negb_true_iff in Hnz.
        apply existsb_exists in Hk. destruct Hk as (k' & Hin & Hk').
        apply String.eqb_eq in Hk'. subst k'.
        unfold sampleKeys in Hin. apply in_flat_map in Hin.
        destruct Hin as (location & Hloc & Hin).
        unfold locKeys in Hin. apply in_map_iff in Hin.
        destruct Hin as (li & Hli & Hin).
        exists s, li, location. auto.
Qed.


(** ** The call tree adds up *)

Lemma childrenCount_cons (kv : string * CallTreeNode)
    (m : OMap.t CallTreeNode) :
  childrenCount (kv :: m) = cumulativeCount (snd kv) + childrenCount m.
Proof. reflexivity. Qed.

Lemma childrenCount_set (k : string) (c : CallTreeNode)
    (m : OMap.t CallTreeNode) :
  childrenCount (OMap.set k c m) =
  childrenCount m
  - match OMap.get k m with Some o => cumulativeCount o | None => 0 end
  + cumulativeCount c.
Proof.
  induction m as [| [k' c'] m IH]; cbn; [lia |].
  destruct (String.eqb k k'); cbn; [lia |].
  unfold childrenCount in IH. rewrite IH. lia.
Qed.

Lemma balanced_set (k : string) (c : CallTreeNode)
    (m : OMap.t CallTreeNode) :
  Forall (fun kv => Balanced (snd kv)) m -> Balanced c ->
  Forall (fun kv => Balanced (snd kv)) (OMap.set k c m).
Proof.
  intros Hm Hc. induction m as [| [k' c'] m IH]; cbn.
  - constructor; auto.
  - inversion Hm as [| ? ? H1 H2]; subst.
    destruct (String.eqb k k'); constructor; auto.
Qed.

Lemma balanced_nonneg (node : CallTreeNode) :
  Balanced node -> 0 <= cumulativeCount node.
Proof.
  induction node as [node IH] using tree_induction.
  intros [_ Hs _ Hc Hall]. rewrite Hc.
  assert (0 <= childrenCount (ct_children node)); [| lia].
  clear Hc.
  induction (ct_children node) as [| kv l IHl]; [cbn; lia |].
  inversion IH as [| ? ? H1 H2]; subst.
  inversion Hall as [| ? ? H3 H4]; subst.
  specialize (IHl H2 H4). specialize (H1 H3).
  rewrite childrenCount_cons. lia.
Qed.

Lemma childrenCount_nonneg (m : OMap.t CallTreeNode) :
  Forall (fun kv => Balanced (snd kv)) m -> 0 <= childrenCount m.
Proof.
  induction 1 as [| kv l H _ IH]; [cbn; lia |].
  apply balanced_nonneg in H. rewrite childrenCount_cons. lia.
Qed.

Lemma balanced_get (k : string) (c : CallTreeNode)
    (m : OMap.t CallTreeNode) :
  Forall (fun kv => Balanced (snd kv)) m -> OMap.get k m = Some c ->
  Balanced c /\ cumulativeCount c <= childrenCount m.
Proof.
  induction 1 as [| [k' c'] l H Hl IH]; [discriminate |].
  pose proof (childrenCount_nonneg l Hl) as Hnn.
  rewrite childrenCount_cons. cbn [OMap.get snd] in *.
  destruct (String.eqb k k').
  - intros [= <-]. split; [exact H | lia].
  - intro Hg. destruct (IH Hg) as [H1 H2]. split; [exact H1 |].
    apply balanced_nonneg in H. lia.
Qed.

Lemma balanced_newChild (key : string) (lineInfo : LineInfo) :
  Balanced (newChild key lineInfo) /\
  cumulativeCount (newChild key lineInfo) = 0.
Proof.
  split; [| reflexivity].
  constructor; try reflexivity. constructor.
Qed.

Lemma countOf_number (z : Z) : countOf (JNumber (inject_Z z)) = z.
Proof. cbn. apply Qfloor_Z. Qed.

(** One sample merged below a node whose subtrees add up: they still do,
    and the node has to carry the value of the sample on top. *)
Lemma descend_open (value : Numeric) (frames : list LineInfo) :
  isCount value = true ->
  forall (node : CallTreeNode) (weight : Z),
    Open weight node -> weight + countOf value < 2 ^ 53 ->
    Open (weight + countOf value) (descend frames value node).
Proof.
  intro Hv. pose proof (isCount_nonneg value Hv) as Hc.
  induction frames as [| lineInfo rest IH];
    intros node weight (Hself & Hs0 & Hall & Hw) Hlt.
  - pose proof (childrenCount_nonneg _ Hall) as Hnn.
    cbn [descend]. unfold Open, nodeSelfCount.
    cbn [withNodeSelf ct_selfValue ct_children].
    rewrite Hself, addNumeric_count by (auto; lia).
    rewrite !countOf_number.
    split; [reflexivity |]. split; [lia |]. split; [exact Hall | lia].
  - pose proof (childrenCount_nonneg _ Hall) as Hnn.
    cbn [descend]. cbv zeta.
    set (key := identityKey (li_function lineInfo) (li_line lineInfo)).
    set (child0 := match OMap.get key (ct_children node) with
                   | Some child => child
                   | None => newChild key lineInfo
                   end).
    assert (H0 : Balanced child0 /\
                 cumulativeCount child0 =
                 match OMap.get key (ct_children node) with
                 | Some o => cumulativeCount o
                 | None => 0
                 end /\
                 cumulativeCount child0 <= childrenCount (ct_children node)).
    { unfold child0.
      destruct (OMap.get key (ct_children node)) as [c |] eqn:E.
      - destruct (balanced_get key c _ Hall E). auto.
      - destruct (balanced_newChild key lineInfo) as [H1 H2].
        rewrite H2. auto. }
    destruct H0 as (Hb0 & Hx & Hle).
    pose proof (balanced_nonneg _ Hb0) as Hx0.
    destruct Hb0 as [Hbs Hbs0 Hbc Hbal Hbch].
    set (child1 := withNodeCumulative
                     (addNumeric (ct_cumulativeValue child0) value) child0).
    assert (Hopen : Open (cumulativeCount child0) child1).
    { unfold Open, child1, nodeSelfCount.
      cbn [withNodeCumulative ct_selfValue ct_children].
      split; [exact Hbs |]. split; [exact Hbs0 |].
      split; [exact Hbch | exact Hbal]. }
    assert (Hlt1 : cumulativeCount child0 + countOf value < 2 ^ 53) by lia.
    destruct (IH child1 _ Hopen Hlt1) as (H1 & H2 & H3 & H4).
    assert (Hcum : ct_cumulativeValue (descend rest value child1) =
                   JNumber (inject_Z (cumulativeCount child0 + countOf value))).
    { destruct (descend_root rest value child1) as (-> & _).
      unfold child1. cbn [withNodeCumulative ct_cumulativeValue].
      rewrite Hbc at 1. apply addNumeric_count; auto. }
    assert (Hb2 : Balanced (descend rest value child1)).
    { constructor; auto.
      - unfold cumulativeCount. rewrite Hcum, countOf_number. reflexivity.
      - unfold cumulativeCount at 1. rewrite Hcum, countOf_number.
        exact H4. }
    unfold Open, nodeSelfCount.
    cbn [withNodeChildren ct_selfValue ct_children].
    split; [exact Hself |]. split; [exact Hs0 |].
    split; [now apply balanced_set |].
    rewrite childrenCount_set. fold key. rewrite <- Hx.
    unfold cumulativeCount at 2. rewrite Hcum, countOf_number.
    unfold nodeSelfCount in Hw. lia.
Qed.

Lemma count_of_zero (v : Numeric) :
  isCount v = true -> countOf v < 2 ^ 53 -> isZero v = true ->
  countOf v = 0.
Proof.
  intros Hc Hlt Hz. unfold isZero in Hz. apply Qeq_bool_iff in Hz.
  rewrite (toNum_count v Hc Hlt) in Hz.
  unfold Qeq in Hz. cbn in Hz. lia.
Qed.

Lemma samples_open (index : Z) (l : list Sample) :
  Forall (fun s => isCount (sampleValue s index) = true) l ->
  forall (root : CallTreeNode) (weight : Z),
    0 <= weight -> Open weight root ->
    weight + columnSum index l < 2 ^ 53 ->
    Open (weight + columnSum index l)
      (fold_left (treeSample index) l root).
Proof.
  induction 1 as [| s l Hs Hl IH]; intros root weight H0 Hopen Hlt.
  - cbn. now rewrite Z.add_0_r.
  - cbn [fold_left columnSum fold_right] in *.
    fold (columnSum index l) in *.
    pose proof (columnSum_nonneg index l Hl) as Hnn.
    pose proof (isCount_nonneg _ Hs) as Hc.
    rewrite Z.add_assoc. apply IH; [lia | | lia].
    unfold treeSample.
    destruct (isZero (sampleValue s index)) eqn:Ez.
    + rewrite (count_of_zero _ Hs) by (auto; lia).
      now rewrite Z.add_0_r.
    + apply descend_open; auto. lia.
Qed.

Lemma calculate_balanced (totalValue : Numeric) (node : CallTreeNode) :
  Balanced node -> Balanced (calculateTreePercentages node totalValue).
Proof.
  induction node as [node IH] using tree_induction.
  intros [Hs Hs0 Hc Hbal Hall].
  assert (Hcount : childrenCount
                     (map (fun kv => (fst kv,
                             calculateTreePercentages (snd kv) totalValue))
                        (ct_children node)) =
                   childrenCount (ct_children node)).
  { clear. induction (ct_children node) as [| [k c] l IHl]; cbn;
      [reflexivity |].
    unfold childrenCount in IHl. rewrite IHl.
    destruct c; reflexivity. }
  destruct node as [k n f l sv cv sp cp children].
  cbn [calculateTreePercentages]. cbn [ct_children] in *.
  constructor; cbn [ct_selfValue ct_cumulativeValue ct_children]; auto.
  - unfold cumulativeCount, nodeSelfCount in *. cbn in *.
    rewrite Hcount. exact Hbal.
  - clear Hcount Hbal. induction children as [| kv children IHc];
      cbn; constructor.
    + inversion IH; inversion Hall; subst; auto.
    + inversion IH; inversion Hall; subst; auto.
Qed.

Lemma buildCallTree_balanced (profile : NormalizedProfile) (index : Z) :
  Forall (fun s => isCount (sampleValue s index) = true) (samples profile) ->
  columnSum index (samples profile) < 2 ^ 53 ->
  Balanced (buildCallTree profile index (computeTotal profile index)) /\
  cumulativeCount (buildCallTree profile index (computeTotal profile index)) =
    columnSum index (samples profile).
Proof.
  intros Hc Hlt. rewrite (computeTotal_exact profile index Hc Hlt).
  set (total := JNumber (inject_Z (columnSum index (samples profile)))).
  assert (Hm : Balanced (mergedTree profile index total) /\
               cumulativeCount (mergedTree profile index total) =
               columnSum index (samples profile)).
  { destruct (mergedTree_root profile index total) as (Hroot & _).
    assert (Hopen : Open 0 (seededRoot total)).
    { unfold Open. cbn. repeat split; try lia. constructor. }
    pose proof (samples_open index (samples profile) Hc (seededRoot total) 0
                  (Z.le_refl 0) Hopen Hlt) as (H1 & H2 & H3 & H4).
    fold (mergedTree profile index total) in H1, H2, H3, H4.
    assert (Hcc : cumulativeCount (mergedTree profile index total) =
                  columnSum index (samples profile)).
    { unfold cumulativeCount. rewrite Hroot. unfold total.
      apply countOf_number. }
    split; [| exact Hcc].
    constructor; auto.
    - rewrite Hcc. exact Hroot.
    - rewrite Hcc. exact H4. }
  destruct Hm as [Hb Hcc]. unfold buildCallTree.
  split; [now apply calculate_balanced |].
  rewrite <- Hcc. unfold cumulativeCount.
  now destruct (mergedTree profile index total).
Qed.

Lemma balanced_inTree (tree node : CallTreeNode) :
  Balanced tree -> InTree node tree ->
  Balanced node /\ cumulativeCount node <= cumulativeCount tree.
Proof.
  intros Hb Hin. induction Hin as [| tree child Hc Hin IH].
  - split; [exact Hb | lia].
  - destruct Hb as [_ Hs0 _ Hbal Hall].
    unfold OMap.values in Hc. apply in_map_iff in Hc.
    destruct Hc as (kv & <- & Hkv).
    assert (Hchild : Balanced (snd kv) /\
                     cumulativeCount (snd kv) <=
                       childrenCount (ct_children tree)).
    { clear Hbal. induction Hall as [| kv' l H1 Hl IHl];
        [contradiction |].
      pose proof (childrenCount_nonneg l Hl) as Hnn.
      pose proof (balanced_nonneg _ H1) as Hnn1.
      rewrite childrenCount_cons.
      destruct Hkv as [-> | Hkv].
      - split; [exact H1 | lia].
      - destruct (IHl Hkv) as [H2 H3]. split; [exact H2 | lia]. }
    destruct Hchild as [Hb' Hle]. destruct (IH Hb') as [H1 H2].
    split; [exact H1 | lia].
Qed.

Lemma balanced_children_sum (node : CallTreeNode) :
  Forall (fun kv => Balanced (snd kv)) (ct_children node) ->
  childrenCumulative node == inject_Z (childrenCount (ct_children node)).
Proof.
  unfold childrenCumulative, OMap.values.
  induction 1 as [| kv l H Hl IH]; cbn; [reflexivity |].
  rewrite IH. destruct H as [_ _ Hc _ _]. rewrite Hc at 1. cbn [toNum].
  rewrite inject_Z_plus. reflexivity.
Qed.

Lemma emptyNode_inTree (name : string) (node : CallTreeNode) :
  InTree node (createEmptyNode name) -> node = createEmptyNode name.
Proof.
  intro H. inversion H as [| ? child Hc _]; [reflexivity |].
  cbn in Hc. contradiction.
Qed.

(** X7.  When the values of the selected column are counts (integers that
    are not negative, as numbers or bigints) whose sum stays below 2^53,
    every node of the call tree of a result adds up: its
    [cumulativeValue] is its [selfValue] plus the [cumulativeValue]s of
    its children.  This holds at the root too, whose [selfValue] collects
    the samples with an empty stack.  No node carries more than the
    total. *)
Theorem callTree_nodes_add_up
    (profile : NormalizedProfile) (options : AnalyzeOptions)
    (r : AnalysisResult) (node : CallTreeNode) :
  analyzeProfile profile options = Returns r ->
  Forall (fun s => isCount (sampleValue s (resolvedIndex options)) = true)
    (samples profile) ->
  columnSum (resolvedIndex options) (samples profile) < 2 ^ 53 ->
  InTree node (r_callTree r) ->
  toNum (ct_cumulativeValue node) ==
    toNum (ct_selfValue node) + childrenCumulative node /\
  (0 <= toNum (ct_selfValue node))%Q /\
  (toNum (ct_cumulativeValue node) <= toNum (r_totalValue r))%Q.
Proof.
  intros Hr Hc Hlt Hin. unfold analyzeProfile in Hr.
  destruct (jsIndex (sampleTypes profile) (resolvedIndex options));
    [| discriminate].
  destruct (isZero (computeTotal profile (resolvedIndex options))) eqn:Ez;
    injection Hr as <-; cbn [r_callTree r_totalValue] in *.
  - apply emptyNode_inTree in Hin. subst node. cbn.
    split; [reflexivity |]. split; apply Qle_refl.
  - destruct (buildCallTree_balanced profile _ Hc Hlt) as [Hb Hcc].
    destruct (balanced_inTree _ _ Hb Hin) as [Hn Hle].
    rewrite Hcc in Hle.
    rewrite (computeTotal_exact profile _ Hc Hlt). cbn [toNum].
    rewrite (balanced_children_sum node) by (now destruct Hn).
    destruct Hn as [Hs Hs0 Hcv Hbal _].
    rewrite Hcv, Hs. cbn [toNum].
    split; [| split].
    + rewrite <- inject_Z_plus. now rewrite Hbal.
    + change 0%Q with (inject_Z 0). now rewrite <- Zle_Qle.
    + now rewrite <- Zle_Qle.
Qed.

(** In the tree of the example the node [main] below the root carries 7,
    which is 0 of its own plus 4 and 3 of its children. *)
Lemma callTree_nodes_add_up_witness :
  exists r main,
    analyzeProfile BalanceExample.profile defaultOptions = Returns r /\
    childAt "main@app.js:7" (r_callTree r) = Some main /\
    toNum (ct_cumulativeValue main) == 7 /\
    toNum (ct_cumulativeValue main) ==
      toNum (ct_selfValue main) + childrenCumulative main.
Proof.
  destruct (analyzeProfile BalanceExample.profile defaultOptions)
    as [r | e] eqn:E; [| vm_compute in E; discriminate].
  pose proof E as E'. vm_compute in E'. injection E' as E'. subst r.
  eexists _, _. split; [reflexivity |].
  split; [vm_compute; reflexivity |].
  split; [vm_compute; reflexivity |].
  eapply (callTree_nodes_add_up BalanceExample.profile defaultOptions _ _ E).
  - repeat constructor.
  - vm_compute. reflexivity.
  - eapply in_tree_below; [left; reflexivity | constructor].
Defined.


(** ** An invariant of the traversal *)

Section TraverseInvariant.

Variable maxPaths : nat.

(** What holds of a path recorded by the traversal of a node entered with
    a prefix and an anchor. *)
Variable R : CallTreeNode -> list PathNode -> Q -> CriticalPath -> Prop.

Hypothesis R_leaf :
  forall node path anchor,
    ct_children node = [] ->
    R node path anchor
      {| cp_path := path ++ [pathNodeOf node];
         cp_cumulativePercent := anchor |}.

Hypothesis R_child :
  forall node child path anchor a cp,
    In child (OMap.values (ct_children node)) ->
    a = anchor \/ a = ct_cumulativePercent child ->
    R child (path ++ [pathNodeOf node]) a cp ->
    R node path anchor cp.

Definition Keeps (node : CallTreeNode) : Prop :=
  forall path anchor paths,
  exists news,
    traverse maxPaths node path anchor paths = paths ++ news /\
    news <> [] /\
    Forall (R node path anchor) news.

Lemma otherChildren_keeps (node : CallTreeNode) (path : list PathNode)
    (anchor : Q) (rest : list CallTreeNode) :
  Forall Keeps rest ->
  (forall c, In c rest -> In c (OMap.values (ct_children node))) ->
  forall paths,
  exists news,
    otherChildren maxPaths (path ++ [pathNodeOf node])
      (map (fun c => (c, traverse maxPaths c)) rest) paths = paths ++ news /\
    Forall (R node path anchor) news.
Proof.
  induction rest as [| c rest IH]; intros Hall Hin paths.
  - exists []. cbn. rewrite app_nil_r. split; [reflexivity | constructor].
  - inversion Hall as [| ? ? Hc Hrest]; subst.
    assert (Hin' : forall c', In c' rest ->
                     In c' (OMap.values (ct_children node)))
      by (intros c' H; apply Hin; now right).
    cbn [map otherChildren].
    destruct (Nat.ltb (List.length paths) (maxPaths * 2));
      [| exists []; rewrite app_nil_r; split; [reflexivity | constructor]].
    destruct (Qle_bool 5 (ct_cumulativePercent c)).
    + destruct (Hc (path ++ [pathNodeOf node]) (ct_cumulativePercent c) paths)
        as (n1 & Heq & _ & H1).
      rewrite Heq.
      destruct (IH Hrest Hin' (paths ++ n1)) as (n2 & Heq2 & H2).
      rewrite Heq2, <- app_assoc. exists (n1 ++ n2).
      split; [reflexivity |]. apply Forall_app. split; [| exact H2].
      eapply Forall_impl; [| exact H1]. cbn. intros cp Hcp.
      apply (R_child node c path anchor (ct_cumulativePercent c) cp);
        [apply Hin; now left | now right | exact Hcp].
    + apply (IH Hrest Hin').
Qed.

Lemma traverse_keeps (node : CallTreeNode) : Keeps node.
Proof.
  induction node as [node IH] using tree_induction.
  intros path anchor paths. rewrite traverse_unfold. cbv zeta.
  assert (Hsorted : Forall Keeps
                      (sortBy byCumulativeValue
                         (OMap.values (ct_children node)))).
  { apply Forall_forall. intros c Hc. apply sortBy_In in Hc.
    unfold OMap.values in Hc. apply in_map_iff in Hc.
    destruct Hc as (kv & <- & Hkv).
    rewrite Forall_forall in IH. now apply IH. }
  assert (Hin : forall c,
             In c (sortBy byCumulativeValue
                     (OMap.values (ct_children node))) ->
             In c (OMap.values (ct_children node)))
    by (intros c Hc; now apply sortBy_In in Hc).
  destruct (sortBy byCumulativeValue (OMap.values (ct_children node)))
    as [| hot rest] eqn:Es.
  - assert (Hleaf : ct_children node = []).
    { apply (f_equal (@List.length _)) in Es.
      rewrite sortBy_length in Es. unfold OMap.values in Es.
      rewrite length_map in Es. now destruct (ct_children node). }
    eexists. split; [reflexivity |]. split; [discriminate |].
    constructor; [now apply R_leaf | constructor].
  - inversion Hsorted as [| ? ? Hhot Hrest]; subst.
    destruct (Hhot (path ++ [pathNodeOf node]) anchor paths)
      as (n1 & Heq & Hne & H1).
    rewrite Heq.
    destruct (otherChildren_keeps node path anchor rest Hrest
                (fun c Hc => Hin c (or_intror Hc)) (paths ++ n1))
      as (n2 & Heq2 & H2).
    rewrite Heq2, <- app_assoc. exists (n1 ++ n2).
    split; [reflexivity |].
    split; [destruct n1; [congruence | discriminate] |].
    apply Forall_app. split; [| exact H2].
    eapply Forall_impl; [| exact H1]. cbn. intros cp Hcp.
    apply (R_child node hot path anchor anchor cp);
      [apply Hin; now left | now left | exact Hcp].
Qed.

Lemma starts_keep (starts : list CallTreeNode) (paths : list CriticalPath) :
  exists news,
    fold_left
      (fun paths child =>
         traverse maxPaths child [] (ct_cumulativePercent child) paths)
      starts paths = paths ++ news /\
    (starts <> [] -> news <> []) /\
    Forall (fun cp => exists start, In start starts /\
              R start [] (ct_cumulativePercent start) cp) news.
Proof.
  revert paths. induction starts as [| c starts IH]; intro paths.
  - exists []. cbn. rewrite app_nil_r.
    split; [reflexivity |]. split; [congruence | constructor].
  - cbn [fold_left].
    destruct (traverse_keeps c [] (ct_cumulativePercent c) paths)
      as (n1 & Heq & Hne & H1).
    rewrite Heq.
    destruct (IH (paths ++ n1)) as (n2 & Heq2 & _ & H2).
    rewrite Heq2, <- app_assoc. exists (n1 ++ n2).
    split; [reflexivity |].
    split; [intros _; destruct n1; [congruence | discriminate] |].
    apply Forall_app. split.
    + eapply Forall_impl; [| exact H1]. cbn. intros cp Hcp.
      exists c. split; [now left | exact Hcp].
    + eapply Forall_impl; [| exact H2]. cbn.
      intros cp (start & Hin & Hcp). exists start. split; [now right | auto].
Qed.

End TraverseInvariant.

(** ** Critical paths are chains of the tree *)

Lemma runsDown_leaf (node : CallTreeNode) (path : list PathNode) (anchor : Q) :
  ct_children node = [] ->
  RunsDown node path anchor
    {| cp_path := path ++ [pathNodeOf node];
       cp_cumulativePercent := anchor |}.
Proof.
  intro H. exists [pathNodeOf node].
  split; [reflexivity |]. split; [now constructor | now left].
Qed.

Lemma runsDown_child (node child : CallTreeNode) (path : list PathNode)
    (anchor a : Q) (cp : CriticalPath) :
  In child (OMap.values (ct_children node)) ->
  a = anchor \/ a = ct_cumulativePercent child ->
  RunsDown child (path ++ [pathNodeOf node]) a cp ->
  RunsDown node path anchor cp.
Proof.
  intros Hin Ha (chain & Hpath & Hchain & Hpct).
  exists (pathNodeOf node :: chain).
  split; [now rewrite Hpath, <- app_assoc |].
  split; [now apply (chain_goes node child) |].
  destruct Hpct as [Hpct | (n & Hn & Hpct)].
  - destruct Ha as [-> | ->]; [now left |].
    right. exists child. split; [| exact Hpct].
    apply (in_tree_below child node child Hin). constructor.
  - right. exists n. split; [| exact Hpct].
    now apply (in_tree_below n node child).
Qed.

Lemma extracted_paths_run_down (callTree : CallTreeNode) (maxPaths : nat)
    (cp : CriticalPath) :
  In cp (extractCriticalPaths callTree maxPaths) ->
  exists start n,
    In start (OMap.values (ct_children callTree)) /\
    ChainToLeaf start (cp_path cp) /\
    InTree n start /\
    cp_cumulativePercent cp = ct_cumulativePercent n.
Proof.
  unfold extractCriticalPaths. intro H.
  apply in_firstn, sortBy_In in H.
  destruct (starts_keep maxPaths RunsDown runsDown_leaf runsDown_child
              (firstn maxPaths
                 (sortBy byCumulativeValue
                    (OMap.values (ct_children callTree)))) [])
    as (news & Heq & _ & Hall).
  rewrite Heq in H. cbn [app] in H.
  rewrite Forall_forall in Hall.
  destruct (Hall cp H) as (start & Hin & chain & Hpath & Hchain & Hpct).
  cbn [app] in Hpath. rewrite <- Hpath in Hchain.
  apply in_firstn, sortBy_In in Hin.
  destruct Hpct as [Hpct | (n & Hn & Hpct)].
  - exists start, start. repeat split; auto. constructor.
  - exists start, n. auto.
Qed.

Lemma firstn_nil_iff {A : Type} (n : nat) (l : list A) :
  firstn n l = [] <-> n = O \/ l = [].
Proof.
  destruct n, l; cbn; split; auto; try discriminate;
    intros [H | H]; discriminate.
Qed.

Lemma sortBy_nil_iff {A : Type} (cmp : A -> A -> Q) (l : list A) :
  sortBy cmp l = [] <-> l = [].
Proof.
  split; intro H.
  - apply (f_equal (@List.length _)) in H. rewrite sortBy_length in H.
    now destruct l.
  - now subst.
Qed.

(** The extractor returns no path exactly when it is asked for none or
    the root has no child. *)
Lemma extractCriticalPaths_nil_iff (callTree : CallTreeNode) (maxPaths : nat) :
  extractCriticalPaths callTree maxPaths = [] <->
  maxPaths = O \/ ct_children callTree = [].
Proof.
  unfold extractCriticalPaths.
  destruct (starts_keep maxPaths (fun _ _ _ _ => True)
              (fun _ _ _ _ => I) (fun _ _ _ _ _ _ _ _ _ => I)
              (firstn maxPaths
                 (sortBy byCumulativeValue
                    (OMap.values (ct_children callTree)))) [])
    as (news & Heq & Hne & _).
  rewrite Heq. cbn [app].
  rewrite firstn_nil_iff, sortBy_nil_iff.
  split.
  - intros [H | H]; [now left |]. subst news.
    destruct (firstn maxPaths
                (sortBy byCumulativeValue
                   (OMap.values (ct_children callTree)))) eqn:E.
    + apply firstn_nil_iff in E. destruct E as [E | E]; [now left |].
      apply sortBy_nil_iff in E. right.
      unfold OMap.values in E. now destruct (ct_children callTree).
    + exfalso. now apply Hne.
  - intros [H | H]; [now left |]. right.
    rewrite H in Heq. unfold OMap.values in Heq. cbn in Heq.
    rewrite firstn_nil in Heq. cbn in Heq. now subst.
Qed.

(** X8.  Every critical path of a result is a chain of its call tree: it
    starts at a child of the root (the root itself is not on it), each
    node of the path is followed by one of its children, and the last one
    is a leaf.  Its percentage is the [cumulativePercent] of a node of the
    tree at or below its first node.  The list of paths is empty exactly
    when the root has no child. *)
Theorem critical_paths_are_chains
    (profile : NormalizedProfile) (options : AnalyzeOptions)
    (r : AnalysisResult) :
  analyzeProfile profile options = Returns r ->
  (forall cp, In cp (r_criticalPaths r) ->
     exists start n,
       In start (OMap.values (ct_children (r_callTree r))) /\
       ChainToLeaf start (cp_path cp) /\
       InTree n start /\
       cp_cumulativePercent cp = ct_cumulativePercent n) /\
  (r_criticalPaths r = [] <-> ct_children (r_callTree r) = []).
Proof.
  unfold analyzeProfile.
  destruct (jsIndex (sampleTypes profile) (resolvedIndex options));
    [| discriminate].
  destruct (isZero (computeTotal profile (resolvedIndex options)));
    intro H; injection H as <-; cbn [r_criticalPaths r_callTree].
  - split; [intros cp [] | split; reflexivity].
  - split; [intros cp; apply extracted_paths_run_down |].
    rewrite extractCriticalPaths_nil_iff.
    split; [intros [H | H]; [discriminate | exact H] | now right].
Qed.

(** The example of two stacks through [main]. *)
Lemma critical_paths_are_chains_witness :
  exists r,
    analyzeProfile BalanceExample.profile defaultOptions = Returns r /\
    (forall cp, In cp (r_criticalPaths r) ->
       exists start n,
         In start (OMap.values (ct_children (r_callTree r))) /\
         ChainToLeaf start (cp_path cp) /\
         InTree n start /\
         cp_cumulativePercent cp = ct_cumulativePercent n) /\
    (r_criticalPaths r = [] <-> ct_children (r_callTree r) = []).
Proof.
  destruct (analyzeProfile BalanceExample.profile defaultOptions)
    as [r | e] eqn:E; [| vm_compute in E; discriminate].
  exists r. split; [reflexivity |].
  apply (critical_paths_are_chains _ _ r E).
Defined.

(** Its paths: [main, leaf] under the 87.5 of the outer [main], and
    [main, main] under the 37.5 of the inner one. *)
Lemma critical_paths_of_the_example :
  exists r,
    analyzeProfile BalanceExample.profile defaultOptions = Returns r /\
    map (fun cp => (map pn_name (cp_path cp), cp_cumulativePercent cp))
      (r_criticalPaths r) =
    [(["main"; "leaf"], 175 # 2); (["main"; "main"], 75 # 2)].
Proof. eexists. split; vm_compute; reflexivity. Qed.

(** ** Percentages *)

Lemma roundHalfEven_le (x : Q) (m : Z) :
  (x <= inject_Z m)%Q -> roundHalfEven x <= m.
Proof.
  intro H.
  assert (Hf : Qfloor x <= m)
    by (apply Qfloor_resp_le in H; now rewrite Qfloor_Z in H).
  unfold roundHalfEven.
  assert (Hup : (0 < x - inject_Z (Qfloor x))%Q -> Qfloor x + 1 <= m).
  { intro Hpos.
    assert (Hlt : (inject_Z (Qfloor x) < inject_Z m)%Q) by lra.
    rewrite <- Zlt_Qlt in Hlt. lia. }
  destruct (Qcompare (x - inject_Z (Qfloor x)) (1 # 2)) eqn:E.
  - apply Qeq_alt in E. destruct (Z.even (Qfloor x)); [exact Hf |].
    apply Hup. rewrite E. reflexivity.
  - exact Hf.
  - apply Qgt_alt in E. apply Hup. lra.
Qed.

Lemma ilog2_below (q : Q) (n : Z) :
  (0 < q)%Q -> (q < pow2 n)%Q -> ilog2 q < n.
Proof.
  intros Hq Hlt. destruct (Z.lt_ge_cases (ilog2 q) n) as [H | H]; [exact H |].
  exfalso. apply (Qlt_not_le _ _ Hlt).
  apply Qle_trans with (pow2 (ilog2 q)); [now apply pow2_le |].
  now apply ilog2_lower.
Qed.

(** Rounding does not cross an integer below 2^53. *)
Lemma roundPositive_le_integer (q : Q) (n : Z) :
  (0 < q)%Q -> (q <= inject_Z n)%Q -> n < 2 ^ 53 ->
  (roundPositive q <= inject_Z n)%Q.
Proof.
  intros Hq Hle Hn. unfold roundPositive.
  set (e := Z.max (ilog2 q - 52) (-1074)).
  assert (He : e <= 0).
  { assert (ilog2 q < 53); [| subst e; lia].
    apply ilog2_below; [exact Hq |].
    rewrite pow2_nonneg_exp by lia.
    apply Qle_lt_trans with (inject_Z n); [exact Hle |].
    now rewrite <- Zlt_Qlt. }
  assert (Hp : 0 < 2 ^ (- e)) by (apply Z.pow_pos_nonneg; lia).
  assert (Hpq : (0 < inject_Z (2 ^ (- e)))%Q)
    by (change 0%Q with (inject_Z 0); now rewrite <- Zlt_Qlt).
  assert (Hm : roundHalfEven (q / pow2 e) <= n * 2 ^ (- e)).
  { apply roundHalfEven_le.
    rewrite (pow2_nonpos_exp e He), inject_Z_mult.
    unfold Qdiv. rewrite Qinv_involutive.
    apply Qmult_le_compat_r; [exact Hle | now apply Qlt_le_weak]. }
  apply Qle_trans with (inject_Z (n * 2 ^ (- e)) * pow2 e)%Q.
  - apply Qmult_le_compat_r; [| apply Qlt_le_weak, pow2_pos].
    now rewrite <- Zle_Qle.
  - rewrite (pow2_nonpos_exp e He), inject_Z_mult.
    apply Qle_lteq. right. field.
    intro E. rewrite E in Hpq. discriminate.
Qed.

Lemma toDouble_le_integer (x : Q) (n : Z) :
  0 <= n < 2 ^ 53 -> (x <= inject_Z n)%Q -> (toDouble x <= inject_Z n)%Q.
Proof.
  intros [Hn0 Hn1] Hle. unfold toDouble.
  pose proof (Qnum_sign (Qred x)) as Hs.
  pose proof (Qred_correct x) as Hr.
  assert (H0 : (0 <= inject_Z n)%Q)
    by (change 0%Q with (inject_Z 0); now rewrite <- Zle_Qle).
  destruct (Qnum (Qred x)).
  - exact H0.
  - rewrite Qred_correct.
    apply roundPositive_le_integer; [exact Hs | now rewrite Hr | exact Hn1].
  - rewrite Qred_correct.
    assert (0 <= roundPositive (- Qred x))%Q.
    { apply roundPositive_nonneg. rewrite Hr in *. lra. }
    lra.
Qed.

Lemma toDouble_nonneg (x : Q) : (0 <= x)%Q -> (0 <= toDouble x)%Q.
Proof.
  intro H. unfold toDouble.
  pose proof (Qnum_sign (Qred x)) as Hs.
  pose proof (Qred_correct x) as Hr.
  destruct (Qnum (Qred x)).
  - apply Qle_refl.
  - rewrite Qred_correct. apply roundPositive_nonneg. rewrite Hr. exact H.
  - exfalso. rewrite Hr in Hs. apply (Qlt_not_le _ _ Hs H).
Qed.

(** The percentage of a part of a positive total is between 0 and 100. *)
Lemma percentOf_bounds (value : Numeric) (totalNum : Q) :
  (0 <= toNum value)%Q -> (toNum value <= totalNum)%Q -> (0 < totalNum)%Q ->
  (0 <= percentOf value totalNum)%Q /\ (percentOf value totalNum <= 100)%Q.
Proof.
  intros H0 Hle Ht. unfold percentOf, numMul, numDiv.
  set (d := toDouble (toNum value / totalNum)).
  assert (Hd0 : (0 <= d)%Q).
  { apply toDouble_nonneg. apply Qle_shift_div_l; [exact Ht |]. lra. }
  assert (Hd1 : (d <= 1)%Q).
  { apply (toDouble_le_integer _ 1); [lia |].
    apply Qle_shift_div_r; [exact Ht |]. change (inject_Z 1) with 1%Q. lra. }
  split.
  - apply toDouble_nonneg. nra.
  - apply (toDouble_le_integer _ 100); [lia |].
    change (inject_Z 100) with 100%Q. lra.
Qed.

Lemma calculated_percentages (totalValue : Numeric) (tree n : CallTreeNode) :
  InTree n (calculateTreePercentages tree totalValue) ->
  ct_selfPercent n = percentOf (ct_selfValue n) (toNum totalValue) /\
  ct_cumulativePercent n =
    percentOf (ct_cumulativeValue n) (toNum totalValue).
Proof.
  revert n. induction tree as [tree IH] using tree_induction.
  intros n Hin.
  inversion Hin as [| ? child Hc Hn]; subst.
  - destruct tree; split; reflexivity.
  - destruct tree as [k nm f l sv cv sp cp children].
    cbn [calculateTreePercentages ct_children] in Hc.
    unfold OMap.values in Hc. rewrite map_map in Hc. cbn [snd] in Hc.
    apply in_map_iff in Hc. destruct Hc as (kv & <- & Hkv).
    cbn [ct_children] in IH. rewrite Forall_forall in IH.
    now apply (IH kv Hkv).
Qed.

Lemma countColumn_spec (profile : NormalizedProfile) (index : Z) :
  countColumn profile index = true ->
  Forall (fun s => isCount (sampleValue s index) = true) (samples profile) /\
  columnSum index (samples profile) < 2 ^ 53.
Proof.
  unfold countColumn. intro H. apply andb_true_iff in H.
  destruct H as [H1 H2]. split.
  - apply Forall_forall. rewrite forallb_forall in H1. exact H1.
  - now apply Z.ltb_lt.
Qed.

(** X9.  For a column of counts every percentage of the call tree of a
    result is between 0 and 100: the [selfPercent] and the
    [cumulativePercent] of every node, root and leaves included. *)
Theorem callTree_percentages_in_range
    (profile : NormalizedProfile) (options : AnalyzeOptions)
    (r : AnalysisResult) (node : CallTreeNode) :
  analyzeProfile profile options = Returns r ->
  countColumn profile (resolvedIndex options) = true ->
  InTree node (r_callTree r) ->
  (0 <= ct_selfPercent node)%Q /\ (ct_selfPercent node <= 100)%Q /\
  (0 <= ct_cumulativePercent node)%Q /\
  (ct_cumulativePercent node <= 100)%Q.
Proof.
  intros Hr Hcount Hin.
  destruct (countColumn_spec _ _ Hcount) as [Hc Hlt].
  unfold analyzeProfile in Hr.
  destruct (jsIndex (sampleTypes profile) (resolvedIndex options));
    [| discriminate].
  destruct (isZero (computeTotal profile (resolvedIndex options))) eqn:Ez;
    injection Hr as <-; cbn [r_callTree] in *.
  - apply emptyNode_inTree in Hin. subst node. cbn.
    repeat split; discriminate.
  - destruct (buildCallTree_balanced profile _ Hc Hlt) as [Hb Hcc].
    destruct (balanced_inTree _ _ Hb Hin) as [Hn Hle].
    rewrite Hcc in Hle.
    destruct (calculated_percentages _ _ _ Hin) as [Hs Hp].
    rewrite Hs, Hp.
    pose proof (computeTotal_exact profile _ Hc Hlt) as Ht.
    rewrite Ht in *. cbn [toNum].
    pose proof (balanced_nonneg _ Hn) as Hcn.
    destruct Hn as [Hsv Hs0 Hcv Hbal Hall].
    pose proof (childrenCount_nonneg _ Hall) as Hch.
    assert (Hpos : (0 < inject_Z (columnSum (resolvedIndex options)
                                    (samples profile)))%Q).
    { apply isZero_false_neq in Ez. cbn [toNum] in Ez.
      pose proof (columnSum_nonneg _ _ Hc) as Hnn.
      change 0%Q with (inject_Z 0). rewrite <- Zlt_Qlt.
      destruct (Z.eq_dec (columnSum (resolvedIndex options)
                            (samples profile)) 0) as [E | E]; [| lia].
      exfalso. apply Ez. now rewrite E. }
    set (total := inject_Z (columnSum (resolvedIndex options)
                              (samples profile))) in *.
    assert (Hs1 : (0 <= toNum (ct_selfValue node))%Q /\
                  (toNum (ct_selfValue node) <= total)%Q).
    { rewrite Hsv. cbn [toNum]. unfold total. split.
      - change 0%Q with (inject_Z 0). now rewrite <- Zle_Qle.
      - rewrite <- Zle_Qle. lia. }
    assert (Hc1 : (0 <= toNum (ct_cumulativeValue node))%Q /\
                  (toNum (ct_cumulativeValue node) <= total)%Q).
    { rewrite Hcv. cbn [toNum]. unfold total. split.
      - change 0%Q with (inject_Z 0). now rewrite <- Zle_Qle.
      - now rewrite <- Zle_Qle. }
    destruct (percentOf_bounds (ct_selfValue node) total
                (proj1 Hs1) (proj2 Hs1) Hpos) as [H1 H2].
    destruct (percentOf_bounds (ct_cumulativeValue node) total
                (proj1 Hc1) (proj2 Hc1) Hpos) as [H3 H4].
    auto.
Qed.

(** The root of the example. *)
Lemma callTree_percentages_in_range_witness :
  exists r,
    analyzeProfile BalanceExample.profile defaultOptions = Returns r /\
    (0 <= ct_selfPercent (r_callTree r))%Q /\
    (ct_selfPercent (r_callTree r) <= 100)%Q /\
    (0 <= ct_cumulativePercent (r_callTree r))%Q /\
    (ct_cumulativePercent (r_callTree r) <= 100)%Q.
Proof.
  destruct (analyzeProfile BalanceExample.profile defaultOptions)
    as [r | e] eqn:E; [| vm_compute in E; discriminate].
  exists r. split; [reflexivity |].
  apply (callTree_percentages_in_range BalanceExample.profile
           defaultOptions r (r_callTree r) E).
  - vm_compute. reflexivity.
  - constructor.
Defined.

(** ** Critical paths in order *)

(** X10.  For a column of counts the critical paths of a result are in
    descending order of their percentage. *)
Theorem critical_paths_descending
    (profile : NormalizedProfile) (options : AnalyzeOptions)
    (r : AnalysisResult) (i : nat) (a b : CriticalPath) :
  analyzeProfile profile options = Returns r ->
  countColumn profile (resolvedIndex options) = true ->
  nth_error (r_criticalPaths r) i = Some a ->
  nth_error (r_criticalPaths r) (S i) = Some b ->
  (cp_cumulativePercent b <= cp_cumulativePercent a)%Q.
Proof.
  intros Hr _. unfold analyzeProfile in Hr.
  destruct (jsIndex (sampleTypes profile) (resolvedIndex options));
    [| discriminate].
  destruct (isZero (computeTotal profile (resolvedIndex options)));
    injection Hr as <-; cbn [r_criticalPaths].
  - destruct i; discriminate.
  - set (tree := buildCallTree profile (resolvedIndex options)
                   (computeTotal profile (resolvedIndex options))).
    unfold extractCriticalPaths.
    set (paths := fold_left _ _ _). intros Ha Hb.
    assert (Hgrid : Forall (DoubleKey cp_cumulativePercent) paths).
    { destruct (starts_keep 5 RunsDown runsDown_leaf runsDown_child
                  (firstn 5
                     (sortBy byCumulativeValue
                        (OMap.values (ct_children tree)))) [])
        as (news & Heq & _ & Hall).
      subst paths. rewrite Heq. cbn [app].
      eapply Forall_impl; [| exact Hall]. cbv beta.
      intros cp (start & Hin & chain & _ & _ & Hpct).
      apply in_firstn, sortBy_In in Hin.
      assert (Hstart : InTree start tree)
        by (apply (in_tree_below start tree start Hin); constructor).
      unfold DoubleKey.
      destruct Hpct as [-> | (n & Hn & ->)].
      - destruct (calculated_percentages _ _ _ Hstart) as [_ ->].
        apply toDouble_onGrid.
      - assert (Hn' : InTree n tree)
          by (now apply (in_tree_below n tree start)).
        destruct (calculated_percentages _ _ _ Hn') as [_ ->].
        apply toDouble_onGrid. }
    pose proof (sortBy_descending CriticalPath cp_cumulativePercent paths
                  Hgrid) as Hsorted.
    change (descending cp_cumulativePercent)
      with (fun a b : CriticalPath =>
              numSub (cp_cumulativePercent b) (cp_cumulativePercent a))
      in Hsorted.
    set (sorted := sortBy _ paths) in *.
    assert (Hn : forall j x, nth_error (firstn 5 sorted) j = Some x ->
                 nth_error sorted j = Some x).
    { intros j x Hx.
      rewrite nth_error_firstn in Hx.
      destruct (Nat.ltb j 5); [exact Hx | discriminate]. }
    apply (sorted_adjacent CriticalPath cp_cumulativePercent sorted i a b
             Hsorted (Hn _ _ Ha) (Hn _ _ Hb)).
Qed.

Lemma critical_paths_descending_witness :
  exists r,
    analyzeProfile BalanceExample.profile defaultOptions = Returns r /\
    forall a b,
      nth_error (r_criticalPaths r) 0 = Some a ->
      nth_error (r_criticalPaths r) 1 = Some b ->
      (cp_cumulativePercent b <= cp_cumulativePercent a)%Q.
Proof.
  destruct (analyzeProfile BalanceExample.profile defaultOptions)
    as [r | e] eqn:E; [| vm_compute in E; discriminate].
  exists r. split; [reflexivity |]. intros a b.
  apply (critical_paths_descending BalanceExample.profile defaultOptions
           r 0 a b E).
  vm_compute. reflexivity.
Defined.


(** ** Escaping for Markdown *)

Lemma escapeMarkdown_one_pass (str : string) :
  escapeMarkdown str = escapeBoth str.
Proof.
  unfold escapeMarkdown. induction str as [| a str IH]; [reflexivity |].
  cbn [escapeChar escapeBoth]. unfold isSpecial.
  destruct (Ascii.eqb a "|") eqn:E1.
  - apply Ascii.eqb_eq in E1. subst a. cbn. now rewrite IH.
  - cbn [escapeChar orb]. destruct (Ascii.eqb a "`"); now rewrite IH.
Qed.

Lemma get_escapeBoth (str : string) (i : nat) (c : ascii) :
  String.get i (escapeBoth str) = Some c -> isSpecial c = true ->
  exists j, i = S j /\ String.get j (escapeBoth str) = Some "\"%char.
Proof.
  revert i. induction str as [| a str IH]; intros i Hget Hc;
    [destruct i; discriminate |].
  cbn [escapeBoth] in *. destruct (isSpecial a) eqn:Ea.
  - destruct i as [| [| i]]; cbn in Hget.
    + injection Hget as <-. discriminate.
    + exists O. split; reflexivity.
    + destruct (IH i Hget Hc) as (j & -> & Hj).
      exists (S (S j)). split; [reflexivity | exact Hj].
  - destruct i as [| i]; cbn in Hget.
    + injection Hget as <-. congruence.
    + destruct (IH i Hget Hc) as (j & -> & Hj).
      exists (S j). split; [reflexivity | exact Hj].
Qed.

Lemma unescape_cons (a : ascii) (s : string) :
  match s with
  | String b _ => andb (Ascii.eqb a "\") (isSpecial b) = false
  | EmptyString => True
  end ->
  unescapeMarkdown (String a s) = String a (unescapeMarkdown s).
Proof.
  destruct s as [| b r]; [reflexivity |].
  intro H. cbn [unescapeMarkdown]. now rewrite H.
Qed.

Lemma unescape_escapeBoth (str : string) :
  unescapeMarkdown (escapeBoth str) = str.
Proof.
  induction str as [| a str IH]; [reflexivity |].
  cbn [escapeBoth]. destruct (isSpecial a) eqn:Ea.
  - cbn [unescapeMarkdown]. rewrite Ea. cbn [andb Ascii.eqb].
    change (Ascii.eqb "\" "\") with true. cbn [andb]. now rewrite IH.
  - rewrite unescape_cons; [now rewrite IH |].
    destruct (escapeBoth str) as [| b rest] eqn:Eb; [exact I |].
    destruct (Ascii.eqb a "\") eqn:Eback; [| reflexivity].
    cbn [andb]. destruct (isSpecial b) eqn:Esb; [| reflexivity].
    exfalso.
    destruct (get_escapeBoth str 0 b) as (j & Hj & _);
      [rewrite Eb; reflexivity | exact Esb | discriminate].
Qed.

Lemma length_escapeBoth (str : string) :
  (String.length str <= String.length (escapeBoth str))%nat.
Proof.
  induction str as [| a str IH]; [cbn; lia |].
  cbn [escapeBoth]. destruct (isSpecial a); cbn; lia.
Qed.

(** X11.  In the result of [escapeMarkdown] every [|] and every backtick
    stands behind a backslash, so none of them is the first character;
    dropping the backslash before each of them gives the string back, so
    two strings are never escaped to the same text.  A backslash of the
    string itself is not escaped. *)
Theorem escapeMarkdown_guards_every_special (str : string) :
  (forall i c,
     String.get i (escapeMarkdown str) = Some c -> isSpecial c = true ->
     exists j, i = S j /\
       String.get j (escapeMarkdown str) = Some "\"%char) /\
  unescapeMarkdown (escapeMarkdown str) = str /\
  (forall str', escapeMarkdown str = escapeMarkdown str' -> str = str') /\
  escapeMarkdown "a|b`c" = "a\|b\`c" /\
  escapeMarkdown "a\|b" = "a\\|b".
Proof.
  rewrite escapeMarkdown_one_pass.
  split; [intros i c; apply get_escapeBoth |].
  split; [apply unescape_escapeBoth |].
  split; [| split; reflexivity].
  intros str' H. rewrite escapeMarkdown_one_pass in H.
  rewrite <- (unescape_escapeBoth str), <- (unescape_escapeBoth str').
  now rewrite H.
Qed.

(** ** The line of a critical path *)

(** X12.  [formatCriticalPath] does not show the first node of the path
    ([path.path.slice(1)], commented as skipping the root).  The paths of
    the extractor start at a child of the root, not at the root: the line
    of such a path leaves out its outermost function and shows the chain
    below it, and for a path of one node it shows no function at all. *)
Theorem formatCriticalPath_omits_first_node
    (callTree : CallTreeNode) (maxPaths : nat) (cp : CriticalPath)
    (index : Z) :
  In cp (extractCriticalPaths callTree maxPaths) ->
  exists start below,
    In start (OMap.values (ct_children callTree)) /\
    cp_path cp = pathNodeOf start :: below /\
    formatCriticalPath index cp =
      (numberToString (inject_Z index) ++ ". **[" ++
       toFixed1 (cp_cumulativePercent cp) ++ "%]** " ++
       join arrow
         (map (fun node => ("`" ++ pn_name node ++ "`")%string) below))%string
    /\
    (ct_children start = [] ->
     formatCriticalPath index cp =
       (numberToString (inject_Z index) ++ ". **[" ++
        toFixed1 (cp_cumulativePercent cp) ++ "%]** ")%string).
Proof.
  intro Hin.
  destruct (extracted_paths_run_down callTree maxPaths cp Hin)
    as (start & n & Hstart & Hchain & _).
  exists start.
  inversion Hchain as [? Hleaf Hn Hp | ? child chain Hchild Hc Hn Hp].
  - exists []. split; [exact Hstart |]. split; [reflexivity |].
    unfold formatCriticalPath. rewrite <- Hp. cbn [skipn map join].
    split; [reflexivity | intros _; reflexivity].
  - exists chain. split; [exact Hstart |]. split; [reflexivity |].
    unfold formatCriticalPath. rewrite <- Hp. cbn [skipn].
    split; [reflexivity |].
    intro Hleaf. exfalso. rewrite Hleaf in Hchild. contradiction.
Qed.

(** The two paths of the example: [P] alone prints no function, and
    [Q, L] prints [L] only. *)
Lemma formatCriticalPath_omits_first_node_witness :
  map (fun cp => formatCriticalPath 1 cp)
    (extractCriticalPaths PathExample.tree 5) =
  ["1. **[70.0%]** "; "1. **[30.0%]** `L`"] /\
  exists start below,
    In start (OMap.values (ct_children PathExample.tree)) /\
    [PathExample.step "Q" 30; PathExample.step "L" 20] =
      pathNodeOf start :: below.
Proof.
  split; [vm_compute; reflexivity |].
  destruct (formatCriticalPath_omits_first_node PathExample.tree 5
              {| cp_path := [PathExample.step "Q" 30; PathExample.step "L" 20];
                 cp_cumulativePercent := 30 |} 1)
    as (start & below & H1 & H2 & _).
  - vm_compute. right. left. reflexivity.
  - exists start, below. split; [exact H1 | exact H2].
Defined.

